(** * redux-auto-slice: the transition vocabulary of [src/index.ts]

    A shallow embedding of the reducers that [createAutoSlice] generates
    for its two adapters (array and entity), of the async lifecycle cases
    and of the reducer-map assembly, followed by the properties proved
    about them.

    The reducers are dynamically typed JavaScript: an action payload can be
    any value, and the code inspects it with [typeof], [in], [Array.isArray]
    and [??].  The embedding therefore works over a universe of JavaScript
    values and writes out what each operator does on every kind of value,
    including the [TypeError] a property read on [null] or [undefined]
    raises. *)

From Stdlib Require Import ZArith List String Ascii Bool Lia DecimalString.
Import ListNotations.
Set Warnings "-register-all".
Open Scope string_scope.
Open Scope Z_scope.

(** ** JavaScript values *)

Module JS.

(** Objects and arrays are compared by reference ([===], [Set.has]); every
    object and array carries the reference it was allocated at. *)
Definition ref := nat.

(** Scope of the universe: numbers are integers (no fractions, [NaN] or
    infinities); a safe integer, within [2^53] in magnitude, is a double
    and is printed in decimal, and [number_add] below rounds the sums that
    leave that range as the machine does. Strings are sequences of one-byte
    characters, there are no functions or symbols, and a value is a tree (no
    object is reachable along two paths, so an in-place write is a
    replacement of the written node). An object is the list of its own
    properties in insertion order (index-like names are not moved to the
    front); when a name is repeated the first binding is the property.
    The members that an object inherits are functions, or [__proto__]:
    [get_prop] and [js_in] are for the literal names of the source, none of
    which is inherited, and for a name already found among the own
    properties; where the source reads an object under a computed name,
    [get_member] says whether the name is found on the prototype. *)
Inductive value : Type :=
| VUndefined
| VNull
| VBool (b : bool)
| VNum (n : Z)
| VStr (s : string)
| VObj (r : ref) (props : list (string * value))
| VArr (r : ref) (items : list value).

Definition props := list (string * value).

Inductive error := TypeError.

(** What evaluating a piece of code gives: a result, a raised error, or
    [Unmodelled] where JavaScript continues with a value that the universe
    above cannot express (a named property on an array, [NaN], a method
    of [String.prototype]). Nothing is claimed about such runs. *)
Inductive outcome (A : Type) : Type :=
| Ok (a : A)
| Throw (e : error)
| Unmodelled.

Arguments Ok {A} a.
Arguments Throw {A} e.
Arguments Unmodelled {A}.

Definition bind {A B : Type} (m : outcome A) (k : A -> outcome B) : outcome B :=
  match m with
  | Ok a => k a
  | Throw e => Throw e
  | Unmodelled => Unmodelled
  end.

Notation "x <- m ;; k" := (bind m (fun x => k))
  (at level 61, m at next level, right associativity).

Definition string_of_Z (z : Z) : string := NilZero.string_of_int (Z.to_int z).
Definition string_of_nat (n : nat) : string := NilZero.string_of_uint (Nat.to_uint n).

(** An array index as a property name: the canonical decimal numeral. *)
Definition index_of_key (key : string) : option nat :=
  match NilEmpty.uint_of_string key with
  | Some d =>
      let n := Nat.of_uint d in
      if String.eqb (string_of_nat n) key then Some n else None
  | None => None
  end.

Definition typeof (v : value) : string :=
  match v with
  | VUndefined => "undefined"
  | VNull | VObj _ _ | VArr _ _ => "object"
  | VBool _ => "boolean"
  | VNum _ => "number"
  | VStr _ => "string"
  end.

(** [a === b]. In JavaScript [NaN] is the one value that is not [===] to
    itself; it is not in the universe, and a property that would fail on
    it is stated for values that are [===] to themselves. *)
Definition strict_equal (a b : value) : bool :=
  match a, b with
  | VUndefined, VUndefined => true
  | VNull, VNull => true
  | VBool x, VBool y => Bool.eqb x y
  | VNum x, VNum y => Z.eqb x y
  | VStr x, VStr y => String.eqb x y
  | VObj r _, VObj r' _ => Nat.eqb r r'
  | VArr r _, VArr r' _ => Nat.eqb r r'
  | _, _ => false
  end.

(** [SameValueZero], the comparison of [Array.prototype.includes] and of
    [Set]: it parts from [===] on [NaN] alone, which it finds equal to
    itself. *)
Definition same_value_zero : value -> value -> bool := strict_equal.

(** The test of [??] and [?.]. *)
Definition nullish (v : value) : bool :=
  match v with
  | VUndefined | VNull => true
  | _ => false
  end.

(** [a ?? b] *)
Definition coalesce (a b : value) : value := if nullish a then b else a.

(** A destructuring default, [{ x = dflt }]: it applies when the property
    is [undefined]. *)
Definition default_to (v dflt : value) : value :=
  if strict_equal v VUndefined then dflt else v.

(** A computed name under which the entity adapter stores an entity or
    looks one up to merge into it. Properties are own properties here; for
    the one name that JavaScript routes to the prototype of an object,
    [__proto__], such a run is left [Unmodelled]. (Where the source only
    tests the entity found under a computed name for a numeric or boolean
    field, or deletes it, the prototype behaves as an absent entity and no
    guard is needed.) *)
Definition computed_key (key : string) : outcome string :=
  if String.eqb key "__proto__" then Unmodelled else Ok key.

Definition truthy (v : value) : bool :=
  match v with
  | VUndefined | VNull => false
  | VBool b => b
  | VNum n => negb (n =? 0)
  | VStr s => negb (String.eqb s "")
  | VObj _ _ | VArr _ _ => true
  end.

Definition isArray (v : value) : bool :=
  match v with
  | VArr _ _ => true
  | _ => false
  end.

Fixpoint join (sep : string) (parts : list string) : string :=
  match parts with
  | [] => ""
  | [p] => p
  | p :: rest => p ++ sep ++ join sep rest
  end.

(** [String(v)] *)
Fixpoint to_string (v : value) : string :=
  match v with
  | VUndefined => "undefined"
  | VNull => "null"
  | VBool true => "true"
  | VBool false => "false"
  | VNum n => string_of_Z n
  | VStr s => s
  | VObj _ _ => "[object Object]"
  | VArr _ items =>
      join "," (map (fun x => if nullish x then "" else to_string x) items)
  end.

(** *** Own properties *)

Fixpoint lookup (key : string) (ps : props) : option value :=
  match ps with
  | [] => None
  | (k, v) :: rest => if String.eqb key k then Some v else lookup key rest
  end.

Definition has_key (key : string) (ps : props) : bool :=
  match lookup key ps with
  | Some _ => true
  | None => false
  end.

(** [o[key] = v] on the own properties: overwrite in place, or append. *)
Fixpoint assign (key : string) (v : value) (ps : props) : props :=
  match ps with
  | [] => [(key, v)]
  | (k, w) :: rest =>
      if String.eqb key k then (k, v) :: rest else (k, w) :: assign key v rest
  end.

(** [delete o[key]] on the own properties. *)
Definition remove_key (key : string) (ps : props) : props :=
  filter (fun kv => negb (String.eqb key (fst kv))) ps.

Fixpoint replace_nth (i : nat) (v : value) (items : list value) : list value :=
  match items, i with
  | [], _ => []
  | _ :: rest, O => v :: rest
  | x :: rest, S j => x :: replace_nth j v rest
  end.

Fixpoint indexed_from (i : nat) (items : list value) : props :=
  match items with
  | [] => []
  | x :: rest => (string_of_nat i, x) :: indexed_from (S i) rest
  end.

Fixpoint chars (s : string) : list value :=
  match s with
  | EmptyString => []
  | String c rest => VStr (String c EmptyString) :: chars rest
  end.

(** The own enumerable properties that an object spread copies. *)
Definition own_props (v : value) : props :=
  match v with
  | VObj _ ps => ps
  | VArr _ items => indexed_from 0 items
  | VStr s => indexed_from 0 (chars s)
  | _ => []
  end.

(** [{ ...base, ...src }], where [base] are the properties copied so far
    and [ps] the own properties of [src]: a property of [src] overwrites
    the one of the same name where it stands, and new names are
    appended. *)
Definition spread (base ps : props) : props :=
  (map (fun kv => (fst kv, match lookup (fst kv) ps with
                          | Some v => v
                          | None => snd kv
                          end)) base
  ++ filter (fun kv => negb (has_key (fst kv) base)) ps)%list.

(** [target[key]] for a name that no prototype defines (every literal
    name of the source), or that [target] has as an own property. *)
Definition get_prop (target : value) (key : string) : outcome value :=
  match target with
  | VUndefined | VNull => Throw TypeError
  | VBool _ | VNum _ => Ok VUndefined
  | VStr s =>
      if String.eqb key "length" then Ok (VNum (Z.of_nat (String.length s)))
      else match index_of_key key with
           | Some i => Ok (nth i (chars s) VUndefined)
           | None => Ok VUndefined
           end
  | VObj _ ps =>
      match lookup key ps with
      | Some v => Ok v
      | None => Ok VUndefined
      end
  | VArr _ items =>
      if String.eqb key "length" then Ok (VNum (Z.of_nat (List.length items)))
      else match index_of_key key with
           | Some i => Ok (nth i items VUndefined)
           | None => Ok VUndefined
           end
  end.

(** [target?.[key]] *)
Definition get_prop_opt (target : value) (key : string) : outcome value :=
  if nullish target then Ok VUndefined else get_prop target key.

(** The names of the members that every object inherits from
    [Object.prototype]: the methods, which are functions, and the accessor
    [__proto__]. *)
Definition inherited_names : list string :=
  ["constructor"; "__defineGetter__"; "__defineSetter__"; "hasOwnProperty";
   "__lookupGetter__"; "__lookupSetter__"; "isPrototypeOf";
   "propertyIsEnumerable"; "toString"; "valueOf"; "__proto__"; "toLocaleString"].

(** What a read of an object under a computed name finds: an own property,
    a method of the prototype, or nothing ([undefined]). *)
Inductive member : Type :=
| Own (v : value)
| Method
| Absent.

(** [target[key]] for a computed [key]. The own properties come first;
    a name that is not among them is looked up on the prototype. The
    prototype of an object is [Object.prototype]; the prototypes of the
    other values, and what [__proto__] yields, are not modelled. *)
Definition get_member (target : value) (key : string) : outcome member :=
  match target with
  | VUndefined | VNull => Throw TypeError
  | VObj _ ps =>
      match lookup key ps with
      | Some v => Ok (Own v)
      | None =>
          if String.eqb key "__proto__" then Unmodelled
          else if existsb (String.eqb key) inherited_names then Ok Method
          else Ok Absent
      end
  | _ => Unmodelled
  end.

(** [key in target]; the operator raises on a primitive. On an object
    the own properties are looked at: the source goes on from [in] to a
    [typeof] test for a number or a boolean, which no inherited member
    passes. *)
Definition js_in (key : string) (target : value) : outcome bool :=
  match target with
  | VObj _ ps => Ok (has_key key ps)
  | VArr _ items =>
      if String.eqb key "length" then Ok true
      else match index_of_key key with
           | Some i => Ok (Nat.ltb i (List.length items))
           | None => Ok false
           end
  | _ => Throw TypeError
  end.

(** [target[key] = v] in strict mode; the result is [target] after the
    write. *)
Definition set_prop (target : value) (key : string) (v : value) : outcome value :=
  match target with
  | VUndefined | VNull | VBool _ | VNum _ | VStr _ => Throw TypeError
  | VObj r ps => Ok (VObj r (assign key v ps))
  | VArr r items =>
      match index_of_key key with
      | Some i =>
          if Nat.ltb i (List.length items) then Ok (VArr r (replace_nth i v items))
          else Unmodelled
      | None => Unmodelled
      end
  end.

(** [delete target[key]]; the result is [target] after the deletion. *)
Definition delete_prop (target : value) (key : string) : outcome value :=
  match target with
  | VUndefined | VNull => Throw TypeError
  | VBool _ | VNum _ => Ok target
  | VObj r ps => Ok (VObj r (remove_key key ps))
  | VStr _ | VArr _ _ => Unmodelled
  end.

(** [target[i]] and [target[i] = v] for a number [i]. *)
Definition get_index (target : value) (i : Z) : outcome value :=
  match target with
  | VArr _ items =>
      if (0 <=? i) && (i <? Z.of_nat (List.length items))
      then Ok (nth (Z.to_nat i) items VUndefined)
      else Ok VUndefined
  | _ => get_prop target (string_of_Z i)
  end.

Definition set_index (target : value) (i : Z) (v : value) : outcome value :=
  match target with
  | VArr r items =>
      if (0 <=? i) && (i <? Z.of_nat (List.length items))
      then Ok (VArr r (replace_nth (Z.to_nat i) v items))
      else Unmodelled
  | _ => set_prop target (string_of_Z i) v
  end.

(** [n < v] for a number [n]. *)
Definition number_lt (n : Z) (v : value) : outcome bool :=
  match v with
  | VNum m => Ok (n <? m)
  | VUndefined => Ok false
  | _ => Unmodelled
  end.

(** The double nearest to an integer, ties to the even significand: an
    integer up to [2^53] in magnitude is a double; beyond, the doubles are
    [2^e] apart, where the integer has [53 + e] binary digits. [None] is
    the overflow to an infinity. *)
Definition round_double (z : Z) : option Z :=
  let a := Z.abs z in
  if a <=? 2 ^ 53 then Some z
  else
    let e := Z.log2 a - 52 in
    let q := a / 2 ^ e in
    let rest := a mod 2 ^ e in
    let half := 2 ^ (e - 1) in
    let q' := if rest <? half then q
              else if half <? rest then q + 1
              else if Z.even q then q else q + 1 in
    let rounded := q' * 2 ^ e in
    if rounded <? 2 ^ 1024 then Some (Z.sgn z * rounded) else None.

(** [n + m] on numbers: the exact sum, rounded. *)
Definition number_add (n m : Z) : option Z := round_double (n + m).

(** [n + v] for a number [n]: numeric addition, or concatenation once the
    right operand converts to a string (a number is printed in decimal
    while it is a safe integer). *)
Definition number_plus (n : Z) (v : value) : outcome value :=
  let sum m := match number_add n m with
               | Some s => Ok (VNum s)
               | None => Unmodelled
               end in
  match v with
  | VNum m => sum m
  | VBool b => sum (if b then 1 else 0)
  | VNull => sum 0
  | VUndefined => Unmodelled
  | VStr _ | VObj _ _ | VArr _ _ =>
      if Z.abs n <=? 2 ^ 53 then Ok (VStr (string_of_Z n ++ to_string v))
      else Unmodelled
  end.

(** *** Array methods

    A method call on [null] or [undefined] raises, and so does the call of
    a method that the receiver does not have (no value here is a
    function). *)

Definition array_push (target : value) (xs : list value) : outcome value :=
  match target with
  | VArr r items => Ok (VArr r (items ++ xs)%list)
  | _ => Throw TypeError
  end.

Fixpoint filter_items (keep : value -> outcome bool) (items : list value)
  : outcome (list value) :=
  match items with
  | [] => Ok []
  | x :: rest =>
      b <- keep x ;;
      kept <- filter_items keep rest ;;
      Ok (if b then x :: kept else kept)
  end.

(** [target.filter(keep)], allocated at [fresh]. *)
Definition array_filter (fresh : ref) (target : value)
  (keep : value -> outcome bool) : outcome value :=
  match target with
  | VArr _ items => kept <- filter_items keep items ;; Ok (VArr fresh kept)
  | _ => Throw TypeError
  end.

Fixpoint find_index_from (test : value -> outcome bool) (items : list value)
  (i : Z) : outcome Z :=
  match items with
  | [] => Ok (-1)
  | x :: rest =>
      b <- test x ;;
      if b then Ok i else find_index_from test rest (i + 1)
  end.

Definition array_findIndex (target : value) (test : value -> outcome bool)
  : outcome Z :=
  match target with
  | VArr _ items => find_index_from test items 0
  | _ => Throw TypeError
  end.

(** [target.includes(v)]; strings have an [includes] of their own. *)
Definition array_includes (target : value) (v : value) : outcome bool :=
  match target with
  | VArr _ items => Ok (existsb (same_value_zero v) items)
  | VStr _ => Unmodelled
  | _ => Throw TypeError
  end.

(** [new Set(xs).has(v)] *)
Definition set_has (xs : list value) (v : value) : bool :=
  existsb (same_value_zero v) xs.

Fixpoint map_items {A : Type} (f : value -> outcome A) (items : list value)
  : outcome (list A) :=
  match items with
  | [] => Ok []
  | x :: rest =>
      y <- f x ;;
      ys <- map_items f rest ;;
      Ok (y :: ys)
  end.

(** [for (const x of items) body]: the loop body transforms the state. *)
Fixpoint for_of {A S : Type} (items : list A) (body : S -> A -> outcome S)
  (s : S) : outcome S :=
  match items with
  | [] => Ok s
  | x :: rest => s' <- body s x ;; for_of rest body s'
  end.

(** [Array.isArray(payload) ? payload : [payload]] *)
Definition one_or_many (payload : value) : list value :=
  match payload with
  | VArr _ items => items
  | _ => [payload]
  end.

(** [target[key]] is mutated in place by [f]: the write goes to the object
    that [target] holds under [key]. *)
Definition modify_prop (target : value) (key : string)
  (f : value -> outcome value) : outcome value :=
  v <- get_prop target key ;;
  v' <- f v ;;
  set_prop target key v'.

End JS.

Import JS.

(** ** Reducers

    A reducer of the source is a closure [(state, action) => ...] that writes
    to [state] in place, returns a new state, or both. [draft] is the state
    object after the in-place writes of one call and [returned] what the call
    returned ([undefined] for a reducer that ends without [return]). The first
    argument of a reducer is the reference at which the call allocates the
    objects it creates; of an action only [action.payload] is read. *)

Record reduction : Type := { draft : value; returned : value }.

Definition reducer := ref -> value -> value -> outcome reduction.

Definition mutated (state : value) : reduction :=
  {| draft := state; returned := VUndefined |}.

Definition replaced (state result : value) : reduction :=
  {| draft := state; returned := result |}.

(** The state after the call: the returned value when there is one, else
    the draft. This is the test [result !== undefined] of the source's
    wrapper for async array slices, and the rule of [createSlice]. *)
Definition next_state (r : reduction) : value :=
  if strict_equal (returned r) VUndefined then draft r else returned r.

Definition toId (id : value) : string := to_string id.

(** The source's guard [v !== null && typeof v === 'object']. *)
Definition is_object (v : value) : bool :=
  negb (strict_equal v VNull) && String.eqb (typeof v) "object".

(** *** Array adapter: the cases of [createArrayReducers] *)

Module ArrayAdapter.

Definition add : reducer := fun fresh state payload =>
  st <- array_push state [payload] ;;
  Ok (mutated st).

Definition remove : reducer := fun fresh state payload =>
  bearing <- (if is_object payload then js_in "id" payload else Ok false) ;;
  if bearing then
    kept <- array_filter fresh state (fun item =>
              item_id <- get_prop item "id" ;;
              payload_id <- get_prop payload "id" ;;
              Ok (negb (strict_equal item_id payload_id))) ;;
    Ok (replaced state kept)
  else
    kept <- array_filter fresh state (fun item =>
              Ok (negb (strict_equal item payload))) ;;
    Ok (replaced state kept).

Definition clear : reducer := fun fresh state payload =>
  Ok (replaced state (VArr fresh [])).

Definition update : reducer := fun fresh state payload =>
  if is_object payload then
    has_at <- js_in "at" payload ;;
    at_ <- get_prop payload "at" ;;
    match has_at, at_ with
    | true, VNum i =>
        in_bounds <- (if 0 <=? i
                      then len <- get_prop state "length" ;; number_lt i len
                      else Ok false) ;;
        if in_bounds then
          v <- get_prop payload "value" ;;
          st <- set_index state i v ;;
          Ok (mutated st)
        else Ok (mutated state)
    | _, _ =>
        has_id <- js_in "id" payload ;;
        has_changes <- js_in "changes" payload ;;
        if has_id && has_changes then
          idx <- array_findIndex state (fun item =>
                   item_id <- get_prop item "id" ;;
                   payload_id <- get_prop payload "id" ;;
                   Ok (strict_equal item_id payload_id)) ;;
          if 0 <=? idx then
            el <- get_index state idx ;;
            if is_object el then
              changes <- get_prop payload "changes" ;;
              st <- set_index state idx
                      (VObj fresh (spread (spread [] (own_props el)) (own_props changes))) ;;
              Ok (mutated st)
            else Ok (mutated state)
          else Ok (mutated state)
        else Ok (mutated state)
    end
  else Ok (mutated state).

Definition set : reducer := fun fresh state payload =>
  Ok (replaced state (coalesce payload (VArr fresh []))).

Definition addMany : reducer := fun fresh state payload =>
  match payload with
  | VArr _ items => st <- array_push state items ;; Ok (mutated st)
  | _ => Ok (mutated state)
  end.

Definition removeMany : reducer := fun fresh state payload =>
  let arr := one_or_many payload in
  let first := nth 0 arr VUndefined in
  isIds <- (if Nat.ltb 0 (List.length arr) && is_object first then
              has_id <- js_in "id" first ;;
              if has_id then
                first_id <- get_prop first "id" ;;
                Ok (String.eqb (typeof first_id) "string"
                    || String.eqb (typeof first_id) "number")
              else Ok false
            else Ok false) ;;
  if isIds then
    idSet <- map_items (fun x => x_id <- get_prop x "id" ;; Ok (VStr (toId x_id))) arr ;;
    kept <- array_filter fresh state (fun item =>
              item_id <- get_prop item "id" ;;
              Ok (negb (set_has idSet (VStr (toId item_id))))) ;;
    Ok (replaced state kept)
  else
    kept <- array_filter fresh state (fun item => Ok (negb (set_has arr item))) ;;
    Ok (replaced state kept).

Definition upsert : reducer := fun fresh state payload =>
  st <- for_of (one_or_many payload) (fun st entity =>
          idx <- array_findIndex st (fun item =>
                   item_id <- get_prop item "id" ;;
                   entity_id <- get_prop_opt entity "id" ;;
                   Ok (strict_equal item_id entity_id)) ;;
          if 0 <=? idx then set_index st idx entity
          else array_push st [entity]) state ;;
  Ok (mutated st).

End ArrayAdapter.

(** *** Entity adapter: the cases of [createEntityReducers] *)

Module EntityAdapter.

(** [for (const entity of items)] over a value: an array yields its items,
    a string its characters (left [Unmodelled]), anything else is not
    iterable. *)
Definition iterate (items : value) : outcome (list value) :=
  match items with
  | VArr _ xs => Ok xs
  | VStr _ => Unmodelled
  | _ => Throw TypeError
  end.

Definition add : reducer := fun fresh state payload =>
  st <- for_of (one_or_many payload) (fun st entity =>
          entity_id <- get_prop entity "id" ;;
          id <- computed_key (toId entity_id) ;;
          st1 <- modify_prop st "entities" (fun ents => set_prop ents id entity) ;;
          ids <- get_prop st1 "ids" ;;
          known <- array_includes ids (VStr id) ;;
          if known then Ok st1
          else modify_prop st1 "ids" (fun ids => array_push ids [VStr id])) state ;;
  Ok (mutated st).

Definition remove : reducer := fun fresh state payload =>
  let idsToRemove := map toId (one_or_many payload) in
  st1 <- for_of idsToRemove (fun st id =>
           modify_prop st "entities" (fun ents => delete_prop ents id)) state ;;
  ids <- get_prop st1 "ids" ;;
  kept <- array_filter fresh ids (fun id =>
            Ok (negb (set_has (map VStr idsToRemove) id))) ;;
  st2 <- set_prop st1 "ids" kept ;;
  Ok (mutated st2).

(** [state.entities[keyId]] in [update] is read through the prototype: for
    an id such as ["constructor"], [existing] is the inherited method, which
    is truthy and has no enumerable property of its own to spread. *)
Definition update : reducer := fun fresh state payload =>
  id <- get_prop payload "id" ;;
  changes <- get_prop payload "changes" ;;
  keyId <- computed_key (toId id) ;;
  ents <- get_prop state "entities" ;;
  existing <- get_member ents keyId ;;
  let store (copied : props) :=
    st <- modify_prop state "entities" (fun ents =>
            set_prop ents keyId
              (VObj fresh (spread (spread [] copied) (own_props changes)))) ;;
    Ok (mutated st) in
  match existing with
  | Own e => if truthy e then store (own_props e) else Ok (mutated state)
  | Method => store []
  | Absent => Ok (mutated state)
  end.

Definition clear : reducer := fun fresh state payload =>
  Ok (replaced state
        (VObj fresh [("entities", VObj (S fresh) []); ("ids", VArr (S (S fresh)) [])])).

Definition set : reducer := fun fresh state payload =>
  Ok (replaced state
        (coalesce payload
           (VObj fresh [("entities", VObj (S fresh) []); ("ids", VArr (S (S fresh)) [])]))).

Definition addMany : reducer := fun fresh state payload =>
  items <- iterate (coalesce payload (VArr fresh [])) ;;
  st <- for_of items (fun st entity =>
          entity_id <- get_prop entity "id" ;;
          id <- computed_key (toId entity_id) ;;
          st1 <- modify_prop st "entities" (fun ents => set_prop ents id entity) ;;
          ids <- get_prop st1 "ids" ;;
          known <- array_includes ids (VStr id) ;;
          if known then Ok st1
          else modify_prop st1 "ids" (fun ids => array_push ids [VStr id])) state ;;
  Ok (mutated st).

Definition removeMany : reducer := fun fresh state payload =>
  let idsToRemove := map toId (one_or_many payload) in
  st1 <- for_of idsToRemove (fun st id =>
           modify_prop st "entities" (fun ents => delete_prop ents id)) state ;;
  ids <- get_prop st1 "ids" ;;
  kept <- array_filter fresh ids (fun id =>
            Ok (negb (set_has (map VStr idsToRemove) id))) ;;
  st2 <- set_prop st1 "ids" kept ;;
  Ok (mutated st2).

Definition upsert : reducer := fun fresh state payload =>
  st <- for_of (one_or_many payload) (fun st entity =>
          entity_id <- get_prop entity "id" ;;
          id <- computed_key (toId entity_id) ;;
          st1 <- modify_prop st "entities" (fun ents => set_prop ents id entity) ;;
          ids <- get_prop st1 "ids" ;;
          known <- array_includes ids (VStr id) ;;
          if known then Ok st1
          else modify_prop st1 "ids" (fun ids => array_push ids [VStr id])) state ;;
  Ok (mutated st).

(** In [increment] and [toggle], [const { id, field = 'value', amount = 1 }
    = payload ?? {}] reads the three properties, with their defaults, and
    the property name [field] is the string its value converts to.
    [state.entities[keyId]] is read through the prototype: for an id such
    as ["constructor"], [existing] is the inherited method. The [length]
    of a function is a number that cannot be written to, so that
    [existing[field] += amount] raises there; the other members of a
    function are not modelled. *)
Definition increment : reducer := fun fresh state payload =>
  let p := coalesce payload (VObj fresh []) in
  id <- get_prop p "id" ;;
  field0 <- get_prop p "field" ;;
  amount0 <- get_prop p "amount" ;;
  let field := to_string (default_to field0 (VStr "value")) in
  let amount := default_to amount0 (VNum 1) in
  let keyId := toId id in
  ents <- get_prop state "entities" ;;
  found <- get_member ents keyId ;;
  match found with
  | Own existing =>
      if truthy existing then
        has_field <- js_in field existing ;;
        if has_field then
          current <- get_prop existing field ;;
          match current with
          | VNum n =>
              sum <- number_plus n amount ;;
              existing' <- set_prop existing field sum ;;
              st <- modify_prop state "entities" (fun ents =>
                      set_prop ents keyId existing') ;;
              Ok (mutated st)
          | _ => Ok (mutated state)
          end
        else Ok (mutated state)
      else Ok (mutated state)
  | Method => if String.eqb field "length" then Throw TypeError else Unmodelled
  | Absent => Ok (mutated state)
  end.

Definition toggle : reducer := fun fresh state payload =>
  let p := coalesce payload (VObj fresh []) in
  id <- get_prop p "id" ;;
  field0 <- get_prop p "field" ;;
  let field := to_string (default_to field0 (VStr "value")) in
  let keyId := toId id in
  ents <- get_prop state "entities" ;;
  found <- get_member ents keyId ;;
  match found with
  | Own existing =>
      if truthy existing then
        has_field <- js_in field existing ;;
        if has_field then
          current <- get_prop existing field ;;
          match current with
          | VBool b =>
              existing' <- set_prop existing field (VBool (negb b)) ;;
              st <- modify_prop state "entities" (fun ents =>
                      set_prop ents keyId existing') ;;
              Ok (mutated st)
          | _ => Ok (mutated state)
          end
        else Ok (mutated state)
      else Ok (mutated state)
  | Method => Unmodelled
  | Absent => Ok (mutated state)
  end.

End EntityAdapter.

(** ** Async lifecycle: [DEFAULT_ASYNC_STATE] and [addAsyncExtraReducers] *)

Module Lifecycle.

Definition DEFAULT_ASYNC_STATE : props :=
  [("loading", VBool false); ("error", VNull); ("status", VStr "idle")].

(** The three action creators of a thunk, [thunk.pending],
    [thunk.fulfilled] and [thunk.rejected]; a thunk is identified by its
    type prefix. *)
Inductive phase := pending | fulfilled | rejected.

Definition thunk := string.

Definition action_creator : Type := thunk * phase.

(** A case reducer receives the whole action. *)
Definition case_reducer := value -> value -> outcome value.

Definition pending_case : case_reducer := fun state action =>
  s1 <- set_prop state "loading" (VBool true) ;;
  s2 <- set_prop s1 "error" VNull ;;
  set_prop s2 "status" (VStr "pending").

Definition fulfilled_case : case_reducer := fun state action =>
  s1 <- set_prop state "loading" (VBool false) ;;
  s2 <- set_prop s1 "error" VNull ;;
  set_prop s2 "status" (VStr "fulfilled").

(** [a.payload ?? a.error?.message ?? 'Request failed'] *)
Definition failure_reason (action : value) : outcome value :=
  payload <- get_prop action "payload" ;;
  if nullish payload then
    err <- get_prop action "error" ;;
    message <- get_prop_opt err "message" ;;
    Ok (coalesce message (VStr "Request failed"))
  else Ok payload.

Definition rejected_case : case_reducer := fun state action =>
  s1 <- set_prop state "loading" (VBool false) ;;
  reason <- failure_reason action ;;
  s2 <- set_prop s1 "error" reason ;;
  set_prop s2 "status" (VStr "rejected").

(** The cases registered on the builder, in order of registration. *)
Definition addAsyncExtraReducers (asyncThunks : list thunk)
  : list (action_creator * case_reducer) :=
  flat_map (fun t => [((t, pending), pending_case);
                      ((t, fulfilled), fulfilled_case);
                      ((t, rejected), rejected_case)]) asyncThunks.

Definition phase_eqb (p q : phase) : bool :=
  match p, q with
  | pending, pending | fulfilled, fulfilled | rejected, rejected => true
  | _, _ => false
  end.

Definition matches (c d : action_creator) : bool :=
  String.eqb (fst c) (fst d) && phase_eqb (snd c) (snd d).

(** The builder's dispatch: the case registered for the creator that made
    the action runs; an action of no registered creator leaves the state
    as it is. *)
Definition notify (cases : list (action_creator * case_reducer))
  (creator : action_creator) (state action : value) : outcome value :=
  match find (fun c => matches creator (fst c)) cases with
  | Some (_, run) => run state action
  | None => Ok state
  end.

Fixpoint notify_all (cases : list (action_creator * case_reducer))
  (notes : list (action_creator * value)) (state : value) : outcome value :=
  match notes with
  | [] => Ok state
  | (creator, action) :: rest =>
      state' <- notify cases creator state action ;;
      notify_all cases rest state'
  end.

End Lifecycle.

(** ** Assembly: [createArrayReducers], [createEntityReducers],
    [createAutoSlice] *)

Module Factory.

Import Lifecycle.

Definition ARRAY_REDUCERS : list string :=
  ["add"; "remove"; "clear"; "update"; "set"; "addMany"; "removeMany"; "upsert"].

Definition ENTITY_REDUCERS : list string :=
  ["add"; "remove"; "update"; "clear"; "set"; "addMany"; "removeMany"; "upsert";
   "increment"; "toggle"].

Definition isArrayReducer (name : string) : bool :=
  existsb (String.eqb name) ARRAY_REDUCERS.

Definition isEntityReducer (name : string) : bool :=
  existsb (String.eqb name) ENTITY_REDUCERS.

Definition getEmptyEntityState (fresh : ref) : value :=
  VObj fresh [("entities", VObj (S fresh) []); ("ids", VArr (S (S fresh)) [])].

(** [toUpperCase] on one character, for the letters of ASCII. *)
Definition upper (c : ascii) : ascii :=
  let n := nat_of_ascii c in
  if Nat.leb 97 n && Nat.leb n 122 then ascii_of_nat (n - 32) else c.

Definition capitalize (s : string) : string :=
  match s with
  | EmptyString => s
  | String c rest => String (upper c) rest
  end.

Inductive ActionNaming := short | prefixed.

Definition actionKey (name reducerName : string)
  (actionNaming : option ActionNaming) : string :=
  match actionNaming with
  | Some prefixed => name ++ capitalize reducerName
  | _ => reducerName
  end.

(** A [Record<string, reducer>]: [put] is the assignment [map[k] = r]. *)
Definition reducer_map := list (string * reducer).

Fixpoint put (k : string) (r : reducer) (m : reducer_map) : reducer_map :=
  match m with
  | [] => [(k, r)]
  | (k', r') :: rest =>
      if String.eqb k k' then (k', r) :: rest else (k', r') :: put k r rest
  end.

Fixpoint get (k : string) (m : reducer_map) : option reducer :=
  match m with
  | [] => None
  | (k', r) :: rest => if String.eqb k k' then Some r else get k rest
  end.

Definition keys (m : reducer_map) : list string := map fst m.

(** The [switch (reducerName)] of [createArrayReducers]. *)
Definition array_case (reducerName : string) : option reducer :=
  if String.eqb reducerName "add" then Some ArrayAdapter.add
  else if String.eqb reducerName "remove" then Some ArrayAdapter.remove
  else if String.eqb reducerName "clear" then Some ArrayAdapter.clear
  else if String.eqb reducerName "update" then Some ArrayAdapter.update
  else if String.eqb reducerName "set" then Some ArrayAdapter.set
  else if String.eqb reducerName "addMany" then Some ArrayAdapter.addMany
  else if String.eqb reducerName "removeMany" then Some ArrayAdapter.removeMany
  else if String.eqb reducerName "upsert" then Some ArrayAdapter.upsert
  else None.

Definition createArrayReducers (reducers : list string) (name : string)
  (actionNaming : option ActionNaming) : reducer_map :=
  fold_left (fun reducersMap reducerName =>
    if negb (isArrayReducer reducerName) then reducersMap
    else match array_case reducerName with
         | Some r => put (actionKey name reducerName actionNaming) r reducersMap
         | None => reducersMap
         end) reducers [].

(** The [switch (reducerName)] of [createEntityReducers]. *)
Definition entity_case (reducerName : string) : option reducer :=
  if String.eqb reducerName "add" then Some EntityAdapter.add
  else if String.eqb reducerName "remove" then Some EntityAdapter.remove
  else if String.eqb reducerName "update" then Some EntityAdapter.update
  else if String.eqb reducerName "clear" then Some EntityAdapter.clear
  else if String.eqb reducerName "set" then Some EntityAdapter.set
  else if String.eqb reducerName "addMany" then Some EntityAdapter.addMany
  else if String.eqb reducerName "removeMany" then Some EntityAdapter.removeMany
  else if String.eqb reducerName "upsert" then Some EntityAdapter.upsert
  else if String.eqb reducerName "increment" then Some EntityAdapter.increment
  else if String.eqb reducerName "toggle" then Some EntityAdapter.toggle
  else None.

Definition createEntityReducers (reducers : list string) (name : string)
  (actionNaming : option ActionNaming) : reducer_map :=
  fold_left (fun reducersMap reducerName =>
    if negb (isEntityReducer reducerName) then reducersMap
    else match entity_case reducerName with
         | Some r => put (actionKey name reducerName actionNaming) r reducersMap
         | None => reducersMap
         end) reducers [].

(** [merged[actionKey(name, customName, actionNaming)] = fn] for every
    custom reducer. *)
Definition merge_custom (name : string) (actionNaming : option ActionNaming)
  (custom : reducer_map) (merged : reducer_map) : reducer_map :=
  fold_left (fun m entry =>
    put (actionKey name (fst entry) actionNaming) (snd entry) m) custom merged.

(** The wrapper of an array reducer in an async slice: the reducer runs on
    [state.data], which it may have written to in place, and
    [if (result !== undefined) state.data = result]. *)
Definition wrap (r : reducer) : reducer := fun fresh state payload =>
  data <- get_prop state "data" ;;
  result <- r fresh data payload ;;
  st <- set_prop state "data" (draft result) ;;
  st' <- (if negb (strict_equal (returned result) VUndefined)
          then set_prop st "data" (returned result)
          else Ok st) ;;
  Ok (mutated st').

Definition wrappedReducers (merged : reducer_map) : reducer_map :=
  map (fun entry => (fst entry, wrap (snd entry))) merged.

(** Selectors take the slice state and, for [selectById], an id. *)
Definition selector := value -> value -> outcome value.

Definition select_prop (key : string) : selector := fun state _ =>
  get_prop state key.

Definition array_selectAll : selector := fun state _ => Ok state.

Definition array_selectTotal : selector := fun state _ => get_prop state "length".

Definition async_array_selectAll : selector := fun state _ => get_prop state "data".

Definition async_array_selectTotal : selector := fun state _ =>
  data <- get_prop state "data" ;;
  get_prop data "length".

(** [state.entities[key]] in a selector: an inherited method would be
    returned as it is, and is not a value of the universe. *)
Definition select_member (ents : value) (key : string) : outcome value :=
  found <- get_member ents key ;;
  match found with
  | Own v => Ok v
  | Method => Unmodelled
  | Absent => Ok VUndefined
  end.

(** [state.ids.map((id) => state.entities[id]).filter(Boolean)] *)
Definition entity_selectAll (fresh : ref) : selector := fun state _ =>
  ids <- get_prop state "ids" ;;
  match ids with
  | VArr _ items =>
      found <- map_items (fun id =>
                 ents <- get_prop state "entities" ;;
                 key <- computed_key (to_string id) ;;
                 select_member ents key) items ;;
      Ok (VArr fresh (filter truthy found))
  | _ => Throw TypeError
  end.

Definition entity_selectTotal : selector := fun state _ =>
  ids <- get_prop state "ids" ;;
  get_prop ids "length".

Definition entity_selectById : selector := fun state id =>
  ents <- get_prop state "entities" ;;
  key <- computed_key (toId id) ;;
  select_member ents key.

Inductive adapter_kind := array_adapter | entity_adapter.

Record config : Type := {
  name : string;
  adapter : option adapter_kind;
  initialState : value;
  reducers : list string;
  customReducers : option reducer_map;
  actionNaming : option ActionNaming;
  asyncThunks : option (list (string * thunk))
}.

(** The keys of [{ ...slice.actions, ...asyncThunks }]. *)
Definition action_names (m : reducer_map) (thunks : list (string * thunk))
  : list string :=
  (keys m
   ++ filter (fun k => negb (existsb (String.eqb k) (keys m))) (map fst thunks))%list.

(** What [createAutoSlice] hands to [createSlice] and returns: the initial
    state, the case reducers by key, the cases registered through
    [extraReducers], the names under [actions] (one per case reducer, then
    the thunks under their own keys) and the selectors. *)
Record auto_slice : Type := {
  initial : value;
  caseReducers : reducer_map;
  extraReducers : list (action_creator * case_reducer);
  actions : list string;
  selectors : list (string * selector)
}.

Definition lifecycle_selectors : list (string * selector) :=
  [("selectLoading", select_prop "loading");
   ("selectError", select_prop "error");
   ("selectStatus", select_prop "status")].

Definition entity_selectors (fresh : ref) : list (string * selector) :=
  [("selectAll", entity_selectAll fresh);
   ("selectTotal", entity_selectTotal);
   ("selectIds", select_prop "ids");
   ("selectEntities", select_prop "entities");
   ("selectById", entity_selectById)].

Definition with_custom (cfg : config) (built : reducer_map) : reducer_map :=
  match customReducers cfg with
  | Some custom => merge_custom (name cfg) (actionNaming cfg) custom built
  | None => built
  end.

(** [asyncThunks && Object.keys(asyncThunks).length > 0] *)
Definition hasAsync (cfg : config) : bool :=
  match asyncThunks cfg with
  | Some (_ :: _) => true
  | _ => false
  end.

Definition thunks_of (cfg : config) : list (string * thunk) :=
  match asyncThunks cfg with
  | Some ts => ts
  | None => []
  end.

Definition createAutoSlice (fresh : ref) (cfg : config) : auto_slice :=
  match adapter cfg with
  | Some entity_adapter =>
      let mergedEntity :=
        with_custom cfg (createEntityReducers (reducers cfg) (name cfg) (actionNaming cfg)) in
      if hasAsync cfg then
        {| initial := VObj fresh (spread (spread [] (own_props (initialState cfg)))
                                    DEFAULT_ASYNC_STATE);
           caseReducers := mergedEntity;
           extraReducers := addAsyncExtraReducers (map snd (thunks_of cfg));
           actions := action_names mergedEntity (thunks_of cfg);
           selectors := (entity_selectors fresh ++ lifecycle_selectors)%list |}
      else
        {| initial := initialState cfg;
           caseReducers := mergedEntity;
           extraReducers := [];
           actions := keys mergedEntity;
           selectors := entity_selectors fresh |}
  | _ =>
      let mergedArray :=
        with_custom cfg (createArrayReducers (reducers cfg) (name cfg) (actionNaming cfg)) in
      if hasAsync cfg then
        {| initial := VObj fresh (spread [("data", initialState cfg)] DEFAULT_ASYNC_STATE);
           caseReducers := wrappedReducers mergedArray;
           extraReducers := addAsyncExtraReducers (map snd (thunks_of cfg));
           actions := action_names (wrappedReducers mergedArray) (thunks_of cfg);
           selectors := ([("selectAll", async_array_selectAll);
                          ("selectTotal", async_array_selectTotal)]
                         ++ lifecycle_selectors)%list |}
      else
        {| initial := initialState cfg;
           caseReducers := mergedArray;
           extraReducers := [];
           actions := keys mergedArray;
           selectors := [("selectAll", array_selectAll);
                         ("selectTotal", array_selectTotal)] |}
  end.

(** Dispatching the command [key] with [payload]: the case reducer under
    [key] runs and the slice state becomes [next_state]; a key without a
    case reducer leaves the state as it is. *)
Definition dispatch (s : auto_slice) (fresh : ref) (key : string)
  (state payload : value) : outcome value :=
  match get key (caseReducers s) with
  | Some r => red <- r fresh state payload ;; Ok (next_state red)
  | None => Ok state
  end.

End Factory.

(** ** Vocabulary of the specification *)

Module Spec.

Import Lifecycle Factory.

(** The value a property read yields, [undefined] where the read raises. *)
Definition read (v : value) (key : string) : value :=
  match get_prop v key with
  | Ok x => x
  | _ => VUndefined
  end.

(** Neither [null] nor [undefined]. *)
Definition defined (v : value) : Prop := nullish v = false.

(** A safe integer: within [2^53] in magnitude, where every integer is a
    double, is printed in decimal, and the sums that stay within are
    exact. *)
Definition safe_integer (n : Z) : Prop := Z.abs n <= 2 ^ 53.

(** An identifier, of the source's type [string | number]. *)
Definition identifier (id : value) : Prop :=
  match id with
  | VStr _ => True
  | VNum n => safe_integer n
  | _ => False
  end.

(** The string-normalized form of an identifier, in the specification's
    words: a string is its own form, a number is written in decimal. *)
Definition string_form (id : value) : string :=
  match id with
  | VStr s => s
  | VNum n => string_of_Z n
  | _ => ""
  end.

(** An element, or an item of a payload, that bears an identifier: an
    object whose [id] is a string or a number. *)
Definition identified (v : value) : Prop :=
  exists r ps id, v = VObj r ps /\ lookup "id" ps = Some id /\ identifier id.

(** The sum [n + amount] that [increment] stores is a value of the
    universe: a sum of numbers that does not overflow to an infinity, or
    the concatenation of a safe integer and a string. *)
Definition summable (n : Z) (amount : value) : Prop :=
  match amount with
  | VNum a => Z.abs (n + a) < 2 ^ 1023
  | VBool b => Z.abs (n + (if b then 1 else 0)) < 2 ^ 1023
  | VNull => Z.abs n < 2 ^ 1023
  | VUndefined => False
  | _ => safe_integer n
  end.

(** Every value but [NaN] is [===] to itself. *)
Definition self_equal (v : value) : Prop := strict_equal v v = true.

(** A non-null object exposing an [id] property. *)
Definition id_bearing (payload : value) : bool :=
  match payload with
  | VObj _ ps => has_key "id" ps
  | _ => false
  end.

(** [small] is [big] with some elements left out, the others in their
    order. *)
Inductive subsequence : list value -> list value -> Prop :=
| subsequence_nil : subsequence [] []
| subsequence_keep x small big :
    subsequence small big -> subsequence (x :: small) (x :: big)
| subsequence_drop x small big :
    subsequence small big -> subsequence small (x :: big).

(** The vocabulary of a container kind, and the reducer map built for a
    request. *)
Definition recognised (kind : option adapter_kind) (reducerName : string) : bool :=
  match kind with
  | Some entity_adapter => isEntityReducer reducerName
  | _ => isArrayReducer reducerName
  end.

Definition vocabulary_map (kind : option adapter_kind) (requested : list string)
  (name : string) (actionNaming : option ActionNaming) : reducer_map :=
  match kind with
  | Some entity_adapter => createEntityReducers requested name actionNaming
  | _ => createArrayReducers requested name actionNaming
  end.

Definition request (cfg : config) (requested : list string) : config :=
  {| name := name cfg;
     adapter := adapter cfg;
     initialState := initialState cfg;
     reducers := requested;
     customReducers := customReducers cfg;
     actionNaming := actionNaming cfg;
     asyncThunks := asyncThunks cfg |}.

(** The predicate of the normalized-index container: the identifier
    sequence has no duplicates and its members are exactly the keys of the
    entity mapping. *)
Definition keys_match (ents : props) (ids : list value) : Prop :=
  NoDup ids
  /\ forall v, In v ids <-> exists k, v = VStr k /\ has_key k ents = true.

Definition invariant (state : value) : Prop :=
  exists r ps re ents ri ids,
    state = VObj r ps
    /\ lookup "entities" ps = Some (VObj re ents)
    /\ lookup "ids" ps = Some (VArr ri ids)
    /\ keys_match ents ids.

(** A collection state: a sequence without [null] or [undefined]
    elements. *)
Definition collection_state (state : value) : Prop :=
  exists r items, state = VArr r items /\ Forall defined items.

(** A normalized-index state: an object with an [entities] object, whose
    entities are objects, and an [ids] sequence. *)
Definition index_state (state : value) : Prop :=
  exists r ps re ents ri ids,
    state = VObj r ps
    /\ lookup "entities" ps = Some (VObj re ents)
    /\ lookup "ids" ps = Some (VArr ri ids)
    /\ forall key e, lookup key ents = Some e -> exists er eps, e = VObj er eps.

(** An entity that the entity adapter can store: neither [null] nor
    [undefined], and its key is not [__proto__]. *)
Definition storable (entity : value) : Prop :=
  defined entity /\ toId (read entity "id") <> "__proto__".


(** The shape of a normalized-index state. *)
Definition shape (state : value) (ents : props) (ids : list value) : Prop :=
  exists r ps re ri,
    state = VObj r ps
    /\ lookup "entities" ps = Some (VObj re ents)
    /\ lookup "ids" ps = Some (VArr ri ids).

(** The body of the loop of the entity adapter's [add], [addMany] and
    [upsert], and of the loop of [remove] and [removeMany]. *)
Definition upsert_turn (st entity : value) : outcome value :=
  entity_id <- get_prop entity "id" ;;
  id <- computed_key (toId entity_id) ;;
  st1 <- modify_prop st "entities" (fun ents => set_prop ents id entity) ;;
  ids <- get_prop st1 "ids" ;;
  known <- array_includes ids (VStr id) ;;
  if known then Ok st1
  else modify_prop st1 "ids" (fun ids => array_push ids [VStr id]).

Definition delete_turn (st : value) (id : string) : outcome value :=
  modify_prop st "entities" (fun ents => delete_prop ents id).

(** The entity that a state holds under a key. *)
Definition entity_at (state : value) (key : string) : option value :=
  match read state "entities" with
  | VObj _ ents => lookup key ents
  | _ => None
  end.

(** The payload's id names no member that an object inherits. *)
Definition names_own (payload : value) : Prop :=
  ~ In (toId (read payload "id")) inherited_names.

(** Where the payload of [increment] finds a number, the sum is a value of
    the universe. *)
Definition sums_modelled (state payload : value) : Prop :=
  forall er eps n,
    entity_at state (toId (read payload "id")) = Some (VObj er eps) ->
    lookup (to_string (default_to (read payload "field") (VStr "value"))) eps
      = Some (VNum n) ->
    summable n (default_to (read payload "amount") (VNum 1)).

(** Payloads on which the entity reducer of a name is shown to complete. *)
Definition runs (reducerName : string) (state payload : value) : Prop :=
  if existsb (String.eqb reducerName) ["remove"; "removeMany"; "clear"; "set"]
  then True
  else if existsb (String.eqb reducerName) ["add"; "upsert"]
  then Forall storable (one_or_many payload)
  else if String.eqb reducerName "update" then storable payload
  else if String.eqb reducerName "addMany"
  then nullish payload = true
       \/ (isArray payload = true /\ Forall storable (one_or_many payload))
  else if String.eqb reducerName "toggle"
  then index_state state /\ names_own payload
  else index_state state /\ names_own payload /\ sums_modelled state payload.

(** The case reducer registered for a phase. *)
Definition case_of (p : phase) : case_reducer :=
  match p with
  | pending => pending_case
  | fulfilled => fulfilled_case
  | rejected => rejected_case
  end.

(** The failure reason in the specification's words: the explicit
    rejection payload if present, else the failure object's message, else
    ["Request failed"]. *)
Definition rejection_reason (action : value) : value :=
  if negb (nullish (read action "payload")) then read action "payload"
  else if negb (nullish (read action "error"))
          && negb (nullish (read (read action "error") "message"))
       then read (read action "error") "message"
       else VStr "Request failed".

(** The lifecycle fields (loading, error, status) that a notification
    leaves. *)
Definition lifecycle_fields (p : phase) (action : value) : value * value * value :=
  match p with
  | pending => (VBool true, VNull, VStr "pending")
  | fulfilled => (VBool false, VNull, VStr "fulfilled")
  | rejected => (VBool false, rejection_reason action, VStr "rejected")
  end.

Definition lifecycle_of (state : value) : value * value * value :=
  (read state "loading", read state "error", read state "status").

(** A notification whose action is an object, as every dispatched action
    is. *)
Definition object_action (note : action_creator * value) : Prop :=
  exists ra aps, snd note = VObj ra aps.

Fixpoint selector_named (key : string) (l : list (string * selector))
  : option selector :=
  match l with
  | [] => None
  | (k, f) :: rest => if String.eqb key k then Some f else selector_named key rest
  end.

End Spec.

(** ** Running reducers in sequence *)

Module Run.

Import Factory Spec.

(** One dispatch: the reducer runs, allocating at [fresh], and the slice
    state becomes [next_state]. *)
Definition step (op : reducer) (fresh : ref) (state payload : value)
  : outcome value :=
  red <- op fresh state payload ;;
  Ok (next_state red).

(** A run of dispatches of one reducer, each with the reference its
    allocations get and its payload. *)
Fixpoint steps (op : reducer) (calls : list (ref * value)) (state : value)
  : outcome value :=
  match calls with
  | [] => Ok state
  | (fresh, payload) :: rest =>
      state' <- step op fresh state payload ;;
      steps op rest state'
  end.

(** The test [isIds] of the array adapter's [removeMany], on the payload:
    the first item is an object with an [id] that is a string or a
    number. *)
Definition ids_form (payload : value) : bool :=
  match one_or_many payload with
  | VObj _ ps :: _ =>
      match lookup "id" ps with
      | Some (VStr _) | Some (VNum _) => true
      | _ => false
      end
  | _ => false
  end.

(** The identifier that the array adapter's [upsert] looks for, [e?.id]. *)
Definition optional_id (entity : value) : value :=
  if nullish entity then VUndefined else read entity "id".

(** A configuration with other async thunks. *)
Definition with_async (cfg : config) (thunks : option (list (string * Lifecycle.thunk)))
  : config :=
  {| name := name cfg;
     adapter := adapter cfg;
     initialState := initialState cfg;
     reducers := reducers cfg;
     customReducers := customReducers cfg;
     actionNaming := actionNaming cfg;
     asyncThunks := thunks |}.

(** The case of the switch for a name, in the adapter of a kind. *)
Definition case_of_kind (kind : option adapter_kind) (reducerName : string)
  : option reducer :=
  match kind with
  | Some entity_adapter => entity_case reducerName
  | _ => array_case reducerName
  end.

(** [st'] is the object [st] after writes to, at most, the properties
    named in [owned]: every other property is as it was. *)
Definition keeps_others (owned : list string) (st st' : value) : Prop :=
  exists r ps ps',
    st = VObj r ps /\ st' = VObj r ps'
    /\ forall k, ~ In k owned -> lookup k ps' = lookup k ps.

End Run.

Import Lifecycle Factory Spec Run.

(** * Properties *)

Open Scope list_scope.

(** ** Basic facts about own properties and the array helpers *)

Section PropsFacts.

Lemma lookup_assign_same key v ps : lookup key (assign key v ps) = Some v.
Proof.
  induction ps as [|[k w] rest IH]; simpl.
  - now rewrite String.eqb_refl.
  - destruct (String.eqb key k) eqn:E; simpl; rewrite E; auto.
Qed.

Lemma lookup_assign_other key key' v ps :
  key <> key' -> lookup key' (assign key v ps) = lookup key' ps.
Proof.
  intros Hne. induction ps as [|[k w] rest IH]; simpl.
  - destruct (String.eqb_spec key' key); congruence.
  - destruct (String.eqb_spec key k) as [->|Hk]; simpl.
    + destruct (String.eqb_spec key' k); congruence.
    + now rewrite IH.
Qed.

Lemma assign_assign key v w ps :
  assign key w (assign key v ps) = assign key w ps.
Proof.
  induction ps as [|[k u] rest IH]; simpl.
  - now rewrite String.eqb_refl.
  - destruct (String.eqb key k) eqn:E; simpl; rewrite E; congruence.
Qed.

Lemma has_key_assign key key' v ps :
  has_key key' (assign key v ps) = String.eqb key' key || has_key key' ps.
Proof.
  unfold has_key. destruct (String.eqb_spec key' key) as [->|Hne].
  - now rewrite lookup_assign_same.
  - rewrite lookup_assign_other by congruence. reflexivity.
Qed.

Lemma lookup_remove_key key key' ps :
  lookup key' (remove_key key ps) =
  if String.eqb key key' then None else lookup key' ps.
Proof.
  unfold remove_key. induction ps as [|[k w] rest IH]; simpl.
  - now destruct (String.eqb key key').
  - destruct (String.eqb_spec key k) as [->|Hk]; simpl.
    + rewrite IH. destruct (String.eqb_spec k key') as [->|Hk'].
      * reflexivity.
      * destruct (String.eqb_spec key' k); congruence.
    + rewrite IH. destruct (String.eqb_spec key key') as [->|Hk'].
      * destruct (String.eqb_spec key' k); congruence.
      * reflexivity.
Qed.

Lemma lookup_map_override key (f : string -> value -> value) ps :
  lookup key (map (fun kv => (fst kv, f (fst kv) (snd kv))) ps) =
  option_map (f key) (lookup key ps).
Proof.
  induction ps as [|[k w] rest IH]; simpl; auto.
  destruct (String.eqb_spec key k) as [->|Hk]; auto.
Qed.

Lemma lookup_app key ps qs :
  lookup key (ps ++ qs) =
  match lookup key ps with
  | Some v => Some v
  | None => lookup key qs
  end.
Proof.
  induction ps as [|[k w] rest IH]; simpl; auto.
  destruct (String.eqb key k); auto.
Qed.

Lemma lookup_filter_fresh key base ps :
  lookup key (filter (fun kv => negb (has_key (fst kv) base)) ps) =
  if has_key key base then None else lookup key ps.
Proof.
  induction ps as [|[k w] rest IH]; simpl.
  - now destruct (has_key key base).
  - destruct (has_key k base) eqn:Hk; simpl.
    + rewrite IH. destruct (String.eqb_spec key k) as [->|Hne]; auto.
      now rewrite Hk.
    + rewrite IH. destruct (String.eqb_spec key k) as [->|Hne]; auto.
      now rewrite Hk.
Qed.

(** A property of the spread object is the one of the later source when it
    has it, else the one of the earlier. *)
Lemma lookup_spread key base ps :
  lookup key (spread base ps) =
  match lookup key ps with
  | Some v => Some v
  | None => lookup key base
  end.
Proof.
  unfold spread. rewrite lookup_app.
  rewrite (lookup_map_override key
             (fun k w => match lookup k ps with Some v => v | None => w end)).
  rewrite lookup_filter_fresh. unfold has_key.
  destruct (lookup key base); simpl; destruct (lookup key ps); reflexivity.
Qed.

Lemma spread_empty ps : spread [] ps = ps.
Proof.
  unfold spread. simpl. induction ps as [|kv rest IH]; simpl; congruence.
Qed.

Lemma get_prop_obj r ps key :
  get_prop (VObj r ps) key =
  Ok (match lookup key ps with Some v => v | None => VUndefined end).
Proof. simpl. now destruct (lookup key ps). Qed.

Lemma get_prop_defined v key :
  defined v -> get_prop v key = Ok (read v key).
Proof.
  unfold defined, read. destruct v; simpl; try discriminate; intros _; auto.
  - destruct (String.eqb key "length"); auto. now destruct (index_of_key key).
  - now destruct (lookup key props0).
  - destruct (String.eqb key "length"); auto. now destruct (index_of_key key).
Qed.

Lemma read_obj r ps key :
  read (VObj r ps) key = match lookup key ps with Some v => v | None => VUndefined end.
Proof. unfold read. now rewrite get_prop_obj. Qed.

Lemma filter_items_pure keep f items :
  (forall x, In x items -> keep x = Ok (f x)) ->
  filter_items keep items = Ok (filter f items).
Proof.
  induction items as [|x rest IH]; intros H; simpl; auto.
  rewrite (H x) by now left. simpl.
  rewrite IH by (intros; apply H; now right). simpl.
  now destruct (f x).
Qed.

Lemma find_index_none test items i :
  (forall x, In x items -> test x = Ok false) ->
  find_index_from test items i = Ok (-1).
Proof.
  revert i. induction items as [|x rest IH]; intros i H; simpl; auto.
  rewrite (H x) by now left. simpl. apply IH. intros; apply H; now right.
Qed.

Lemma find_index_first test pre el post i :
  (forall x, In x pre -> test x = Ok false) ->
  test el = Ok true ->
  find_index_from test (pre ++ el :: post) i = Ok (i + Z.of_nat (List.length pre)).
Proof.
  revert i. induction pre as [|x rest IH]; intros i Hpre Hel; simpl.
  - rewrite Hel. simpl. f_equal. lia.
  - rewrite (Hpre x) by now left. simpl.
    rewrite IH by (auto; intros; apply Hpre; now right).
    f_equal. lia.
Qed.

Lemma nth_middle_value (pre : list value) el post :
  nth (List.length pre) (pre ++ el :: post) VUndefined = el.
Proof. induction pre; simpl; auto. Qed.

Lemma replace_nth_middle pre el post v :
  replace_nth (List.length pre) v (pre ++ el :: post) = (pre ++ v :: post)%list.
Proof. induction pre; simpl; congruence. Qed.

Lemma replace_nth_length i v items :
  List.length (replace_nth i v items) = List.length items.
Proof.
  revert i. induction items as [|x rest IH]; intros [|j]; simpl; auto.
Qed.

Lemma subsequence_filter f items : subsequence (filter f items) items.
Proof.
  induction items as [|x rest IH]; simpl.
  - constructor.
  - destruct (f x); now constructor.
Qed.

End PropsFacts.

(** ** The array adapter *)

Lemma is_object_obj r ps : is_object (VObj r ps) = true.
Proof. reflexivity. Qed.

Lemma js_in_obj key r ps : js_in key (VObj r ps) = Ok (has_key key ps).
Proof. reflexivity. Qed.

Lemma get_prop_length r items :
  get_prop (VArr r items) "length" = Ok (VNum (Z.of_nat (List.length items))).
Proof. reflexivity. Qed.

Section ArrayUpdateFacts.

Variables (fresh r pr : ref) (items : list value) (pps : props).
Let payload := VObj pr pps.
Let state := VArr r items.

Lemma id_test_defined x :
  defined x ->
  (item_id <- get_prop x "id" ;;
   payload_id <- get_prop payload "id" ;;
   Ok (strict_equal item_id payload_id))
  = Ok (strict_equal (read x "id") (read payload "id")).
Proof.
  intros Hx. rewrite (get_prop_defined x) by auto. cbn [bind].
  rewrite (get_prop_defined payload) by reflexivity. reflexivity.
Qed.

Lemma update_at_form i :
  lookup "at" pps = Some (VNum i) ->
  ArrayAdapter.update fresh state payload =
  Ok (mutated (VArr r (if (0 <=? i) && (i <? Z.of_nat (List.length items))
                       then replace_nth (Z.to_nat i) (read payload "value") items
                       else items))).
Proof.
  intros Hat. unfold ArrayAdapter.update, payload, state.
  rewrite is_object_obj, js_in_obj. cbn [bind].
  unfold has_key at 1. rewrite get_prop_obj, Hat. cbn [bind].
  destruct (0 <=? i) eqn:H0; cbn [andb].
  - rewrite get_prop_length. cbn [bind number_lt].
    destruct (i <? Z.of_nat (List.length items)) eqn:H1.
    + rewrite get_prop_obj. cbn [bind set_index]. rewrite H0, H1. cbn [andb bind].
      rewrite read_obj. reflexivity.
    + reflexivity.
  - reflexivity.
Qed.

Hypothesis not_at_form : forall i, lookup "at" pps <> Some (VNum i).
Hypothesis has_id : has_key "id" pps = true.
Hypothesis has_changes : has_key "changes" pps = true.

Lemma update_id_form_search :
  ArrayAdapter.update fresh state payload =
  (idx <- array_findIndex state (fun item =>
            item_id <- get_prop item "id" ;;
            payload_id <- get_prop payload "id" ;;
            Ok (strict_equal item_id payload_id)) ;;
   if 0 <=? idx then
     el <- get_index state idx ;;
     if is_object el then
       changes <- get_prop payload "changes" ;;
       st <- set_index state idx
               (VObj fresh (spread (spread [] (own_props el)) (own_props changes))) ;;
       Ok (mutated st)
     else Ok (mutated state)
   else Ok (mutated state)).
Proof.
  unfold ArrayAdapter.update, payload, state.
  rewrite is_object_obj, !js_in_obj, has_id, has_changes, get_prop_obj.
  cbn [bind andb]. unfold has_key.
  destruct (lookup "at" pps) as [v|] eqn:Hat; [|reflexivity].
  destruct v; try reflexivity. exfalso. now apply (not_at_form n).
Qed.

Lemma update_id_form_match pre el post :
  items = pre ++ el :: post ->
  Forall defined (pre ++ [el]) ->
  (forall x, In x pre -> strict_equal (read x "id") (read payload "id") = false) ->
  strict_equal (read el "id") (read payload "id") = true ->
  ArrayAdapter.update fresh state payload =
  Ok (mutated (VArr r
        (if is_object el
         then pre ++ VObj fresh (spread (spread [] (own_props el))
                                   (own_props (read payload "changes"))) :: post
         else items))).
Proof.
  intros Hitems Hdef Hpre Hel. rewrite update_id_form_search.
  rewrite Forall_app in Hdef. destruct Hdef as [Hdpre Hdel].
  rewrite Forall_forall in Hdpre. inversion Hdel as [|? ? Hdel' _]; subst x l.
  unfold state, array_findIndex. rewrite Hitems.
  rewrite (find_index_first _ pre el post 0).
  - cbn [bind]. replace (0 <=? 0 + Z.of_nat (List.length pre)) with true
      by (symmetry; apply Z.leb_le; lia).
    cbn [get_index set_index].
    replace ((0 <=? 0 + Z.of_nat (List.length pre))
             && (0 + Z.of_nat (List.length pre) <? Z.of_nat (List.length (pre ++ el :: post))))
      with true.
    2:{ symmetry. apply andb_true_iff. split; [apply Z.leb_le; lia|].
        apply Z.ltb_lt. rewrite length_app. simpl. lia. }
    replace (Z.to_nat (0 + Z.of_nat (List.length pre))) with (List.length pre) by lia.
    rewrite nth_middle_value. cbn [bind].
    destruct (is_object el); [|reflexivity].
    rewrite (get_prop_defined payload) by reflexivity. cbn [bind].
    rewrite replace_nth_middle. reflexivity.
  - intros x Hx. rewrite id_test_defined by auto. now rewrite Hpre.
  - rewrite id_test_defined by auto. now rewrite Hel.
Qed.

Lemma update_id_form_no_match :
  Forall defined items ->
  (forall x, In x items -> strict_equal (read x "id") (read payload "id") = false) ->
  ArrayAdapter.update fresh state payload = Ok (mutated state).
Proof.
  intros Hdef Hno. rewrite update_id_form_search.
  rewrite Forall_forall in Hdef.
  unfold state, array_findIndex. rewrite find_index_none.
  - reflexivity.
  - intros x Hx. rewrite id_test_defined by auto. now rewrite Hno.
Qed.

End ArrayUpdateFacts.


Lemma nth_replace_nth i j v items :
  nth j (replace_nth i v items) VUndefined =
  if Nat.eqb j i && Nat.ltb i (List.length items) then v else nth j items VUndefined.
Proof.
  revert i j. induction items as [|x rest IH]; intros [|i] [|j]; simpl; auto.
  all: try now rewrite andb_false_r.
Qed.

Lemma guard_id_bearing payload :
  (if is_object payload then js_in "id" payload else Ok false) = Ok (id_bearing payload).
Proof. destruct payload; reflexivity. Qed.

Lemma remove_filter fresh r items payload :
  (id_bearing payload = true -> Forall defined items) ->
  ArrayAdapter.remove fresh (VArr r items) payload =
  Ok (replaced (VArr r items)
        (VArr fresh (filter (fun item =>
           negb (if id_bearing payload
                 then strict_equal (read item "id") (read payload "id")
                 else strict_equal item payload)) items))).
Proof.
  intros Hdef. unfold ArrayAdapter.remove. rewrite guard_id_bearing. cbn [bind].
  destruct (id_bearing payload) eqn:Hb.
  - assert (Hp : defined payload) by (destruct payload; try discriminate; reflexivity).
    unfold array_filter.
    rewrite (filter_items_pure _
               (fun item => negb (strict_equal (read item "id") (read payload "id")))).
    + reflexivity.
    + intros x Hx. specialize (Hdef eq_refl). rewrite Forall_forall in Hdef.
      rewrite (get_prop_defined x) by auto. cbn [bind].
      rewrite (get_prop_defined payload) by auto. reflexivity.
  - unfold array_filter.
    rewrite (filter_items_pure _ (fun item => negb (strict_equal item payload)))
      by reflexivity.
    reflexivity.
Qed.

(** Claim C3, as amended. Collection [remove] on any state for a payload
    that is not id-bearing, and on a state without [null] or [undefined]
    elements for an id-bearing payload: the returned sequence holds exactly
    the elements that are not [gone], in their order, where an element is
    gone when its [id] is strictly equal to the payload's [id] (id-bearing
    payload) or when it is strictly equal to the payload (any other
    payload). *)
Theorem array_remove_spec (fresh r : ref) (items : list value) (payload : value) :
  (id_bearing payload = true -> Forall defined items) ->
  let gone := fun item =>
    if id_bearing payload
    then strict_equal (read item "id") (read payload "id")
    else strict_equal item payload in
  let kept := filter (fun item => negb (gone item)) items in
  ArrayAdapter.remove fresh (VArr r items) payload
    = Ok (replaced (VArr r items) (VArr fresh kept))
  /\ (forall x, In x kept <-> In x items /\ gone x = false)
  /\ subsequence kept items.
Proof.
  intros Hdef gone kept. split; [|split].
  - now apply remove_filter.
  - intros x. subst kept. rewrite filter_In, negb_true_iff. reflexivity.
  - apply subsequence_filter.
Qed.

Lemma array_remove_spec_witness :
  let a := VObj 1%nat [("id", VNum 1); ("tag", VStr "x")] in
  let b := VObj 2%nat [("id", VNum 2); ("tag", VStr "x")] in
  let c := VObj 3%nat [("id", VNum 1); ("tag", VStr "y")] in
  ArrayAdapter.remove 9%nat (VArr 0%nat [a; b; c]) (VObj 4%nat [("id", VNum 1)])
  = Ok (replaced (VArr 0%nat [a; b; c]) (VArr 9%nat [b])).
Proof.
  intros a b c.
  destruct (array_remove_spec 9%nat 0%nat [a; b; c] (VObj 4%nat [("id", VNum 1)]))
    as [Hrun _].
  - intros _. repeat constructor.
  - exact Hrun.
Defined.

(** Claim C3 as stated fails on a state that holds [null]: with an
    id-bearing payload the filter reads [item.id] of every element and
    raises. *)
Lemma array_remove_null_element_raises :
  ArrayAdapter.remove 9%nat (VArr 0%nat [VNull; VObj 1%nat [("id", VNum 1)]])
    (VObj 2%nat [("id", VNum 1)])
  = Throw TypeError
  /\ ~ exists red,
        ArrayAdapter.remove 9%nat (VArr 0%nat [VNull; VObj 1%nat [("id", VNum 1)]])
          (VObj 2%nat [("id", VNum 1)]) = Ok red.
Proof. split; [reflexivity | intros [red H]; discriminate H]. Qed.

(** Claim C6, as amended. Collection [update] on a payload object.
    With a numeric [at]: the element at index [at] becomes [payload.value]
    when [0 <= at < length], and nothing changes otherwise; the length and
    every other element stay. Without a numeric [at] and with [id] and
    [changes]: when [el] is the first element whose [id] is strictly equal
    to the payload's, and neither it nor an element before it is [null] or
    [undefined], an object [el] is replaced in place by the shallow merge of
    [changes] onto it and a non-object [el] leaves the state as it is; when
    no element matches, and no element is [null] or [undefined], the state
    is as it was. *)
Theorem array_update_spec (fresh r pr : ref) (items : list value) (pps : props) :
  let state := VArr r items in
  let payload := VObj pr pps in
  let same_id := fun item => strict_equal (read item "id") (read payload "id") in
  (forall i, lookup "at" pps = Some (VNum i) ->
     exists items',
       ArrayAdapter.update fresh state payload = Ok (mutated (VArr r items'))
       /\ List.length items' = List.length items
       /\ (forall j, nth j items' VUndefined =
                     if (0 <=? i) && (i <? Z.of_nat (List.length items))
                        && Nat.eqb j (Z.to_nat i)
                     then read payload "value"
                     else nth j items VUndefined))
  /\ ((forall i, lookup "at" pps <> Some (VNum i)) ->
      has_key "id" pps = true ->
      has_key "changes" pps = true ->
      (forall pre el post,
         items = pre ++ el :: post ->
         Forall defined (pre ++ [el]) ->
         (forall x, In x pre -> same_id x = false) ->
         same_id el = true ->
         exists merged,
           (forall key, lookup key merged =
                        match lookup key (own_props (read payload "changes")) with
                        | Some v => Some v
                        | None => lookup key (own_props el)
                        end)
           /\ ArrayAdapter.update fresh state payload =
              Ok (mutated (VArr r (if is_object el
                                   then pre ++ VObj fresh merged :: post
                                   else items))))
      /\ (Forall defined items ->
          (forall x, In x items -> same_id x = false) ->
          ArrayAdapter.update fresh state payload = Ok (mutated state))).
Proof.
  intros state payload same_id. split.
  - intros i Hat. eexists. split; [apply update_at_form; exact Hat|].
    destruct ((0 <=? i) && (i <? Z.of_nat (List.length items))) eqn:Hb.
    + split; [apply replace_nth_length|]. intros j. rewrite nth_replace_nth.
      apply andb_true_iff in Hb. destruct Hb as [H0 H1].
      apply Z.leb_le in H0. apply Z.ltb_lt in H1.
      replace (Nat.ltb (Z.to_nat i) (List.length items)) with true
        by (symmetry; apply Nat.ltb_lt; lia).
      rewrite andb_true_r. reflexivity.
    + split; reflexivity.
  - intros Hnat Hid Hch. split.
    + intros pre el post Hitems Hdef Hpre Hel.
      exists (spread (spread [] (own_props el)) (own_props (read payload "changes"))).
      split.
      * intros key. rewrite lookup_spread, spread_empty. reflexivity.
      * now apply update_id_form_match.
    + intros Hdef Hno. now apply update_id_form_no_match.
Qed.

Lemma array_update_spec_witness :
  ArrayAdapter.update 9%nat
    (VArr 0%nat [VNum 7; VObj 1%nat [("id", VNum 1); ("n", VStr "a")]])
    (VObj 2%nat [("id", VNum 1); ("changes", VObj 3%nat [("n", VStr "b")])])
  = Ok (mutated (VArr 0%nat [VNum 7; VObj 9%nat [("id", VNum 1); ("n", VStr "b")]])).
Proof.
  destruct (array_update_spec 9%nat 0%nat 2%nat
              [VNum 7; VObj 1%nat [("id", VNum 1); ("n", VStr "a")]]
              [("id", VNum 1); ("changes", VObj 3%nat [("n", VStr "b")])])
    as [_ Hid].
  destruct Hid as [Hmatch _].
  - intros i; discriminate.
  - reflexivity.
  - reflexivity.
  - destruct (Hmatch [VNum 7] (VObj 1%nat [("id", VNum 1); ("n", VStr "a")]) [])
      as [merged [_ Hrun]].
    + reflexivity.
    + repeat constructor.
    + intros x [<-|[]]. reflexivity.
    + reflexivity.
    + reflexivity.
Defined.

(** Claim C6 as stated fails: the search for the matching element reads
    [item.id] of every element up to the match, and raises on a [null]
    element that stands before it. *)
Lemma array_update_null_element_raises :
  ArrayAdapter.update 9%nat
    (VArr 0%nat [VNull; VObj 1%nat [("id", VNum 1)]])
    (VObj 2%nat [("id", VNum 1); ("changes", VObj 3%nat [("n", VStr "b")])])
  = Throw TypeError
  /\ ~ exists red,
        ArrayAdapter.update 9%nat
          (VArr 0%nat [VNull; VObj 1%nat [("id", VNum 1)]])
          (VObj 2%nat [("id", VNum 1); ("changes", VObj 3%nat [("n", VStr "b")])])
        = Ok red.
Proof. split; [reflexivity | intros [red H]; discriminate H]. Qed.


(** ** The async lifecycle *)

Section LifecycleFacts.

Lemma phase_eqb_eq p q : phase_eqb p q = true <-> p = q.
Proof. destruct p, q; simpl; split; congruence. Qed.

Lemma find_case_registered (ts : list thunk) c entry :
  find (fun e => matches c (fst e)) (addAsyncExtraReducers ts) = Some entry ->
  snd entry = case_of (snd c).
Proof.
  destruct c as [t p]. unfold addAsyncExtraReducers.
  induction ts as [|t' rest IH]; simpl; [discriminate|].
  unfold matches; simpl.
  destruct (String.eqb t t'); simpl.
  - destruct p; simpl; intros H; inversion H; reflexivity.
  - exact IH.
Qed.

Lemma find_case_some (ts : list thunk) t p :
  In t ts ->
  exists entry,
    find (fun e => matches (t, p) (fst e)) (addAsyncExtraReducers ts) = Some entry.
Proof.
  unfold addAsyncExtraReducers.
  induction ts as [|t' rest IH]; simpl; [tauto|].
  intros [->|Hin]; unfold matches; simpl.
  - rewrite String.eqb_refl. destruct p; simpl; eauto.
  - destruct (String.eqb t t'); simpl.
    + destruct p; simpl; eauto.
    + now apply IH.
Qed.

Lemma notify_registered ts t p state action :
  In t ts ->
  notify (addAsyncExtraReducers ts) (t, p) state action = case_of p state action.
Proof.
  intros Hin. unfold notify.
  destruct (find_case_some ts t p Hin) as [[c run] Hfind].
  rewrite Hfind. apply find_case_registered in Hfind. simpl in Hfind.
  now rewrite Hfind.
Qed.

Lemma failure_reason_object ra aps :
  failure_reason (VObj ra aps) = Ok (rejection_reason (VObj ra aps)).
Proof.
  unfold failure_reason, rejection_reason.
  rewrite !get_prop_obj, !read_obj. cbn [bind].
  destruct (nullish match lookup "payload" aps with Some v => v | None => VUndefined end);
    [|reflexivity].
  cbn [negb bind]. unfold get_prop_opt.
  destruct (nullish match lookup "error" aps with Some v => v | None => VUndefined end) eqn:He.
  - reflexivity.
  - cbn [negb andb bind]. rewrite get_prop_defined by exact He. cbn [bind].
    unfold coalesce. now destruct (nullish (read _ "message")).
Qed.

(** A case reducer on a state object writes the three lifecycle fields and
    nothing else. *)
Lemma case_of_object p r ps ra aps :
  exists ps',
    case_of p (VObj r ps) (VObj ra aps) = Ok (VObj r ps')
    /\ lifecycle_of (VObj r ps') = lifecycle_fields p (VObj ra aps)
    /\ (forall key, key <> "loading" -> key <> "error" -> key <> "status" ->
                    lookup key ps' = lookup key ps).
Proof.
  unfold lifecycle_of.
  destruct p; cbn [case_of pending_case fulfilled_case rejected_case set_prop bind].
  1,2: eexists; split; [reflexivity|]; split;
       [ rewrite !read_obj;
         repeat first [ rewrite lookup_assign_same
                      | rewrite lookup_assign_other by discriminate ];
         reflexivity
       | intros key H1 H2 H3;
         rewrite !lookup_assign_other by congruence; reflexivity ].
  rewrite failure_reason_object. cbn [bind set_prop].
  eexists; split; [reflexivity|]; split.
  - rewrite !read_obj.
    repeat first [ rewrite lookup_assign_same
                 | rewrite lookup_assign_other by discriminate ].
    reflexivity.
  - intros key H1 H2 H3. rewrite !lookup_assign_other by congruence. reflexivity.
Qed.

Lemma notify_object ts c r ps ra aps :
  exists ps', notify (addAsyncExtraReducers ts) c (VObj r ps) (VObj ra aps) = Ok (VObj r ps').
Proof.
  unfold notify.
  destruct (find _ _) as [[c' run]|] eqn:Hfind; [|eauto].
  apply find_case_registered in Hfind. simpl in Hfind. subst run.
  destruct (case_of_object (snd c) r ps ra aps) as (ps' & Hrun & _). eauto.
Qed.

Lemma notify_all_object ts notes r ps :
  Forall object_action notes ->
  exists ps', notify_all (addAsyncExtraReducers ts) notes (VObj r ps) = Ok (VObj r ps').
Proof.
  revert ps. induction notes as [|[c a] rest IH]; intros ps Hall; simpl; [eauto|].
  inversion Hall as [|? ? [ra [aps Ha]] Hrest]; subst. simpl in Ha. subst a.
  destruct (notify_object ts c r ps ra aps) as [ps1 H1]. rewrite H1. cbn [bind].
  now apply IH.
Qed.

Lemma notify_all_app cases notes notes' state :
  notify_all cases (notes ++ notes') state =
  (state' <- notify_all cases notes state ;; notify_all cases notes' state').
Proof.
  revert state. induction notes as [|[c a] rest IH]; intros state; simpl; auto.
  destruct (notify cases c state a); simpl; auto.
Qed.

Lemma extraReducers_async fresh cfg :
  hasAsync cfg = true ->
  extraReducers (createAutoSlice fresh cfg)
  = addAsyncExtraReducers (map snd (thunks_of cfg)).
Proof.
  intros H. unfold createAutoSlice. rewrite H.
  destruct (adapter cfg) as [[]|]; reflexivity.
Qed.

Lemma initial_async fresh cfg :
  hasAsync cfg = true ->
  lifecycle_of (initial (createAutoSlice fresh cfg)) = (VBool false, VNull, VStr "idle").
Proof.
  intros H. unfold createAutoSlice, lifecycle_of. rewrite H.
  destruct (adapter cfg) as [[]|]; cbn [initial]; rewrite !read_obj, !lookup_spread;
    reflexivity.
Qed.

End LifecycleFacts.

(** Claim C4. With async thunks configured, for either adapter: the
    initial state has [loading = false], [error = null], [status = "idle"];
    a notification of phase [p] from any registered thunk [t], on a state
    object, leaves the lifecycle fields [lifecycle_fields p action] (started:
    true, null, "pending"; succeeded: false, null, "fulfilled"; failed:
    false, the rejection payload if present, else the failure object's
    message, else "Request failed", and "rejected") and no other property
    changed; and after any run of earlier notifications the fields are
    those of the last one. *)
Theorem lifecycle_spec (fresh : ref) (cfg : config) (t : thunk) (p : phase)
  (r : ref) (ps : props) (ra : ref) (aps : props)
  (earlier : list (action_creator * value)) :
  hasAsync cfg = true ->
  In t (map snd (thunks_of cfg)) ->
  Forall object_action earlier ->
  let s := createAutoSlice fresh cfg in
  let state := VObj r ps in
  let action := VObj ra aps in
  lifecycle_of (initial s) = (VBool false, VNull, VStr "idle")
  /\ (exists ps',
        notify (extraReducers s) (t, p) state action = Ok (VObj r ps')
        /\ lifecycle_of (VObj r ps') = lifecycle_fields p action
        /\ (forall key, key <> "loading" -> key <> "error" -> key <> "status" ->
                        lookup key ps' = lookup key ps))
  /\ (exists ps',
        notify_all (extraReducers s) (earlier ++ [((t, p), action)]) state
          = Ok (VObj r ps')
        /\ lifecycle_of (VObj r ps') = lifecycle_fields p action).
Proof.
  intros Hasync Hin Hearlier s state action. subst s.
  rewrite extraReducers_async by exact Hasync.
  split; [now apply initial_async|]. split.
  - rewrite notify_registered by exact Hin. apply case_of_object.
  - rewrite notify_all_app.
    destruct (notify_all_object (map snd (thunks_of cfg)) earlier r ps Hearlier)
      as [ps1 H1].
    unfold state. rewrite H1. cbn [bind notify_all].
    rewrite notify_registered by exact Hin.
    destruct (case_of_object p r ps1 ra aps) as (ps' & Hrun & Hfields & _).
    unfold action. rewrite Hrun. cbn [bind]. eauto.
Qed.

Lemma lifecycle_spec_witness :
  let cfg := {| name := "users"; adapter := Some entity_adapter;
                initialState := getEmptyEntityState 0%nat;
                reducers := ["add"]; customReducers := None; actionNaming := None;
                asyncThunks := Some [("fetchUsers", "users/fetch")] |} in
  let s := createAutoSlice 5%nat cfg in
  let failure := VObj 7%nat [("error", VObj 8%nat [("message", VStr "boom")])] in
  exists ps',
    notify_all (extraReducers s)
      [(("users/fetch", pending), VObj 6%nat []); (("users/fetch", rejected), failure)]
      (initial s) = Ok (VObj 5%nat ps')
    /\ lifecycle_of (VObj 5%nat ps') = (VBool false, VStr "boom", VStr "rejected").
Proof.
  intros cfg s failure.
  destruct (lifecycle_spec 5%nat cfg "users/fetch" rejected 5%nat
              [("entities", VObj 1%nat []); ("ids", VArr 2%nat []);
               ("loading", VBool false); ("error", VNull); ("status", VStr "idle")]
              7%nat [("error", VObj 8%nat [("message", VStr "boom")])]
              [(("users/fetch", pending), VObj 6%nat [])])
    as (_ & _ & ps' & Hrun & Hfields).
  - reflexivity.
  - left; reflexivity.
  - repeat constructor. exists 6%nat, []. reflexivity.
  - exists ps'. split; [exact Hrun | exact Hfields].
Defined.

(** ** Assembly *)

Section FactoryFacts.

Lemma keys_put key k r m :
  In key (keys (put k r m)) <-> key = k \/ In key (keys m).
Proof.
  unfold keys. induction m as [|[k' r'] rest IH]; simpl.
  - intuition congruence.
  - destruct (String.eqb_spec k k') as [->|Hne]; simpl.
    + intuition congruence.
    + rewrite IH. intuition congruence.
Qed.

Lemma get_put key k r m :
  get key (put k r m) = if String.eqb key k then Some r else get key m.
Proof.
  induction m as [|[k' r'] rest IH]; simpl.
  - reflexivity.
  - destruct (String.eqb_spec k k') as [->|Hne]; simpl.
    + destruct (String.eqb key k'); reflexivity.
    + rewrite IH. destruct (String.eqb_spec key k') as [->|Hne'].
      * destruct (String.eqb_spec k' k); congruence.
      * reflexivity.
Qed.

Lemma get_none_keys key m : get key m = None <-> ~ In key (keys m).
Proof.
  unfold keys. induction m as [|[k' r'] rest IH]; simpl.
  - tauto.
  - destruct (String.eqb_spec key k') as [->|Hne].
    + split; [discriminate|]. intros H. exfalso. apply H. now left.
    + rewrite IH. intuition congruence.
Qed.

Lemma get_wrapped key m :
  get key (wrappedReducers m) = option_map wrap (get key m).
Proof.
  unfold wrappedReducers. induction m as [|[k' r'] rest IH]; simpl; auto.
  destruct (String.eqb key k'); auto.
Qed.

Variables (kind : option adapter_kind) (name : string)
  (actionNaming : option ActionNaming).

(** One turn of the loop of [createArrayReducers] / [createEntityReducers]. *)
Let case_for (reducerName : string) : option reducer :=
  match kind with
  | Some entity_adapter => entity_case reducerName
  | _ => array_case reducerName
  end.

Let turn (reducersMap : reducer_map) (reducerName : string) : reducer_map :=
  if negb (recognised kind reducerName) then reducersMap
  else match case_for reducerName with
       | Some r => put (actionKey name reducerName actionNaming) r reducersMap
       | None => reducersMap
       end.

Lemma vocabulary_map_fold requested :
  vocabulary_map kind requested name actionNaming = fold_left turn requested [].
Proof.
  unfold vocabulary_map, createEntityReducers, createArrayReducers, turn, case_for,
    recognised.
  destruct kind as [[]|]; reflexivity.
Qed.

Lemma turn_unknown m reducerName :
  recognised kind reducerName = false -> turn m reducerName = m.
Proof. intros H. unfold turn. now rewrite H. Qed.

Lemma vocabulary_map_skip before after bogus :
  recognised kind bogus = false ->
  vocabulary_map kind (before ++ bogus :: after) name actionNaming
  = vocabulary_map kind (before ++ after) name actionNaming.
Proof.
  intros H. rewrite !vocabulary_map_fold, !fold_left_app. simpl.
  now rewrite turn_unknown.
Qed.

Lemma fold_turn_keys requested m key :
  In key (keys (fold_left turn requested m)) ->
  In key (keys m)
  \/ exists r, In r requested /\ recognised kind r = true
               /\ key = actionKey name r actionNaming.
Proof.
  revert m. induction requested as [|x rest IH]; intros m Hin; simpl in *; auto.
  apply IH in Hin. destruct Hin as [Hin|(r & Hr & Hrec & Hkey)].
  - unfold turn in Hin. destruct (recognised kind x) eqn:Hx; simpl in Hin; auto.
    destruct (case_for x); auto.
    apply keys_put in Hin. destruct Hin as [->|Hin]; auto.
    right. exists x. auto.
  - right. exists r. auto.
Qed.

Lemma vocabulary_map_keys requested key :
  In key (keys (vocabulary_map kind requested name actionNaming)) ->
  exists r, In r requested /\ recognised kind r = true
            /\ key = actionKey name r actionNaming.
Proof.
  rewrite vocabulary_map_fold. intros H.
  apply fold_turn_keys in H. destruct H as [[]|H]. exact H.
Qed.

Lemma fold_turn_get requested m key r :
  get key (fold_left turn requested m) = Some r ->
  get key m = Some r
  \/ exists x, In x requested /\ recognised kind x = true
               /\ key = actionKey name x actionNaming /\ case_for x = Some r.
Proof.
  revert m. induction requested as [|x rest IH]; intros m Hget; simpl in *; auto.
  apply IH in Hget. destruct Hget as [Hget|(y & Hy & Hrec & Hkey & Hcase)].
  - unfold turn in Hget. destruct (recognised kind x) eqn:Hx; simpl in Hget; auto.
    destruct (case_for x) as [rx|] eqn:Hcase; auto.
    rewrite get_put in Hget.
    destruct (String.eqb_spec key (actionKey name x actionNaming)) as [->|Hne]; auto.
    inversion Hget; subst rx. right. exists x. auto.
  - right. exists y. auto.
Qed.

Lemma vocabulary_map_get requested key r :
  get key (vocabulary_map kind requested name actionNaming) = Some r ->
  exists x, In x requested /\ recognised kind x = true
            /\ key = actionKey name x actionNaming /\ case_for x = Some r.
Proof.
  rewrite vocabulary_map_fold. intros H.
  apply fold_turn_get in H. destruct H as [H|H]; [discriminate H | exact H].
Qed.

End FactoryFacts.

Lemma append_cancel (p a b : string) : (p ++ a = p ++ b)%string -> a = b.
Proof. induction p; simpl; intros H; [exact H|]. inversion H. auto. Qed.

Lemma recognised_vocabulary kind r :
  recognised kind r = true -> In r ENTITY_REDUCERS.
Proof.
  unfold recognised, isEntityReducer, isArrayReducer.
  destruct kind as [[]|]; intros H; apply existsb_exists in H;
    destruct H as (x & Hx & Heq); apply String.eqb_eq in Heq; subst x;
    unfold ARRAY_REDUCERS, ENTITY_REDUCERS in *; simpl in *; intuition.
Qed.

Lemma createAutoSlice_request fresh cfg requested requested' :
  vocabulary_map (adapter cfg) requested (name cfg) (actionNaming cfg)
  = vocabulary_map (adapter cfg) requested' (name cfg) (actionNaming cfg) ->
  createAutoSlice fresh (request cfg requested)
  = createAutoSlice fresh (request cfg requested').
Proof.
  unfold vocabulary_map, createAutoSlice, request, with_custom, hasAsync, thunks_of.
  cbn [Factory.name adapter initialState reducers customReducers Factory.actionNaming
       asyncThunks].
  destruct (adapter cfg) as [[]|]; intros ->; reflexivity.
Qed.

(** Claim C10. A requested name outside the vocabulary of the chosen kind
    is skipped by the loop that builds the reducers: under every naming
    mode the map built for a request is the map built for the request
    without that name, and so is the whole result of [createAutoSlice];
    every key of the map is the action key of a requested name of the
    vocabulary; no case reducer stands under the unknown name in short
    naming (given or defaulted), nor under its prefixed key unless a
    vocabulary name capitalizes to the same string. The factory has no
    failing path: it is a total function of the configuration. *)
Theorem unknown_names_dropped (fresh : ref) (cfg : config)
  (before after : list string) (bogus : string) :
  let kind := adapter cfg in
  let requested := before ++ bogus :: after in
  let built := fun naming => vocabulary_map kind requested (name cfg) naming in
  recognised kind bogus = false ->
  (forall naming,
     built naming = vocabulary_map kind (before ++ after) (name cfg) naming)
  /\ createAutoSlice fresh (request cfg requested)
     = createAutoSlice fresh (request cfg (before ++ after))
  /\ (forall naming key,
        In key (keys (built naming)) ->
        exists r, In r requested /\ recognised kind r = true
                  /\ key = actionKey (name cfg) r naming)
  /\ get (actionKey (name cfg) bogus (Some short)) (built (Some short)) = None
  /\ get (actionKey (name cfg) bogus None) (built None) = None
  /\ ((forall r, recognised kind r = true -> capitalize r <> capitalize bogus) ->
      get (actionKey (name cfg) bogus (Some prefixed)) (built (Some prefixed)) = None).
Proof.
  intros kind requested built Hbogus. subst built. cbn beta.
  split; [|split; [|split; [|split; [|split]]]].
  - intros naming. now apply vocabulary_map_skip.
  - apply createAutoSlice_request. now apply vocabulary_map_skip.
  - intros naming key. apply vocabulary_map_keys.
  - apply get_none_keys. intros Hin. apply vocabulary_map_keys in Hin.
    destruct Hin as (r & _ & Hrec & Hkey). simpl in Hkey. congruence.
  - apply get_none_keys. intros Hin. apply vocabulary_map_keys in Hin.
    destruct Hin as (r & _ & Hrec & Hkey). simpl in Hkey. congruence.
  - intros Hcap. apply get_none_keys. intros Hin. apply vocabulary_map_keys in Hin.
    destruct Hin as (r & _ & Hrec & Hkey). simpl in Hkey.
    apply append_cancel in Hkey. apply (Hcap r Hrec). congruence.
Qed.

Lemma unknown_names_dropped_witness :
  let cfg := {| name := "items"; adapter := None; initialState := VArr 0%nat [];
                reducers := []; customReducers := None;
                actionNaming := Some prefixed; asyncThunks := None |} in
  keys (caseReducers (createAutoSlice 1%nat (request cfg ["add"; "bogus"; "clear"])))
    = ["itemsAdd"; "itemsClear"]
  /\ get "bogus" (vocabulary_map None ["add"; "bogus"; "clear"] "items" (Some short)) = None
  /\ get "itemsBogus" (vocabulary_map None ["add"; "bogus"; "clear"] "items" (Some prefixed))
     = None.
Proof.
  intros cfg.
  destruct (unknown_names_dropped 1%nat cfg ["add"] ["clear"] "bogus")
    as (_ & Hslice & _ & Hshort & _ & Hprefixed).
  - reflexivity.
  - split; [|split].
    + cbn [app] in Hslice. rewrite Hslice. reflexivity.
    + exact Hshort.
    + apply Hprefixed. intros r Hr. apply (recognised_vocabulary None) in Hr.
      simpl in Hr.
      repeat (destruct Hr as [<-|Hr]; [discriminate|]). destruct Hr.
Defined.

Lemma same_action_key name naming x y :
  In x ENTITY_REDUCERS -> In y ENTITY_REDUCERS ->
  actionKey name x naming = actionKey name y naming -> x = y.
Proof.
  intros Hx Hy. destruct naming as [[]|]; simpl; auto.
  intros H. apply append_cancel in H. unfold ENTITY_REDUCERS in *. simpl in Hx, Hy.
  repeat (destruct Hx as [<-|Hx]; [|]);
    try contradiction;
    repeat (destruct Hy as [<-|Hy]; [|]);
    try contradiction; try reflexivity; discriminate H.
Qed.

(** Claim C5. In the entity adapter, the reducer built under the key of
    [upsert] and the one built under the key of [add], for any request, name
    and naming mode, run to the same outcome on every state and every
    payload, single entity or sequence: the two cases of the switch have the
    same body. *)
Theorem entity_upsert_is_add (requested : list string) (name : string)
  (naming : option ActionNaming) (built_upsert built_add : reducer) :
  get (actionKey name "upsert" naming) (createEntityReducers requested name naming)
    = Some built_upsert ->
  get (actionKey name "add" naming) (createEntityReducers requested name naming)
    = Some built_add ->
  built_upsert = EntityAdapter.upsert
  /\ built_add = EntityAdapter.add
  /\ forall fresh state payload,
       built_upsert fresh state payload = built_add fresh state payload.
Proof.
  intros Hupsert Hadd.
  apply (vocabulary_map_get (Some entity_adapter)) in Hupsert, Hadd.
  destruct Hupsert as (x & _ & Hx & Hkx & Hcx). destruct Hadd as (y & _ & Hy & Hky & Hcy).
  apply (recognised_vocabulary (Some entity_adapter)) in Hx, Hy.
  apply same_action_key in Hkx; [|simpl; tauto|exact Hx].
  apply same_action_key in Hky; [|simpl; tauto|exact Hy].
  subst x y. cbn in Hcx, Hcy. inversion Hcx; inversion Hcy.
  repeat split.
Qed.

Lemma entity_upsert_is_add_witness :
  EntityAdapter.upsert 9%nat (getEmptyEntityState 0%nat)
    (VArr 4%nat [VObj 5%nat [("id", VNum 1)]; VObj 6%nat [("id", VStr "1")]])
  = EntityAdapter.add 9%nat (getEmptyEntityState 0%nat)
      (VArr 4%nat [VObj 5%nat [("id", VNum 1)]; VObj 6%nat [("id", VStr "1")]]).
Proof.
  destruct (entity_upsert_is_add ["add"; "upsert"] "users" (Some prefixed)
              EntityAdapter.upsert EntityAdapter.add) as (_ & _ & Hsame).
  - reflexivity.
  - reflexivity.
  - apply Hsame.
Defined.

Lemma wrap_object (inner : reducer) fresh r ps data payload :
  lookup "data" ps = Some data ->
  wrap inner fresh (VObj r ps) payload =
  (result <- inner fresh data payload ;;
   Ok (mutated (VObj r (assign "data" (next_state result) ps)))).
Proof.
  intros Hdata. unfold wrap. rewrite get_prop_obj, Hdata. cbn [bind].
  destruct (inner fresh data payload) as [result| |]; cbn [bind set_prop]; auto.
  unfold next_state.
  destruct (strict_equal (returned result) VUndefined); cbn [negb bind set_prop].
  - reflexivity.
  - now rewrite assign_assign.
Qed.

(** Claim C8. For the array adapter with at least one async thunk: the
    initial state is [{data, loading, error, status}] with the initial
    sequence under [data]; every case reducer of the slice, built from the
    vocabulary or custom, is the wrapper of the reducer merged under the same
    key; on a state object the wrapper hands the reducer [state.data] and
    nothing else, and stores the reducer's next state under [data]; every
    other property of the state ([loading], [error], [status]) reads as
    before; and [selectAll] / [selectTotal] read [state.data] and its
    length. *)
Theorem async_array_reads_and_writes_data (fresh : ref) (cfg : config) :
  adapter cfg <> Some entity_adapter ->
  hasAsync cfg = true ->
  let s := createAutoSlice fresh cfg in
  let merged :=
    with_custom cfg (createArrayReducers (reducers cfg) (name cfg) (actionNaming cfg)) in
  initial s = VObj fresh [("data", initialState cfg); ("loading", VBool false);
                          ("error", VNull); ("status", VStr "idle")]
  /\ (forall key, get key (caseReducers s) = option_map wrap (get key merged))
  /\ (forall (inner : reducer) f r ps data payload,
        lookup "data" ps = Some data ->
        wrap inner f (VObj r ps) payload =
        (result <- inner f data payload ;;
         Ok (mutated (VObj r (assign "data" (next_state result) ps)))))
  /\ (forall (inner : reducer) f r ps data payload red,
        lookup "data" ps = Some data ->
        wrap inner f (VObj r ps) payload = Ok red ->
        forall key, key <> "data" ->
          read (next_state red) key = read (VObj r ps) key)
  /\ selector_named "selectAll" (selectors s) = Some async_array_selectAll
  /\ selector_named "selectTotal" (selectors s) = Some async_array_selectTotal
  /\ (forall r ps data arg,
        lookup "data" ps = Some data ->
        async_array_selectAll (VObj r ps) arg = Ok data
        /\ async_array_selectTotal (VObj r ps) arg = get_prop data "length").
Proof.
  intros Hkind Hasync s merged. subst s merged. unfold createAutoSlice.
  rewrite Hasync.
  destruct (adapter cfg) as [[]|]; try congruence.
  all: cbn [initial caseReducers selectors].
  all: split; [reflexivity|]; split; [intros key; apply get_wrapped|].
  all: split; [intros; now apply wrap_object|].
  all: split;
    [ intros inner f r ps data payload red Hdata Hrun key Hkey;
      rewrite (wrap_object inner f r ps data payload Hdata) in Hrun;
      destruct (inner f data payload) as [result| |]; cbn [bind] in Hrun;
      try discriminate; inversion Hrun; subst red;
      cbn [next_state mutated returned draft strict_equal];
      rewrite !read_obj, lookup_assign_other by congruence; reflexivity |].
  all: split; [reflexivity|]; split; [reflexivity|].
  all: intros r ps data arg Hdata;
       unfold async_array_selectAll, async_array_selectTotal;
       rewrite get_prop_obj, Hdata; split; reflexivity.
Qed.

Lemma async_array_reads_and_writes_data_witness :
  let cfg := {| name := "items"; adapter := None; initialState := VArr 0%nat [VNum 1];
                reducers := ["add"]; customReducers := None;
                actionNaming := None; asyncThunks := Some [("fetchItems", "items/fetch")] |} in
  let s := createAutoSlice 1%nat cfg in
  dispatch s 2%nat "add" (initial s) (VNum 2)
  = Ok (VObj 1%nat [("data", VArr 0%nat [VNum 1; VNum 2]); ("loading", VBool false);
                    ("error", VNull); ("status", VStr "idle")]).
Proof.
  intros cfg s.
  destruct (async_array_reads_and_writes_data 1%nat cfg) as (Hinit & Hget & Hwrap & _).
  - discriminate.
  - reflexivity.
  - unfold dispatch. fold s in Hinit, Hget. rewrite Hget, Hinit.
    cbn [with_custom customReducers cfg option_map].
    change (get "add" (createArrayReducers (reducers cfg) (name cfg) (actionNaming cfg)))
      with (Some ArrayAdapter.add).
    cbn [option_map]. rewrite (Hwrap _ _ _ _ (VArr 0%nat [VNum 1])) by reflexivity.
    reflexivity.
Defined.

(** ** The entity adapter *)

Section EntityFacts.

Lemma modify_prop_object r ps key v f v' :
  lookup key ps = Some v ->
  f v = Ok v' ->
  modify_prop (VObj r ps) key f = Ok (VObj r (assign key v' ps)).
Proof.
  intros Hv Hf. unfold modify_prop. rewrite get_prop_obj, Hv. cbn [bind].
  rewrite Hf. reflexivity.
Qed.

Lemma coalesce_defined payload dflt :
  defined dflt -> defined (coalesce payload dflt).
Proof. unfold defined, coalesce. intros H. now destruct (nullish payload) eqn:E. Qed.

Lemma default_to_not_undefined v dflt :
  dflt <> VUndefined -> default_to v dflt <> VUndefined.
Proof.
  unfold default_to. intros H. destruct v; simpl; auto; discriminate.
Qed.

Lemma round_double_exact z : Z.abs z <= 2 ^ 53 -> round_double z = Some z.
Proof.
  intros H. unfold round_double. cbv zeta.
  destruct (Z.leb_spec (Z.abs z) (2 ^ 53)); [reflexivity | lia].
Qed.

Lemma round_double_finite z :
  Z.abs z < 2 ^ 1023 -> exists s, round_double z = Some s.
Proof.
  intros H. unfold round_double. cbv zeta.
  destruct (Z.leb_spec (Z.abs z) (2 ^ 53)) as [|Hbig]; [eauto|].
  set (a := Z.abs z) in *.
  assert (H53 : 0 < 2 ^ 53) by (apply Z.pow_pos_nonneg; lia).
  assert (Ha : 0 < a) by lia.
  destruct (Z.log2_spec a Ha) as [Hlo _].
  assert (HL : 53 <= Z.log2 a) by (apply Z.log2_le_pow2; lia).
  set (e := Z.log2 a - 52) in *.
  assert (Hpe : 0 < 2 ^ e) by (apply Z.pow_pos_nonneg; lia).
  assert (Hea : 2 ^ e <= a).
  { apply Z.le_trans with (2 ^ Z.log2 a); [|exact Hlo].
    apply Z.pow_le_mono_r; lia. }
  assert (Hq : a / 2 ^ e * 2 ^ e <= a).
  { rewrite Z.mul_comm. apply Z.mul_div_le. exact Hpe. }
  assert (Htop : 2 ^ 1024 = 2 * 2 ^ 1023) by reflexivity.
  assert (Hle : forall q', q' <= a / 2 ^ e + 1 -> q' * 2 ^ e < 2 ^ 1024).
  { intros q' Hq'. apply Z.le_lt_trans with ((a / 2 ^ e + 1) * 2 ^ e); [nia|]. nia. }
  match goal with
  | |- exists s, (if ?r <? _ then _ else _) = _ =>
      assert (Hr : r < 2 ^ 1024)
  end.
  { apply Hle.
    destruct (a mod 2 ^ e <? 2 ^ (e - 1)); [lia|].
    destruct (2 ^ (e - 1) <? a mod 2 ^ e); [lia|].
    destruct (Z.even (a / 2 ^ e)); lia. }
  apply Z.ltb_lt in Hr. rewrite Hr. eauto.
Qed.

Lemma number_plus_exact n a :
  Z.abs (n + a) <= 2 ^ 53 -> number_plus n (VNum a) = Ok (VNum (n + a)).
Proof.
  intros H. unfold number_plus, number_add. now rewrite round_double_exact.
Qed.

Lemma get_member_own r ps key v :
  lookup key ps = Some v -> get_member (VObj r ps) key = Ok (Own v).
Proof. intros H. unfold get_member. now rewrite H. Qed.

Lemma inherited_names_spec key :
  existsb (String.eqb key) inherited_names = false <-> ~ In key inherited_names.
Proof.
  split.
  - intros H Hin.
    assert (Hex : existsb (String.eqb key) inherited_names = true).
    { apply existsb_exists. exists key. split; [exact Hin | apply String.eqb_refl]. }
    rewrite Hex in H. discriminate H.
  - intros Hno. destruct (existsb (String.eqb key) inherited_names) eqn:E; auto.
    apply existsb_exists in E. destruct E as (k & Hk & Heq).
    apply String.eqb_eq in Heq. subst k. contradiction.
Qed.

Lemma get_member_absent r ps key :
  lookup key ps = None -> ~ In key inherited_names ->
  get_member (VObj r ps) key = Ok Absent.
Proof.
  intros H Hno. unfold get_member. rewrite H.
  destruct (String.eqb_spec key "__proto__") as [->|_].
  - exfalso. apply Hno. cbv [inherited_names In]. tauto.
  - apply inherited_names_spec in Hno. now rewrite Hno.
Qed.

Lemma get_member_method r ps key :
  lookup key ps = None -> In key inherited_names -> key <> "__proto__" ->
  get_member (VObj r ps) key = Ok Method.
Proof.
  intros H Hin Hproto. unfold get_member. rewrite H.
  destruct (String.eqb_spec key "__proto__"); [contradiction|].
  assert (Hex : existsb (String.eqb key) inherited_names = true).
  { apply existsb_exists. exists key. split; [exact Hin | apply String.eqb_refl]. }
  now rewrite Hex.
Qed.

Variables (fresh r re : ref) (ps ents : props) (payload : value).
Hypothesis entities_here : lookup "entities" ps = Some (VObj re ents).

Let state := VObj r ps.
Let p := coalesce payload (VObj fresh []).
Let keyId := toId (read p "id").
Let field := to_string (default_to (read p "field") (VStr "value")).
Let amount := default_to (read p "amount") (VNum 1).

Lemma p_defined : defined p.
Proof. apply coalesce_defined. reflexivity. Qed.

(** The reducers after the destructuring and the lookup of the entity. *)
Lemma increment_unfold :
  EntityAdapter.increment fresh state payload =
  (found <- get_member (VObj re ents) keyId ;;
   match found with
   | Own existing =>
       if truthy existing then
         has_field <- js_in field existing ;;
         if has_field then
           current <- get_prop existing field ;;
           match current with
           | VNum n =>
               sum <- number_plus n amount ;;
               existing' <- set_prop existing field sum ;;
               st <- modify_prop state "entities" (fun ents =>
                       set_prop ents keyId existing') ;;
               Ok (mutated st)
           | _ => Ok (mutated state)
           end
         else Ok (mutated state)
       else Ok (mutated state)
   | Method => if String.eqb field "length" then Throw TypeError else Unmodelled
   | Absent => Ok (mutated state)
   end).
Proof.
  unfold EntityAdapter.increment. fold p.
  rewrite !(get_prop_defined p) by apply p_defined. cbn [bind].
  fold keyId field amount. unfold state at 1.
  rewrite get_prop_obj, entities_here. reflexivity.
Qed.

Lemma toggle_unfold :
  EntityAdapter.toggle fresh state payload =
  (found <- get_member (VObj re ents) keyId ;;
   match found with
   | Own existing =>
       if truthy existing then
         has_field <- js_in field existing ;;
         if has_field then
           current <- get_prop existing field ;;
           match current with
           | VBool b =>
               existing' <- set_prop existing field (VBool (negb b)) ;;
               st <- modify_prop state "entities" (fun ents =>
                       set_prop ents keyId existing') ;;
               Ok (mutated st)
           | _ => Ok (mutated state)
           end
         else Ok (mutated state)
       else Ok (mutated state)
   | Method => Unmodelled
   | Absent => Ok (mutated state)
   end).
Proof.
  unfold EntityAdapter.toggle. fold p.
  rewrite !(get_prop_defined p) by apply p_defined. cbn [bind].
  fold keyId field. unfold state at 1.
  rewrite get_prop_obj, entities_here. reflexivity.
Qed.

Lemma increment_adds er eps n a s :
  lookup keyId ents = Some (VObj er eps) ->
  lookup field eps = Some (VNum n) ->
  amount = VNum a ->
  number_add n a = Some s ->
  EntityAdapter.increment fresh state payload =
  Ok (mutated (VObj r (assign "entities"
        (VObj re (assign keyId (VObj er (assign field (VNum s) eps)) ents)) ps))).
Proof.
  intros He Hf Ha Hs. rewrite increment_unfold, (get_member_own _ _ _ _ He).
  cbn [truthy js_in bind].
  unfold has_key. rewrite Hf, get_prop_obj, Hf. cbn [bind]. rewrite Ha.
  cbn [number_plus]. rewrite Hs. cbn [bind set_prop].
  unfold state. rewrite (modify_prop_object r ps "entities" (VObj re ents) _
                           (VObj re (assign keyId (VObj er (assign field (VNum s) eps)) ents)))
    by (auto; reflexivity).
  reflexivity.
Qed.


(** At an id that names an inherited method and no entity, [increment] of
    the field [length] raises. *)
Lemma increment_method_raises :
  lookup keyId ents = None -> In keyId inherited_names -> keyId <> "__proto__" ->
  field = "length" ->
  EntityAdapter.increment fresh state payload = Throw TypeError.
Proof.
  intros He Hin Hproto Hf. rewrite increment_unfold, (get_member_method _ _ _ He Hin Hproto).
  cbn [bind]. now rewrite Hf.
Qed.

Hypothesis not_inherited : ~ In keyId inherited_names.



Hypothesis entities_are_objects :
  forall key e, lookup key ents = Some e -> exists er eps, e = VObj er eps.

Lemma increment_noop :
  (forall er eps n, lookup keyId ents = Some (VObj er eps) ->
                    lookup field eps <> Some (VNum n)) ->
  EntityAdapter.increment fresh state payload = Ok (mutated state).
Proof.
  intros Hno. rewrite increment_unfold.
  destruct (lookup keyId ents) as [e|] eqn:He;
    [|now rewrite (get_member_absent _ _ _ He not_inherited)].
  rewrite (get_member_own _ _ _ _ He). cbn [bind].
  destruct (entities_are_objects _ _ He) as (er & eps & ->).
  cbn [truthy js_in bind]. unfold has_key.
  destruct (lookup field eps) as [v|] eqn:Hf; [|reflexivity].
  rewrite get_prop_obj, Hf. cbn [bind].
  destruct v; try reflexivity. exfalso. exact (Hno er eps n eq_refl Hf).
Qed.


End EntityFacts.

Lemma toId_string_form id : identifier id -> toId id = string_form id.
Proof. destruct id; simpl; try contradiction; reflexivity. Qed.




Section InvariantFacts.

Lemma invariant_shape state :
  invariant state <-> exists ents ids, shape state ents ids /\ keys_match ents ids.
Proof.
  unfold invariant, shape. split.
  - intros (r & ps & re & ents & ri & ids & H1 & H2 & H3 & H4).
    exists ents, ids. split; [exists r, ps, re, ri|]; auto.
  - intros (ents & ids & (r & ps & re & ri & H1 & H2 & H3) & H4).
    exists r, ps, re, ents, ri, ids. auto.
Qed.

Lemma existsb_strict_str id ids :
  existsb (strict_equal (VStr id)) ids = true <-> In (VStr id) ids.
Proof.
  rewrite existsb_exists. split.
  - intros (v & Hin & Heq). destruct v; simpl in Heq; try discriminate.
    apply String.eqb_eq in Heq. now subst.
  - intros Hin. exists (VStr id). split; auto. simpl. apply String.eqb_refl.
Qed.

Lemma has_key_remove_key id key ents :
  has_key key (remove_key id ents) = negb (String.eqb id key) && has_key key ents.
Proof.
  unfold has_key. rewrite lookup_remove_key.
  destruct (String.eqb id key); reflexivity.
Qed.

Lemma keys_match_same ents ents' ids :
  (forall k, has_key k ents' = has_key k ents) ->
  keys_match ents ids -> keys_match ents' ids.
Proof.
  intros Hsame [Hnd Hmem]. split; auto.
  intros v. rewrite Hmem. split; intros (k & -> & Hk); exists k; split; auto;
    now rewrite ?Hsame in *.
Qed.

Lemma has_key_assign_present key v ents :
  has_key key ents = true ->
  forall k, has_key k (assign key v ents) = has_key k ents.
Proof.
  intros Hk k. rewrite has_key_assign.
  destruct (String.eqb_spec k key) as [->|]; simpl; auto.
Qed.

(** One turn of the loop of [add], [addMany] and [upsert]. *)
Lemma upsert_turn_keeps st entity st' ents ids :
  shape st ents ids -> keys_match ents ids ->
  upsert_turn st entity = Ok st' ->
  exists ents' ids', shape st' ents' ids' /\ keys_match ents' ids'.
Proof.
  intros (r & ps & re & ri & -> & Hents & Hids) Hkm. unfold upsert_turn.
  destruct (get_prop entity "id") as [eid| |]; cbn [bind]; try discriminate.
  destruct (computed_key (toId eid)) as [id| |]; cbn [bind]; try discriminate.
  rewrite (modify_prop_object r ps "entities" (VObj re ents) _
             (VObj re (assign id entity ents))) by auto.
  cbn [bind]. rewrite get_prop_obj, lookup_assign_other, Hids by discriminate.
  cbn [array_includes bind]. unfold same_value_zero.
  destruct (existsb (strict_equal (VStr id)) ids) eqn:Hknown.
  - intros H; inversion H; subst st'; clear H.
    exists (assign id entity ents), ids. split.
    + exists r, (assign "entities" (VObj re (assign id entity ents)) ps), re, ri.
      rewrite lookup_assign_same, lookup_assign_other, Hids by discriminate. auto.
    + apply keys_match_same with (ents := ents); auto.
      apply has_key_assign_present.
      apply existsb_strict_str in Hknown. destruct Hkm as [_ Hmem].
      apply Hmem in Hknown. destruct Hknown as (k & Hk & Hhas).
      injection Hk as Hk. now rewrite Hk.
  - assert (Hids1 : lookup "ids" (assign "entities" (VObj re (assign id entity ents)) ps)
                     = Some (VArr ri ids))
      by (rewrite lookup_assign_other by discriminate; exact Hids).
    rewrite (modify_prop_object r _ "ids" (VArr ri ids) _ (VArr ri (ids ++ [VStr id])) Hids1)
      by reflexivity.
    intros H; inversion H; subst st'; clear H.
    exists (assign id entity ents), (ids ++ [VStr id]). split.
    + eexists r, _, re, ri. split; [reflexivity|].
      rewrite lookup_assign_same, lookup_assign_other, lookup_assign_same by discriminate.
      auto.
    + destruct Hkm as [Hnd Hmem].
      assert (Hnotin : ~ In (VStr id) ids).
      { intros Hin. apply existsb_strict_str in Hin. congruence. }
      split.
      * apply NoDup_app; auto.
        -- repeat constructor. intros [].
        -- intros x Hx [<-|[]]. contradiction.
      * intros v. rewrite in_app_iff, Hmem. simpl. split.
        -- intros [(k & -> & Hk)|[<-|[]]].
           ++ exists k. split; auto. rewrite has_key_assign, Hk. apply orb_true_r.
           ++ exists id. split; auto. rewrite has_key_assign, String.eqb_refl. reflexivity.
        -- intros (k & -> & Hk). rewrite has_key_assign in Hk.
           destruct (String.eqb_spec k id) as [Heq|Hne]; [right; left; now rewrite Heq|].
           left. exists k. auto.
Qed.

Lemma upsert_loop_keeps items st st' ents ids :
  shape st ents ids -> keys_match ents ids ->
  for_of items upsert_turn st = Ok st' ->
  exists ents' ids', shape st' ents' ids' /\ keys_match ents' ids'.
Proof.
  revert st ents ids. induction items as [|x rest IH]; intros st ents ids Hs Hkm; simpl.
  - intros H; inversion H; subst. eauto.
  - destruct (upsert_turn st x) as [st1| |] eqn:Hturn; cbn [bind]; try discriminate.
    destruct (upsert_turn_keeps _ _ _ _ _ Hs Hkm Hturn) as (ents1 & ids1 & Hs1 & Hkm1).
    now apply IH with (ents := ents1) (ids := ids1).
Qed.

Lemma delete_loop dels st ents ids :
  shape st ents ids ->
  exists st' ents',
    for_of dels delete_turn st = Ok st'
    /\ shape st' ents' ids
    /\ forall k, has_key k ents' = has_key k ents && negb (existsb (String.eqb k) dels).
Proof.
  revert st ents. induction dels as [|id rest IH]; intros st ents Hs; simpl.
  - exists st, ents. split; [reflexivity|]. split; auto.
    intros k. now rewrite andb_true_r.
  - destruct Hs as (r & ps & re & ri & -> & Hents & Hids). unfold delete_turn at 1.
    rewrite (modify_prop_object r ps "entities" (VObj re ents) _
               (VObj re (remove_key id ents))) by auto.
    cbn [bind].
    destruct (IH (VObj r (assign "entities" (VObj re (remove_key id ents)) ps))
                (remove_key id ents)) as (st' & ents' & Hrun & Hs' & Hkeys).
    { exists r, (assign "entities" (VObj re (remove_key id ents)) ps), re, ri.
      rewrite lookup_assign_same, lookup_assign_other, Hids by discriminate. auto. }
    exists st', ents'. split; [exact Hrun|]. split; [exact Hs'|].
    intros k. rewrite Hkeys, has_key_remove_key.
    rewrite (String.eqb_sym k id).
    destruct (String.eqb id k), (has_key k ents), (existsb (String.eqb k) rest); reflexivity.
Qed.

Lemma set_has_strings dels k :
  set_has (map VStr dels) (VStr k) = existsb (String.eqb k) dels.
Proof.
  unfold set_has. induction dels as [|d rest IH]; simpl; auto. now rewrite IH.
Qed.

(** [remove] and [removeMany] after their loop. *)
Lemma remove_ids fresh st ents ids dels :
  shape st ents ids ->
  exists st2,
    (ids0 <- get_prop st "ids" ;;
     kept <- array_filter fresh ids0 (fun id => Ok (negb (set_has (map VStr dels) id))) ;;
     st2 <- set_prop st "ids" kept ;;
     Ok (mutated st2)) = Ok (mutated st2)
    /\ shape st2 ents (filter (fun id => negb (set_has (map VStr dels) id)) ids).
Proof.
  intros (r & ps & re & ri & -> & Hents & Hids).
  rewrite get_prop_obj, Hids. cbn [bind array_filter].
  rewrite (filter_items_pure _ (fun id => negb (set_has (map VStr dels) id))) by reflexivity.
  cbn [bind set_prop]. eexists. split; [reflexivity|].
  eexists r, _, re, fresh. split; [reflexivity|].
  rewrite lookup_assign_other, lookup_assign_same by discriminate. auto.
Qed.

Lemma remove_keeps fresh state payload ents ids :
  shape state ents ids -> keys_match ents ids ->
  exists st' ents' ids',
    EntityAdapter.remove fresh state payload = Ok (mutated st')
    /\ EntityAdapter.removeMany fresh state payload = Ok (mutated st')
    /\ shape st' ents' ids' /\ keys_match ents' ids'.
Proof.
  intros Hs Hkm. unfold EntityAdapter.remove, EntityAdapter.removeMany.
  set (dels := map toId (one_or_many payload)).
  destruct (delete_loop dels state ents ids Hs) as (st1 & ents1 & Hrun & Hs1 & Hkeys).
  change (fun (st : value) (id : string) =>
            modify_prop st "entities" (fun ents0 : value => delete_prop ents0 id))
    with delete_turn.
  rewrite Hrun. cbn [bind].
  destruct (remove_ids fresh st1 ents1 ids dels Hs1) as (st2 & Hrun2 & Hs2).
  rewrite Hrun2. exists st2, ents1, (filter (fun id => negb (set_has (map VStr dels) id)) ids).
  split; [reflexivity|]. split; [reflexivity|]. split; [exact Hs2|].
  destruct Hkm as [Hnd Hmem]. split; [now apply NoDup_filter|].
  intros v. rewrite filter_In, Hmem. split.
  - intros ((k & -> & Hk) & Hkeep). exists k. split; auto.
    rewrite Hkeys, Hk. rewrite set_has_strings in Hkeep. exact Hkeep.
  - intros (k & -> & Hk). rewrite Hkeys in Hk. apply andb_true_iff in Hk.
    destruct Hk as [Hk Hdel]. split; [eauto|]. now rewrite set_has_strings.
Qed.

(** A write to an entity that exists leaves the keys as they are. *)
Lemma patch_keeps r ps re ents ri ids keyId e v :
  lookup "entities" ps = Some (VObj re ents) ->
  lookup "ids" ps = Some (VArr ri ids) ->
  keys_match ents ids ->
  lookup keyId ents = Some e ->
  invariant (VObj r (assign "entities" (VObj re (assign keyId v ents)) ps)).
Proof.
  intros Hents Hids Hkm He.
  exists r, (assign "entities" (VObj re (assign keyId v ents)) ps), re,
    (assign keyId v ents), ri, ids.
  rewrite lookup_assign_same, lookup_assign_other, Hids by discriminate.
  repeat split; auto.
  - apply Hkm.
  - destruct Hkm as [_ Hmem]. intros Hin. apply Hmem in Hin.
    destruct Hin as (k & -> & Hk). exists k. split; auto.
    rewrite has_key_assign_present; auto. unfold has_key. now rewrite He.
  - destruct Hkm as [_ Hmem]. intros (k & -> & Hk). apply Hmem. exists k. split; auto.
    rewrite has_key_assign_present in Hk; auto. unfold has_key. now rewrite He.
Qed.

End InvariantFacts.


Lemma next_state_mutated st : next_state (mutated st) = st.
Proof. reflexivity. Qed.

Lemma shape_invariant st ents ids :
  shape st ents ids -> keys_match ents ids -> invariant st.
Proof. intros. apply invariant_shape. eauto. Qed.

Lemma upsert_loop_invariant state items red :
  invariant state ->
  (st <- for_of items upsert_turn state ;; Ok (mutated st)) = Ok red ->
  invariant (next_state red).
Proof.
  intros Hinv. apply invariant_shape in Hinv. destruct Hinv as (ents & ids & Hs & Hkm).
  destruct (for_of items upsert_turn state) as [st| |] eqn:Hrun; cbn [bind];
    try discriminate.
  intros H; inversion H; subst red. rewrite next_state_mutated.
  destruct (upsert_loop_keeps _ _ _ _ _ Hs Hkm Hrun) as (ents' & ids' & Hs' & Hkm').
  now apply shape_invariant with ents' ids'.
Qed.

Lemma add_invariant fresh state payload red :
  invariant state ->
  EntityAdapter.add fresh state payload = Ok red -> invariant (next_state red).
Proof. intros Hinv. now apply upsert_loop_invariant. Qed.

Lemma upsert_invariant fresh state payload red :
  invariant state ->
  EntityAdapter.upsert fresh state payload = Ok red -> invariant (next_state red).
Proof. intros Hinv. now apply upsert_loop_invariant. Qed.

Lemma addMany_invariant fresh state payload red :
  invariant state ->
  EntityAdapter.addMany fresh state payload = Ok red -> invariant (next_state red).
Proof.
  intros Hinv. unfold EntityAdapter.addMany.
  destruct (EntityAdapter.iterate _) as [items| |]; cbn [bind]; try discriminate.
  now apply upsert_loop_invariant.
Qed.

Lemma remove_invariant fresh state payload red :
  invariant state ->
  EntityAdapter.remove fresh state payload = Ok red -> invariant (next_state red).
Proof.
  intros Hinv. apply invariant_shape in Hinv. destruct Hinv as (ents & ids & Hs & Hkm).
  destruct (remove_keeps fresh state payload ents ids Hs Hkm)
    as (st' & ents' & ids' & Hrun & _ & Hs' & Hkm').
  rewrite Hrun. intros H; inversion H; subst red.
  now apply shape_invariant with ents' ids'.
Qed.

Lemma removeMany_invariant fresh state payload red :
  invariant state ->
  EntityAdapter.removeMany fresh state payload = Ok red -> invariant (next_state red).
Proof.
  intros Hinv. apply invariant_shape in Hinv. destruct Hinv as (ents & ids & Hs & Hkm).
  destruct (remove_keeps fresh state payload ents ids Hs Hkm)
    as (st' & ents' & ids' & _ & Hrun & Hs' & Hkm').
  rewrite Hrun. intros H; inversion H; subst red.
  now apply shape_invariant with ents' ids'.
Qed.

Lemma empty_invariant f :
  invariant (VObj f [("entities", VObj (S f) []); ("ids", VArr (S (S f)) [])]).
Proof.
  exists f, [("entities", VObj (S f) []); ("ids", VArr (S (S f)) [])],
    (S f), [], (S (S f)), [].
  repeat split; auto.
  - constructor.
  - intros [].
  - intros (k & _ & Hk). discriminate.
Qed.

Lemma clear_invariant fresh state payload red :
  invariant state ->
  EntityAdapter.clear fresh state payload = Ok red -> invariant (next_state red).
Proof. intros _ H; inversion H; subst red. apply empty_invariant. Qed.

Lemma set_invariant fresh state payload red :
  invariant state ->
  EntityAdapter.set fresh state payload = Ok red ->
  nullish payload = true \/ invariant payload ->
  invariant (next_state red).
Proof.
  intros _ H Hp; inversion H; subst red. unfold next_state, replaced, coalesce.
  cbn [returned draft].
  destruct Hp as [Hnull|Hp].
  - rewrite Hnull. cbn [strict_equal]. apply empty_invariant.
  - destruct Hp as (r & ps & re & ents & ri & ids & -> & Hp).
    cbn [nullish strict_equal]. exists r, ps, re, ents, ri, ids. auto.
Qed.

Lemma computed_key_same key key' : computed_key key = Ok key' -> key' = key.
Proof.
  unfold computed_key. destruct (String.eqb key "__proto__"); [discriminate|].
  now intros [= <-].
Qed.

Lemma update_invariant fresh state payload red :
  invariant state ->
  ~ In (toId (read payload "id")) inherited_names ->
  EntityAdapter.update fresh state payload = Ok red -> invariant (next_state red).
Proof.
  intros Hshape Hown.
  destruct Hshape as (r & ps & re & ents & ri & ids & -> & Hents & Hids & Hkm).
  assert (Hinv : invariant (VObj r ps))
    by (exists r, ps, re, ents, ri, ids; auto).
  unfold EntityAdapter.update. unfold read in Hown.
  destruct (get_prop payload "id") as [id| |]; cbn [bind]; try discriminate.
  destruct (get_prop payload "changes") as [changes| |]; cbn [bind]; try discriminate.
  destruct (computed_key (toId id)) as [keyId| |] eqn:Hkey; cbn [bind]; try discriminate.
  apply computed_key_same in Hkey. subst keyId.
  rewrite get_prop_obj, Hents. cbn [bind].
  destruct (lookup (toId id) ents) as [e|] eqn:He.
  - rewrite (get_member_own _ _ _ _ He). cbn [bind]. destruct (truthy e).
    + erewrite modify_prop_object by (eauto; reflexivity). cbn [bind].
      intros H; inversion H; subst red. rewrite next_state_mutated.
      now apply patch_keeps with (ri := ri) (ids := ids) (e := e).
    + intros H; inversion H; subst red. exact Hinv.
  - rewrite (get_member_absent _ _ _ He Hown). cbn [bind].
    intros H; inversion H; subst red. exact Hinv.
Qed.

Lemma increment_invariant fresh state payload red :
  invariant state ->
  EntityAdapter.increment fresh state payload = Ok red -> invariant (next_state red).
Proof.
  intros Hshape.
  destruct Hshape as (r & ps & re & ents & ri & ids & -> & Hents & Hids & Hkm).
  assert (Hinv : invariant (VObj r ps))
    by (exists r, ps, re, ents, ri, ids; auto).
  rewrite (increment_unfold fresh r re ps ents payload Hents). unfold get_member.
  destruct (lookup _ ents) as [e|] eqn:He; cbn [bind].
  2:{ destruct (String.eqb _ "__proto__"); [discriminate|].
      destruct (existsb _ inherited_names); cbn [bind].
      - destruct (String.eqb _ "length"); discriminate.
      - intros H; inversion H; subst red; exact Hinv. }
  destruct (truthy e); [|intros H; inversion H; subst red; exact Hinv].
  destruct (js_in _ e) as [[]| |]; cbn [bind]; try discriminate;
    [|intros H; inversion H; subst red; exact Hinv].
  destruct (get_prop e _) as [current| |]; cbn [bind]; try discriminate.
  destruct current; try (intros H; inversion H; subst red; exact Hinv).
  destruct (number_plus _ _) as [sum| |]; cbn [bind]; try discriminate.
  destruct (set_prop e _ sum) as [e'| |]; cbn [bind]; try discriminate.
  erewrite modify_prop_object by (eauto; reflexivity). cbn [bind].
  intros H; inversion H; subst red. rewrite next_state_mutated.
  now apply patch_keeps with (ri := ri) (ids := ids) (e := e).
Qed.

Lemma toggle_invariant fresh state payload red :
  invariant state ->
  EntityAdapter.toggle fresh state payload = Ok red -> invariant (next_state red).
Proof.
  intros Hshape.
  destruct Hshape as (r & ps & re & ents & ri & ids & -> & Hents & Hids & Hkm).
  assert (Hinv : invariant (VObj r ps))
    by (exists r, ps, re, ents, ri, ids; auto).
  rewrite (toggle_unfold fresh r re ps ents payload Hents). unfold get_member.
  destruct (lookup _ ents) as [e|] eqn:He; cbn [bind].
  2:{ destruct (String.eqb _ "__proto__"); [discriminate|].
      destruct (existsb _ inherited_names); cbn [bind].
      - discriminate.
      - intros H; inversion H; subst red; exact Hinv. }
  destruct (truthy e); [|intros H; inversion H; subst red; exact Hinv].
  destruct (js_in _ e) as [[]| |]; cbn [bind]; try discriminate;
    [|intros H; inversion H; subst red; exact Hinv].
  destruct (get_prop e _) as [current| |]; cbn [bind]; try discriminate.
  destruct current; try (intros H; inversion H; subst red; exact Hinv).
  destruct (set_prop e _ _) as [e'| |]; cbn [bind]; try discriminate.
  erewrite modify_prop_object by (eauto; reflexivity). cbn [bind].
  intros H; inversion H; subst red. rewrite next_state_mutated.
  now apply patch_keeps with (ri := ri) (ids := ids) (e := e).
Qed.


Lemma entity_case_cases reducerName op :
  entity_case reducerName = Some op ->
  (reducerName = "add" /\ op = EntityAdapter.add)
  \/ (reducerName = "remove" /\ op = EntityAdapter.remove)
  \/ (reducerName = "update" /\ op = EntityAdapter.update)
  \/ (reducerName = "clear" /\ op = EntityAdapter.clear)
  \/ (reducerName = "set" /\ op = EntityAdapter.set)
  \/ (reducerName = "addMany" /\ op = EntityAdapter.addMany)
  \/ (reducerName = "removeMany" /\ op = EntityAdapter.removeMany)
  \/ (reducerName = "upsert" /\ op = EntityAdapter.upsert)
  \/ (reducerName = "increment" /\ op = EntityAdapter.increment)
  \/ (reducerName = "toggle" /\ op = EntityAdapter.toggle).
Proof.
  unfold entity_case.
  repeat match goal with
         | |- context [String.eqb reducerName ?s] =>
             destruct (String.eqb_spec reducerName s) as [->|?];
             [intros H; inversion H; tauto|]
         end.
  discriminate.
Qed.

(** ** Termination without raising *)

Section ArrayRuns.

Variables (fresh r : ref) (items : list value) (payload : value).
Hypothesis items_defined : Forall defined items.

Lemma is_object_cases v :
  is_object v = true -> (exists pr pps, v = VObj pr pps) \/ (exists pr xs, v = VArr pr xs).
Proof. destruct v; try discriminate; eauto. Qed.

Lemma is_object_defined v : is_object v = true -> defined v.
Proof. destruct v; try discriminate; reflexivity. Qed.

Lemma find_index_total test xs i :
  (forall x, In x xs -> exists b, test x = Ok b) ->
  exists idx, find_index_from test xs i = Ok idx
              /\ (idx = -1 \/ i <= idx < i + Z.of_nat (List.length xs)).
Proof.
  revert i. induction xs as [|x rest IH]; intros i Htest; simpl.
  - eauto.
  - destruct (Htest x (or_introl eq_refl)) as [b Hb]. rewrite Hb. cbn [bind].
    destruct b.
    + exists i. split; auto. right. lia.
    + destruct (IH (i + 1)) as (idx & Hrun & Hrange).
      { intros; apply Htest; now right. }
      exists idx. split; auto. destruct Hrange; [now left|right; lia].
Qed.

Lemma id_test_total (other : value) (read_other : outcome value) x :
  defined x ->
  (exists v, read_other = Ok v) ->
  exists b, (item_id <- get_prop x "id" ;;
             other_id <- read_other ;;
             Ok (strict_equal item_id other_id)) = Ok b.
Proof.
  intros Hx [v Hv]. rewrite (get_prop_defined x) by auto. cbn [bind].
  rewrite Hv. cbn [bind]. eauto.
Qed.

Lemma set_index_in_range idx v :
  0 <= idx < Z.of_nat (List.length items) ->
  set_index (VArr r items) idx v = Ok (VArr r (replace_nth (Z.to_nat idx) v items)).
Proof.
  intros H. cbn [set_index].
  replace ((0 <=? idx) && (idx <? Z.of_nat (List.length items))) with true; auto.
  symmetry. apply andb_true_iff. split; [apply Z.leb_le|apply Z.ltb_lt]; lia.
Qed.

Lemma get_index_total v idx : defined v -> exists el, get_index v idx = Ok el.
Proof.
  intros Hv. destruct v; try discriminate; cbn [get_index];
    try (rewrite get_prop_defined by reflexivity; eauto).
  destruct (_ && _); eauto.
Qed.








End ArrayRuns.

Section ArrayUpsertRuns.

Variable fresh : ref.

Let turn (st entity : value) : outcome value :=
  idx <- array_findIndex st (fun item =>
           item_id <- get_prop item "id" ;;
           entity_id <- get_prop_opt entity "id" ;;
           Ok (strict_equal item_id entity_id)) ;;
  if 0 <=? idx then set_index st idx entity
  else array_push st [entity].





End ArrayUpsertRuns.

Section EntityRuns.

Variable fresh : ref.

Lemma computed_key_plain key : key <> "__proto__" -> computed_key key = Ok key.
Proof.
  intros H. unfold computed_key. now destruct (String.eqb_spec key "__proto__").
Qed.

Lemma upsert_turn_runs_entity st ents ids entity :
  shape st ents ids -> storable entity ->
  exists st' ents' ids', upsert_turn st entity = Ok st' /\ shape st' ents' ids'.
Proof.
  intros (r & ps & re & ri & -> & Hents & Hids) [He Hkey]. unfold upsert_turn.
  rewrite (get_prop_defined entity) by auto. cbn [bind].
  rewrite computed_key_plain by exact Hkey. cbn [bind].
  set (id := toId (read entity "id")).
  rewrite (modify_prop_object r ps "entities" (VObj re ents) _
             (VObj re (assign id entity ents))) by auto.
  cbn [bind]. rewrite get_prop_obj, lookup_assign_other, Hids by discriminate.
  cbn [array_includes bind]. unfold same_value_zero.
  destruct (existsb (strict_equal (VStr id)) ids).
  - eexists _, (assign id entity ents), ids. split; [reflexivity|].
    eexists r, _, re, ri. split; [reflexivity|].
    rewrite lookup_assign_same, lookup_assign_other, Hids by discriminate. auto.
  - assert (Hids1 : lookup "ids" (assign "entities" (VObj re (assign id entity ents)) ps)
                    = Some (VArr ri ids))
      by (rewrite lookup_assign_other by discriminate; exact Hids).
    rewrite (modify_prop_object r _ "ids" (VArr ri ids) _ (VArr ri (ids ++ [VStr id])) Hids1)
      by reflexivity.
    eexists _, (assign id entity ents), (ids ++ [VStr id]). split; [reflexivity|].
    eexists r, _, re, ri. split; [reflexivity|].
    rewrite lookup_assign_same, lookup_assign_other, lookup_assign_same by discriminate.
    auto.
Qed.

Lemma upsert_loop_runs_entity entities st ents ids :
  shape st ents ids -> Forall storable entities ->
  exists st', for_of entities upsert_turn st = Ok st'.
Proof.
  revert st ents ids. induction entities as [|e rest IH]; intros st ents ids Hs Hdef; simpl.
  - eauto.
  - inversion Hdef as [|? ? He Hrest]; subst.
    destruct (upsert_turn_runs_entity st ents ids e Hs He) as (st1 & ents1 & ids1 & -> & Hs1).
    cbn [bind]. now apply IH with ents1 ids1.
Qed.

Lemma entity_add_runs st ents ids payload :
  shape st ents ids -> Forall storable (one_or_many payload) ->
  (exists red, EntityAdapter.add fresh st payload = Ok red)
  /\ (exists red, EntityAdapter.upsert fresh st payload = Ok red).
Proof.
  intros Hs Hm. unfold EntityAdapter.add, EntityAdapter.upsert.
  destruct (upsert_loop_runs_entity (one_or_many payload) st ents ids Hs Hm)
    as [st' Hrun].
  change (for_of (one_or_many payload) upsert_turn st = Ok st') in Hrun.
  unfold upsert_turn in Hrun. rewrite Hrun. cbn [bind]. eauto.
Qed.

Lemma entity_addMany_runs st ents ids payload :
  shape st ents ids ->
  nullish payload = true
  \/ (isArray payload = true /\ Forall storable (one_or_many payload)) ->
  exists red, EntityAdapter.addMany fresh st payload = Ok red.
Proof.
  intros Hs Hp. unfold EntityAdapter.addMany.
  assert (Hit : exists items,
            EntityAdapter.iterate (coalesce payload (VArr fresh [])) = Ok items
            /\ Forall storable items).
  { destruct Hp as [Hnull|[Harr Hm]].
    - unfold coalesce. rewrite Hnull. cbn. eauto.
    - destruct payload; try discriminate. cbn. eauto. }
  destruct Hit as (items & -> & Hdef). cbn [bind].
  destruct (upsert_loop_runs_entity items st ents ids Hs Hdef) as [st' Hrun].
  unfold upsert_turn in Hrun. rewrite Hrun. cbn [bind]. eauto.
Qed.

Lemma entity_remove_runs st ents ids payload :
  shape st ents ids ->
  (exists red, EntityAdapter.remove fresh st payload = Ok red)
  /\ (exists red, EntityAdapter.removeMany fresh st payload = Ok red).
Proof.
  intros Hs. unfold EntityAdapter.remove, EntityAdapter.removeMany.
  set (dels := map toId (one_or_many payload)).
  destruct (delete_loop dels st ents ids Hs) as (st1 & ents1 & Hrun & Hs1 & _).
  change (fun (st : value) (id : string) =>
            modify_prop st "entities" (fun ents0 : value => delete_prop ents0 id))
    with delete_turn.
  rewrite Hrun. cbn [bind].
  destruct (remove_ids fresh st1 ents1 ids dels Hs1) as (st2 & Hrun2 & _).
  rewrite Hrun2. eauto.
Qed.

Lemma entity_at_shape r ps re ents key :
  lookup "entities" ps = Some (VObj re ents) ->
  entity_at (VObj r ps) key = lookup key ents.
Proof. intros H. unfold entity_at. now rewrite read_obj, H. Qed.

Lemma entity_update_runs st ents ids payload :
  shape st ents ids -> storable payload ->
  (exists red, EntityAdapter.update fresh st payload = Ok red)
  /\ (entity_at st (toId (read payload "id")) = None ->
      ~ In (toId (read payload "id")) inherited_names ->
      EntityAdapter.update fresh st payload = Ok (mutated st)).
Proof.
  intros (r & ps & re & ri & -> & Hents & Hids) [Hp Hkey]. unfold EntityAdapter.update.
  rewrite !(get_prop_defined payload) by auto. cbn [bind].
  rewrite computed_key_plain by exact Hkey. cbn [bind].
  rewrite get_prop_obj, Hents. cbn [bind].
  rewrite (entity_at_shape r ps re ents _ Hents).
  destruct (lookup (toId (read payload "id")) ents) as [e|] eqn:He.
  - rewrite (get_member_own _ _ _ _ He). cbn [bind].
    split; [|discriminate]. destruct (truthy e); [|eauto].
    erewrite modify_prop_object by (eauto; reflexivity). cbn [bind]. eauto.
  - split.
    + unfold get_member. rewrite He.
      destruct (String.eqb_spec (toId (read payload "id")) "__proto__"); [contradiction|].
      destruct (existsb _ inherited_names); cbn [bind]; [|eauto].
      erewrite modify_prop_object by (eauto; reflexivity). cbn [bind]. eauto.
    + intros _ Hown. now rewrite (get_member_absent _ _ _ He Hown).
Qed.

Lemma read_destructured payload f key :
  read (coalesce payload (VObj f [])) key = read payload key.
Proof. unfold coalesce. destruct payload; reflexivity. Qed.

Lemma number_plus_summable n amount :
  summable n amount -> exists sum, number_plus n amount = Ok sum.
Proof.
  unfold summable, safe_integer, number_plus, number_add.
  destruct amount; intros H; try contradiction.
  - destruct (round_double_finite (n + 0)) as [s ->]; [now rewrite Z.add_0_r | eauto].
  - destruct (round_double_finite _ H) as [s ->]. eauto.
  - destruct (round_double_finite _ H) as [s ->]. eauto.
  - destruct (Z.leb_spec (Z.abs n) (2 ^ 53)); [eauto | lia].
  - destruct (Z.leb_spec (Z.abs n) (2 ^ 53)); [eauto | lia].
  - destruct (Z.leb_spec (Z.abs n) (2 ^ 53)); [eauto | lia].
Qed.

Lemma entity_increment_toggle_runs r ps re ents payload :
  lookup "entities" ps = Some (VObj re ents) ->
  (forall key e, lookup key ents = Some e -> exists er eps, e = VObj er eps) ->
  ~ In (toId (read payload "id")) inherited_names ->
  ((forall er eps n,
      lookup (toId (read payload "id")) ents = Some (VObj er eps) ->
      lookup (to_string (default_to (read payload "field") (VStr "value"))) eps
        = Some (VNum n) ->
      summable n (default_to (read payload "amount") (VNum 1))) ->
   exists red, EntityAdapter.increment fresh (VObj r ps) payload = Ok red)
  /\ (exists red, EntityAdapter.toggle fresh (VObj r ps) payload = Ok red).
Proof.
  intros Hents Hobj Hown.
  rewrite (increment_unfold fresh r re ps ents payload Hents),
          (toggle_unfold fresh r re ps ents payload Hents).
  rewrite !read_destructured.
  destruct (lookup (toId (read payload "id")) ents) as [e|] eqn:He.
  2:{ rewrite (get_member_absent _ _ _ He Hown). cbn [bind]. eauto. }
  rewrite (get_member_own _ _ _ _ He). cbn [bind].
  destruct (Hobj _ _ He) as (er & eps & ->). cbn [truthy js_in bind].
  unfold has_key.
  destruct (lookup _ eps) as [current|] eqn:Hf; [|eauto].
  rewrite get_prop_obj, Hf. cbn [bind].
  destruct current as [| |b|n|s|er' eps'|ar xs]; split; eauto.
  - cbn [bind set_prop].
    erewrite modify_prop_object by (eauto; reflexivity). cbn [bind]. eauto.
  - intros Hsum.
    destruct (number_plus_summable n _ (Hsum er eps n eq_refl Hf)) as [sum ->].
    cbn [bind set_prop].
    erewrite modify_prop_object by (eauto; reflexivity). cbn [bind]. eauto.
Qed.

End EntityRuns.

(** * Further properties of the generated reducers *)

(** ** The array adapter in use *)

Section ArrayInUse.

Lemma step_add fresh r items payload :
  step ArrayAdapter.add fresh (VArr r items) payload = Ok (VArr r (items ++ [payload])).
Proof. reflexivity. Qed.

Lemma steps_add calls : forall r items,
  steps ArrayAdapter.add calls (VArr r items) = Ok (VArr r (items ++ map snd calls)).
Proof.
  induction calls as [|[f p] rest IH]; intros r items; cbn [steps map snd].
  - now rewrite app_nil_r.
  - rewrite step_add. cbn [bind]. rewrite IH, <- app_assoc. reflexivity.
Qed.

Lemma first_match_or_none (f : value -> bool) items :
  (exists pre el post, items = pre ++ el :: post
                       /\ (forall x, In x pre -> f x = false) /\ f el = true)
  \/ (forall x, In x items -> f x = false).
Proof.
  induction items as [|x rest IH].
  - right. intros x [].
  - destruct (f x) eqn:Hx.
    + left. exists [], x, rest. repeat split; auto. intros y [].
    + destruct IH as [(pre & el & post & -> & Hpre & Hel)|Hnone].
      * left. exists (x :: pre), el, post. repeat split; auto.
        intros y [<-|Hy]; auto.
      * right. intros y [<-|Hy]; auto.
Qed.

Lemma optional_id_read entity :
  get_prop_opt entity "id" = Ok (optional_id entity).
Proof.
  unfold get_prop_opt, optional_id. destruct (nullish entity) eqn:Hn; auto.
  now apply get_prop_defined.
Qed.

Lemma upsert_test entity x :
  defined x ->
  (item_id <- get_prop x "id" ;;
   entity_id <- get_prop_opt entity "id" ;;
   Ok (strict_equal item_id entity_id))
  = Ok (strict_equal (read x "id") (optional_id entity)).
Proof.
  intros Hx. rewrite (get_prop_defined x) by auto. cbn [bind].
  rewrite optional_id_read. reflexivity.
Qed.

Lemma upsert_one fresh r items entity :
  isArray entity = false ->
  ArrayAdapter.upsert fresh (VArr r items) entity =
  (st <- (idx <- find_index_from (fun item =>
                   item_id <- get_prop item "id" ;;
                   entity_id <- get_prop_opt entity "id" ;;
                   Ok (strict_equal item_id entity_id)) items 0 ;;
          if 0 <=? idx then set_index (VArr r items) idx entity
          else array_push (VArr r items) [entity]) ;;
   Ok (mutated st)).
Proof.
  intros Hna. unfold ArrayAdapter.upsert.
  destruct entity; try discriminate; cbn [one_or_many for_of array_findIndex];
    match goal with
    | |- bind (bind ?m _) _ = _ => destruct m as [st| |]; reflexivity
    end.
Qed.

Lemma upsert_replaces fresh r pre el post entity :
  isArray entity = false ->
  Forall defined (pre ++ [el]) ->
  (forall x, In x pre -> strict_equal (read x "id") (optional_id entity) = false) ->
  strict_equal (read el "id") (optional_id entity) = true ->
  ArrayAdapter.upsert fresh (VArr r (pre ++ el :: post)) entity
  = Ok (mutated (VArr r (pre ++ entity :: post))).
Proof.
  intros Hna Hdef Hpre Hel. rewrite upsert_one by exact Hna.
  rewrite Forall_app in Hdef. destruct Hdef as [Hdpre Hdel].
  rewrite Forall_forall in Hdpre. inversion Hdel as [|? ? Hdel' _]; subst.
  rewrite (find_index_first _ pre el post 0).
  - cbn [bind].
    replace (0 <=? 0 + Z.of_nat (List.length pre)) with true
      by (symmetry; apply Z.leb_le; lia).
    cbn [set_index].
    replace ((0 <=? 0 + Z.of_nat (List.length pre))
             && (0 + Z.of_nat (List.length pre) <? Z.of_nat (List.length (pre ++ el :: post))))
      with true.
    2:{ symmetry. apply andb_true_iff. split; [apply Z.leb_le; lia|].
        apply Z.ltb_lt. rewrite length_app. simpl. lia. }
    replace (Z.to_nat (0 + Z.of_nat (List.length pre))) with (List.length pre) by lia.
    rewrite replace_nth_middle. reflexivity.
  - intros x Hx. rewrite upsert_test by auto. now rewrite Hpre.
  - rewrite upsert_test by auto. now rewrite Hel.
Qed.

Lemma upsert_appends fresh r items entity :
  isArray entity = false ->
  Forall defined items ->
  (forall x, In x items -> strict_equal (read x "id") (optional_id entity) = false) ->
  ArrayAdapter.upsert fresh (VArr r items) entity
  = Ok (mutated (VArr r (items ++ [entity]))).
Proof.
  intros Hna Hdef Hno. rewrite upsert_one by exact Hna.
  rewrite Forall_forall in Hdef. rewrite find_index_none.
  - reflexivity.
  - intros x Hx. rewrite upsert_test by auto. now rewrite Hno.
Qed.

End ArrayInUse.

(** Any run of [add] on an array appends the payloads in the order of the
    calls, whatever they are; [selectAll] then returns that array and
    [selectTotal] its length. *)
Theorem array_add_sequence (r : ref) (items : list value)
  (calls : list (ref * value)) (arg : value) :
  let final := VArr r (items ++ map snd calls) in
  steps ArrayAdapter.add calls (VArr r items) = Ok final
  /\ array_selectAll final arg = Ok final
  /\ array_selectTotal final arg
     = Ok (VNum (Z.of_nat (List.length items + List.length calls))).
Proof.
  intros final. split; [apply steps_add|]. split; [reflexivity|].
  unfold array_selectTotal, final. rewrite get_prop_length, length_app, length_map.
  reflexivity.
Qed.

(** [addMany] with a sequence is a run of [add], one per member, and two
    [addMany] in a row are one [addMany] of the concatenation. *)
Theorem array_addMany_is_adds (f1 f2 f3 r p1 p2 p3 : ref) (items xs ys : list value)
  (calls : list (ref * value)) :
  map snd calls = xs ->
  step ArrayAdapter.addMany f1 (VArr r items) (VArr p1 xs)
    = steps ArrayAdapter.add calls (VArr r items)
  /\ (st <- step ArrayAdapter.addMany f1 (VArr r items) (VArr p1 xs) ;;
      step ArrayAdapter.addMany f2 st (VArr p2 ys))
     = step ArrayAdapter.addMany f3 (VArr r items) (VArr p3 (xs ++ ys)).
Proof.
  intros <-. split.
  - rewrite steps_add. reflexivity.
  - cbn. now rewrite app_assoc.
Qed.

Lemma array_addMany_is_adds_witness :
  step ArrayAdapter.addMany 9%nat (VArr 0%nat [VNum 1]) (VArr 1%nat [VNum 2; VNull])
  = steps ArrayAdapter.add [(7%nat, VNum 2); (8%nat, VNull)] (VArr 0%nat [VNum 1]).
Proof.
  destruct (array_addMany_is_adds 9%nat 9%nat 9%nat 0%nat 1%nat 1%nat 1%nat
              [VNum 1] [VNum 2; VNull] [] [(7%nat, VNum 2); (8%nat, VNull)])
    as [Hsame _].
  - reflexivity.
  - exact Hsame.
Defined.

(** [remove] is idempotent: removing the same payload again changes
    nothing (the state has no [null] or [undefined] element when the payload
    is id-bearing). *)
Theorem array_remove_idempotent (f1 f2 r : ref) (items : list value) (payload : value) :
  (id_bearing payload = true -> Forall defined items) ->
  exists kept,
    step ArrayAdapter.remove f1 (VArr r items) payload = Ok (VArr f1 kept)
    /\ step ArrayAdapter.remove f2 (VArr f1 kept) payload = Ok (VArr f2 kept).
Proof.
  intros Hdef.
  set (keep := fun item =>
         negb (if id_bearing payload
               then strict_equal (read item "id") (read payload "id")
               else strict_equal item payload)).
  exists (filter keep items). unfold step.
  rewrite remove_filter by exact Hdef. cbn [bind]. split; [reflexivity|].
  rewrite remove_filter.
  - cbn [bind]. fold keep. f_equal. unfold next_state, replaced. cbn. f_equal.
    induction items as [|x rest IH]; simpl; auto.
    destruct (keep x) eqn:Hx; simpl; rewrite ?Hx; [f_equal|]; apply IH;
      intros Hb; specialize (Hdef Hb); now inversion Hdef.
  - intros Hb. specialize (Hdef Hb). rewrite Forall_forall in *.
    intros x Hx. apply filter_In in Hx. apply Hdef, Hx.
Qed.

Lemma array_remove_idempotent_witness :
  let a := VObj 1%nat [("id", VNum 1)] in
  let b := VObj 2%nat [("id", VNum 2)] in
  step ArrayAdapter.remove 8%nat (VArr 7%nat [b]) (VObj 4%nat [("id", VNum 1)])
  = Ok (VArr 8%nat [b])
  /\ step ArrayAdapter.remove 7%nat (VArr 0%nat [a; b; a]) (VObj 4%nat [("id", VNum 1)])
     = Ok (VArr 7%nat [b]).
Proof.
  intros a b.
  destruct (array_remove_idempotent 7%nat 8%nat 0%nat [a; b; a] (VObj 4%nat [("id", VNum 1)]))
    as (kept & H1 & H2).
  - intros _. repeat constructor.
  - assert (Hk : kept = [b]) by (cbn in H1; now inversion H1).
    subst kept. split; assumption.
Defined.

(** [upsert] of one entity, on a state whose elements up to the match (all
    of them when none matches) are neither [null] nor [undefined]: the
    first element whose [id] is strictly equal to the entity's ([undefined]
    when the entity has none) is replaced where it stands; when no element
    matches, the entity is appended. *)
Theorem array_upsert_single (fresh r : ref) (items : list value) (entity : value) :
  isArray entity = false ->
  let same_id := fun item => strict_equal (read item "id") (optional_id entity) in
  (forall pre el post,
     items = pre ++ el :: post ->
     Forall defined (pre ++ [el]) ->
     (forall x, In x pre -> same_id x = false) ->
     same_id el = true ->
     ArrayAdapter.upsert fresh (VArr r items) entity
     = Ok (mutated (VArr r (pre ++ entity :: post))))
  /\ (Forall defined items ->
      (forall x, In x items -> same_id x = false) ->
      ArrayAdapter.upsert fresh (VArr r items) entity
      = Ok (mutated (VArr r (items ++ [entity])))).
Proof.
  intros Hna same_id. split.
  - intros pre el post -> Hdef Hpre Hel. now apply upsert_replaces.
  - intros Hdef Hno. now apply upsert_appends.
Qed.

Lemma array_upsert_single_witness :
  let a := VObj 1%nat [("id", VNum 1); ("n", VStr "a")] in
  let b := VObj 2%nat [("id", VNum 2); ("n", VStr "b")] in
  let b' := VObj 3%nat [("id", VNum 2); ("n", VStr "c")] in
  ArrayAdapter.upsert 9%nat (VArr 0%nat [a; b; VNum 5]) b'
  = Ok (mutated (VArr 0%nat [a; b'; VNum 5])).
Proof.
  intros a b b'.
  destruct (array_upsert_single 9%nat 0%nat [a; b; VNum 5] b') as [Hreplace _].
  - reflexivity.
  - apply (Hreplace [a] b [VNum 5]).
    + reflexivity.
    + repeat constructor.
    + intros x [<-|[]]. reflexivity.
    + reflexivity.
Defined.

(** [upsert] of one entity that is neither [null] nor [undefined], and
    whose [id] is [===] to itself (any [id] but [NaN], which matches
    nothing and is appended at every call), is idempotent on a state
    without [null] or [undefined] elements. *)
Theorem array_upsert_idempotent (f1 f2 r : ref) (items : list value) (entity : value) :
  isArray entity = false ->
  defined entity ->
  self_equal (read entity "id") ->
  Forall defined items ->
  exists items',
    step ArrayAdapter.upsert f1 (VArr r items) entity = Ok (VArr r items')
    /\ step ArrayAdapter.upsert f2 (VArr r items') entity = Ok (VArr r items').
Proof.
  intros Hna He Hid Hdef. unfold step.
  assert (Hself : strict_equal (read entity "id") (optional_id entity) = true).
  { unfold optional_id. rewrite He. exact Hid. }
  destruct (first_match_or_none
              (fun item => strict_equal (read item "id") (optional_id entity)) items)
    as [(pre & el & post & -> & Hpre & Hel)|Hnone].
  - exists (pre ++ entity :: post).
    assert (Hdpre : Forall defined pre) by (apply Forall_app in Hdef; tauto).
    rewrite upsert_replaces; auto.
    + cbn [bind]. rewrite upsert_replaces; auto.
      apply Forall_app. split; auto.
    + apply Forall_app. split; auto. apply Forall_app in Hdef.
      destruct Hdef as [_ Hd]. inversion Hd; auto.
  - exists (items ++ [entity]).
    rewrite upsert_appends by auto. cbn [bind]. split; [reflexivity|].
    change (items ++ [entity]) with (items ++ entity :: []) at 1.
    rewrite upsert_replaces; auto.
    apply Forall_app. split; auto.
Qed.

Lemma array_upsert_idempotent_witness :
  let e := VObj 3%nat [("id", VStr "x")] in
  step ArrayAdapter.upsert 8%nat (VArr 0%nat [VNum 5; e]) e = Ok (VArr 0%nat [VNum 5; e]).
Proof.
  intros e.
  destruct (array_upsert_idempotent 7%nat 8%nat 0%nat [VNum 5] e) as (items' & H1 & H2).
  - reflexivity.
  - reflexivity.
  - reflexivity.
  - repeat constructor.
  - assert (Hk : items' = [VNum 5; e]) by (cbn in H1; now inversion H1).
    subst items'. exact H2.
Defined.

Section RemoveManyFacts.

Variables (fresh r : ref) (items : list value) (payload : value).

(** The guard [isIds] of the source computes [ids_form]. *)
Lemma isIds_guard :
  let arr := one_or_many payload in
  let first := nth 0 arr VUndefined in
  (if Nat.ltb 0 (List.length arr) && is_object first then
     has_id <- js_in "id" first ;;
     if has_id then
       first_id <- get_prop first "id" ;;
       Ok (String.eqb (typeof first_id) "string"
           || String.eqb (typeof first_id) "number")
     else Ok false
   else Ok false) = Ok (ids_form payload).
Proof.
  intros arr first. unfold ids_form. fold arr. subst first.
  destruct arr as [|x rest]; [reflexivity|]. cbn [nth List.length Nat.ltb Nat.leb andb].
  destruct x; try reflexivity.
  rewrite is_object_obj, js_in_obj. cbn [bind]. unfold has_key.
  rewrite get_prop_obj.
  destruct (lookup "id" props0) as [v|]; [|reflexivity]. cbn [bind].
  destruct v; reflexivity.
Qed.

Lemma removeMany_values :
  ids_form payload = false ->
  ArrayAdapter.removeMany fresh (VArr r items) payload =
  Ok (replaced (VArr r items)
        (VArr fresh (filter (fun item => negb (set_has (one_or_many payload) item)) items))).
Proof.
  intros Hform. unfold ArrayAdapter.removeMany. cbv zeta.
  rewrite isIds_guard, Hform. cbn [bind array_filter].
  rewrite (filter_items_pure _ (fun item => negb (set_has (one_or_many payload) item)))
    by reflexivity.
  reflexivity.
Qed.

Lemma map_items_pure {A} (f : value -> outcome A) (g : value -> A) xs :
  (forall x, In x xs -> f x = Ok (g x)) ->
  map_items f xs = Ok (map g xs).
Proof.
  induction xs as [|x rest IH]; intros H; simpl; auto.
  rewrite (H x) by now left. cbn [bind].
  rewrite IH by (intros; apply H; now right). reflexivity.
Qed.

Lemma set_has_strings_map keys k :
  set_has (map VStr keys) (VStr k) = existsb (String.eqb k) keys.
Proof.
  unfold set_has. induction keys as [|d rest IH]; simpl; auto. now rewrite IH.
Qed.

Lemma removeMany_ids :
  ids_form payload = true ->
  Forall defined (one_or_many payload) ->
  Forall defined items ->
  ArrayAdapter.removeMany fresh (VArr r items) payload =
  Ok (replaced (VArr r items)
        (VArr fresh
           (filter (fun item =>
                      negb (existsb (String.eqb (toId (read item "id")))
                              (map (fun x => toId (read x "id")) (one_or_many payload))))
                   items))).
Proof.
  intros Hform Harr Hitems. unfold ArrayAdapter.removeMany. cbv zeta.
  rewrite isIds_guard, Hform. cbn [bind].
  rewrite Forall_forall in Harr, Hitems.
  rewrite (map_items_pure _ (fun x => VStr (toId (read x "id")))).
  2:{ intros x Hx. rewrite (get_prop_defined x) by auto. reflexivity. }
  cbn [bind array_filter].
  rewrite (filter_items_pure _
             (fun item => negb (existsb (String.eqb (toId (read item "id")))
                                  (map (fun x => toId (read x "id")) (one_or_many payload))))).
  - reflexivity.
  - intros x Hx. rewrite (get_prop_defined x) by auto. cbn [bind].
    rewrite <- set_has_strings_map, map_map. reflexivity.
Qed.

End RemoveManyFacts.

Lemma same_value_zero_strict a b :
  self_equal b -> same_value_zero a b = strict_equal a b.
Proof. reflexivity. Qed.

(** [removeMany] by value. When the first item of the payload is not an
    object with a string or numeric [id], every element that the set of
    the payload's items (of the payload itself when it is not a sequence)
    holds is dropped, on any state; membership in a set is
    [SameValueZero]. So an empty sequence drops nothing; and for a payload
    that is not an object and is [===] to itself (any such payload but
    [NaN], which [removeMany] drops and [remove] keeps) [removeMany] does
    what [remove] does. *)
Theorem array_removeMany_by_value (fresh r : ref) (items : list value) (payload : value) :
  ids_form payload = false ->
  ArrayAdapter.removeMany fresh (VArr r items) payload =
    Ok (replaced (VArr r items)
          (VArr fresh
             (filter (fun item => negb (set_has (one_or_many payload) item)) items)))
  /\ (one_or_many payload = [] ->
      ArrayAdapter.removeMany fresh (VArr r items) payload
      = Ok (replaced (VArr r items) (VArr fresh items)))
  /\ (is_object payload = false -> self_equal payload ->
      ArrayAdapter.removeMany fresh (VArr r items) payload
      = ArrayAdapter.remove fresh (VArr r items) payload).
Proof.
  intros Hform. rewrite removeMany_values by exact Hform. split; [reflexivity|]. split.
  - intros ->.
    assert (Hall : filter (fun item => negb (set_has [] item)) items = items).
    { unfold set_has. induction items as [|x rest IH]; simpl in *; congruence. }
    now rewrite Hall.
  - intros Hobj Hself. rewrite remove_filter.
    + assert (Hb : id_bearing payload = false) by (destruct payload; try reflexivity; discriminate).
      rewrite Hb.
      assert (Hone : one_or_many payload = [payload])
        by (destruct payload; try reflexivity; discriminate).
      rewrite Hone.
      assert (Hsame : filter (fun item => negb (set_has [payload] item)) items
                      = filter (fun item => negb (strict_equal item payload)) items).
      { apply filter_ext. intros x. unfold set_has. cbn [existsb].
        now rewrite orb_false_r, (same_value_zero_strict x payload Hself). }
      now rewrite Hsame.
    + intros Hb. destruct payload; discriminate.
Qed.

Lemma array_removeMany_by_value_witness :
  ArrayAdapter.removeMany 9%nat (VArr 0%nat [VNum 1; VStr "1"; VNum 2; VNum 1])
    (VArr 1%nat [VNum 1; VNum 2])
  = Ok (replaced (VArr 0%nat [VNum 1; VStr "1"; VNum 2; VNum 1]) (VArr 9%nat [VStr "1"])).
Proof.
  destruct (array_removeMany_by_value 9%nat 0%nat [VNum 1; VStr "1"; VNum 2; VNum 1]
              (VArr 1%nat [VNum 1; VNum 2])) as [Hrun _].
  - reflexivity.
  - exact Hrun.
Defined.



Section UpdateLength.

Variables (fresh r : ref) (items : list value) (payload : value).
Hypothesis items_defined : Forall defined items.

Lemma array_update_keeps_length :
  exists items',
    ArrayAdapter.update fresh (VArr r items) payload = Ok (mutated (VArr r items'))
    /\ List.length items' = List.length items.
Proof.
  unfold ArrayAdapter.update.
  destruct (is_object payload) eqn:Hobj; [|eauto].
  assert (Hp : defined payload) by now apply is_object_defined.
  assert (Hin : forall key, exists b, js_in key payload = Ok b).
  { intros key. destruct (is_object_cases _ Hobj) as [(pr & pps & ->)|(pr & xs & ->)];
      cbn [js_in]; eauto.
    destruct (String.eqb key "length"); eauto. destruct (index_of_key key); eauto. }
  destruct (Hin "at") as [has_at ->]. cbn [bind].
  rewrite (get_prop_defined payload) by auto. cbn [bind].
  assert (Hrest :
    exists items',
      (has_id <- js_in "id" payload ;;
       has_changes <- js_in "changes" payload ;;
       if has_id && has_changes then
         idx <- array_findIndex (VArr r items) (fun item =>
                  item_id <- get_prop item "id" ;;
                  payload_id <- get_prop payload "id" ;;
                  Ok (strict_equal item_id payload_id)) ;;
         if 0 <=? idx then
           el <- get_index (VArr r items) idx ;;
           if is_object el then
             changes <- get_prop payload "changes" ;;
             st <- set_index (VArr r items) idx
                     (VObj fresh (spread (spread [] (own_props el)) (own_props changes))) ;;
             Ok (mutated st)
           else Ok (mutated (VArr r items))
         else Ok (mutated (VArr r items))
       else Ok (mutated (VArr r items))) = Ok (mutated (VArr r items'))
      /\ List.length items' = List.length items).
  { destruct (Hin "id") as [has_id ->]. destruct (Hin "changes") as [has_changes ->].
    cbn [bind]. destruct (has_id && has_changes); [|eauto].
    cbn [array_findIndex].
    destruct (find_index_total
                (fun item => item_id <- get_prop item "id" ;;
                             payload_id <- get_prop payload "id" ;;
                             Ok (strict_equal item_id payload_id)) items 0)
      as (idx & Hrun & Hrange).
    { intros x Hx. apply id_test_total with (other := payload).
      - rewrite Forall_forall in items_defined. auto.
      - rewrite (get_prop_defined payload) by auto. eauto. }
    rewrite Hrun. cbn [bind]. destruct (0 <=? idx) eqn:Hidx; [|eauto].
    apply Z.leb_le in Hidx.
    destruct (get_index_total (VArr r items) idx eq_refl) as [el ->]. cbn [bind].
    destruct (is_object el); [|eauto].
    rewrite (get_prop_defined payload) by auto. cbn [bind].
    rewrite set_index_in_range by lia. cbn [bind].
    eexists. split; [reflexivity|]. apply replace_nth_length. }
  destruct has_at; [|exact Hrest].
  destruct (read payload "at"); try exact Hrest.
  destruct (0 <=? n) eqn:H0; cbn [bind].
  - rewrite get_prop_length. cbn [bind number_lt].
    destruct (n <? Z.of_nat (List.length items)) eqn:H1; [|eauto].
    rewrite (get_prop_defined payload) by auto. cbn [bind].
    apply Z.leb_le in H0. apply Z.ltb_lt in H1.
    rewrite set_index_in_range by lia. cbn [bind].
    eexists. split; [reflexivity|]. apply replace_nth_length.
  - eauto.
Qed.

End UpdateLength.

(** [update] never adds or removes an element: on a state without [null]
    or [undefined] elements it completes for every payload with a sequence of
    the same length. *)
Theorem array_update_never_resizes (fresh r : ref) (items : list value) (payload : value) :
  Forall defined items ->
  exists items',
    step ArrayAdapter.update fresh (VArr r items) payload = Ok (VArr r items')
    /\ List.length items' = List.length items.
Proof.
  intros Hdef.
  destruct (array_update_keeps_length fresh r items payload Hdef) as (items' & Hrun & Hlen).
  exists items'. unfold step. rewrite Hrun. split; [reflexivity | exact Hlen].
Qed.

Lemma array_update_never_resizes_witness :
  exists items',
    step ArrayAdapter.update 9%nat (VArr 0%nat [VNum 1; VNum 2])
      (VObj 1%nat [("at", VNum 5); ("value", VNum 0)]) = Ok (VArr 0%nat items')
    /\ List.length items' = 2%nat.
Proof.
  apply (array_update_never_resizes 9%nat 0%nat [VNum 1; VNum 2]
           (VObj 1%nat [("at", VNum 5); ("value", VNum 0)])).
  repeat constructor.
Defined.

(** ** The entity adapter in use *)

Section EntityInUse.

Lemma assign_lookup_same key v ps :
  lookup key ps = Some v -> assign key v ps = ps.
Proof.
  induction ps as [|[k w] rest IH]; simpl; [discriminate|].
  destruct (String.eqb_spec key k) as [->|Hne].
  - intros H; inversion H; reflexivity.
  - intros H. now rewrite IH.
Qed.

Lemma remove_key_absent key ps :
  has_key key ps = false -> remove_key key ps = ps.
Proof.
  unfold has_key, remove_key. induction ps as [|[k w] rest IH]; simpl; auto.
  destruct (String.eqb_spec key k) as [->|Hne]; [discriminate|].
  intros H. simpl. now rewrite IH.
Qed.



Variables (r re ri : ref) (ps ents : props) (ids : list value).
Hypothesis entities_here : lookup "entities" ps = Some (VObj re ents).
Hypothesis ids_here : lookup "ids" ps = Some (VArr ri ids).

Let state := VObj r ps.





End EntityInUse.

Section EntityRemoval.

Variables (re ri : ref) (ids : list value).




End EntityRemoval.







Section EntityPatches.



Lemma increment_cases ents keyId field :
  (exists er eps n, lookup keyId ents = Some (VObj er eps)
                    /\ lookup field eps = Some (VNum n))
  \/ (forall er eps n, lookup keyId ents = Some (VObj er eps) ->
                       lookup field eps <> Some (VNum n)).
Proof.
  destruct (lookup keyId ents) as [[| | | | |er eps|]|]; try (right; congruence).
  destruct (lookup field eps) as [[| | |n| | |]|] eqn:Hf;
    try (right; intros er' eps' b' [= <- <-]; congruence).
  left. eauto.
Qed.


End EntityPatches.





(** [increment] by [a] and then by [b], same entity and same field, is
    [increment] by [a + b] while the sums are exact, that is while [a + b]
    and the field's number with [a] and with [a + b] added are safe
    integers; where the entity or its numeric field is not there, all three
    leave the state as it is (for an id that names no inherited member).
    Beyond the safe integers sums are rounded and increments do not
    compose: from [2^53] two increments by 1 leave [2^53], one increment by
    2 gives [2^53 + 2]. *)
Theorem entity_increment_composes (f1 f2 f3 r re pr : ref) (ps ents : props)
  (id fld : value) (a b : Z) :
  lookup "entities" ps = Some (VObj re ents) ->
  (forall key e, lookup key ents = Some e -> exists er eps, e = VObj er eps) ->
  ~ In (toId id) inherited_names ->
  safe_integer a -> safe_integer b -> safe_integer (a + b) ->
  (forall er eps n,
     lookup (toId id) ents = Some (VObj er eps) ->
     lookup (to_string (default_to fld (VStr "value"))) eps = Some (VNum n) ->
     safe_integer (n + a) /\ safe_integer (n + a + b)) ->
  let by_amount n := VObj pr [("id", id); ("field", fld); ("amount", VNum n)] in
  (st1 <- step EntityAdapter.increment f1 (VObj r ps) (by_amount a) ;;
   step EntityAdapter.increment f2 st1 (by_amount b))
  = step EntityAdapter.increment f3 (VObj r ps) (by_amount (a + b))
  /\ (let holding v :=
        VObj r [("entities", VObj re [("k", VObj pr [("value", VNum v)])])] in
      let by_one := VObj pr [("id", VStr "k"); ("amount", VNum 1)] in
      let by_two := VObj pr [("id", VStr "k"); ("amount", VNum 2)] in
      (st1 <- step EntityAdapter.increment f1 (holding (2 ^ 53)) by_one ;;
       step EntityAdapter.increment f2 st1 by_one) = Ok (holding (2 ^ 53))
      /\ step EntityAdapter.increment f3 (holding (2 ^ 53)) by_two
         = Ok (holding (2 ^ 53 + 2))).
Proof.
  intros Hents Hobj Hown _ _ _ Hsafe by_amount. split; [|split; reflexivity].
  unfold step.
  set (keyId := toId id) in *.
  set (field := to_string (default_to fld (VStr "value"))) in *.
  destruct (increment_cases ents keyId field) as [(er & eps & n & He & Hf)|Hno].
  - destruct (Hsafe er eps n He Hf) as [Hna Hnab].
    rewrite (increment_adds f1 r re ps ents (by_amount a) Hents er eps n a (n + a)
               He Hf eq_refl (round_double_exact _ Hna)).
    rewrite (increment_adds f3 r re ps ents (by_amount (a + b)) Hents er eps n (a + b)
               (n + (a + b)) He Hf eq_refl).
    2:{ apply round_double_exact. now rewrite Z.add_assoc. }
    cbn [bind]. rewrite !next_state_mutated.
    rewrite (increment_adds f2 r re _
               (assign keyId (VObj er (assign field (VNum (n + a)) eps)) ents)
               (by_amount b) (lookup_assign_same _ _ _) er
               (assign field (VNum (n + a)) eps) (n + a) b (n + a + b)
               (lookup_assign_same _ _ _) (lookup_assign_same _ _ _) eq_refl
               (round_double_exact _ Hnab)).
    cbn [bind]. rewrite next_state_mutated.
    change (toId (read (coalesce (by_amount a) (VObj f1 [])) "id")) with keyId.
    change (toId (read (coalesce (by_amount b) (VObj f2 [])) "id")) with keyId.
    change (toId (read (coalesce (by_amount (a + b)) (VObj f3 [])) "id")) with keyId.
    change (to_string (default_to (read (coalesce (by_amount a) (VObj f1 [])) "field")
                         (VStr "value"))) with field.
    change (to_string (default_to (read (coalesce (by_amount b) (VObj f2 [])) "field")
                         (VStr "value"))) with field.
    change (to_string (default_to (read (coalesce (by_amount (a + b)) (VObj f3 [])) "field")
                         (VStr "value"))) with field.
    now rewrite !assign_assign, Z.add_assoc.
  - rewrite (increment_noop f1 r re ps ents (by_amount a) Hents Hown Hobj Hno).
    cbn [bind]. rewrite next_state_mutated.
    rewrite (increment_noop f2 r re ps ents (by_amount b) Hents Hown Hobj Hno).
    now rewrite (increment_noop f3 r re ps ents (by_amount (a + b)) Hents Hown Hobj Hno).
Qed.

Lemma entity_increment_composes_witness :
  let state := VObj 0%nat [("entities",
                  VObj 1%nat [("a", VObj 5%nat [("id", VStr "a"); ("value", VNum 10)])]);
                ("ids", VArr 2%nat [VStr "a"])] in
  let by_amount n := VObj 7%nat [("id", VStr "a"); ("field", VUndefined); ("amount", VNum n)] in
  (st1 <- step EntityAdapter.increment 8%nat state (by_amount 2) ;;
   step EntityAdapter.increment 9%nat st1 (by_amount 3))
  = step EntityAdapter.increment 10%nat state (by_amount 5).
Proof.
  intros state by_amount.
  apply (entity_increment_composes 8%nat 9%nat 10%nat 0%nat 1%nat 7%nat _
           [("a", VObj 5%nat [("id", VStr "a"); ("value", VNum 10)])]
           (VStr "a") VUndefined 2 3).
  - reflexivity.
  - intros key e. simpl. destruct (String.eqb key "a"); [|discriminate].
    intros [= <-]. eauto.
  - simpl. intuition discriminate.
  - unfold safe_integer. simpl. lia.
  - unfold safe_integer. simpl. lia.
  - unfold safe_integer. simpl. lia.
  - intros er eps n. simpl. intros [= <- <-]. simpl. intros [= <-].
    unfold safe_integer. simpl. lia.
Defined.

(** [addMany] and [add] run to the same outcome on a payload that is a
    sequence. They part on the others: on [null] or [undefined], [addMany]
    leaves the state as it is and [add] raises; on a defined payload that
    is neither a sequence nor a string, [addMany] raises, whatever the
    state. *)
Theorem entity_addMany_versus_add (fresh : ref) (state payload : value) :
  (isArray payload = true ->
   EntityAdapter.addMany fresh state payload = EntityAdapter.add fresh state payload)
  /\ (nullish payload = true ->
      step EntityAdapter.addMany fresh state payload = Ok state
      /\ EntityAdapter.add fresh state payload = Throw TypeError)
  /\ (defined payload -> isArray payload = false -> typeof payload <> "string" ->
      EntityAdapter.addMany fresh state payload = Throw TypeError).
Proof.
  split; [|split].
  - destruct payload; try discriminate. reflexivity.
  - destruct payload; try discriminate; split; reflexivity.
  - unfold defined. destruct payload; try discriminate; try reflexivity.
    intros _ _ H. now elim H.
Qed.

Lemma entity_addMany_versus_add_witness :
  step EntityAdapter.addMany 9%nat (getEmptyEntityState 0%nat) VNull
    = Ok (getEmptyEntityState 0%nat)
  /\ EntityAdapter.add 9%nat (getEmptyEntityState 0%nat) VNull = Throw TypeError
  /\ EntityAdapter.addMany 9%nat (getEmptyEntityState 0%nat)
       (VObj 5%nat [("id", VNum 1)]) = Throw TypeError.
Proof.
  destruct (entity_addMany_versus_add 9%nat (getEmptyEntityState 0%nat) VNull)
    as (_ & Hnull & _).
  destruct (entity_addMany_versus_add 9%nat (getEmptyEntityState 0%nat)
              (VObj 5%nat [("id", VNum 1)])) as (_ & _ & Hobj).
  destruct (Hnull eq_refl) as [H1 H2].
  split; [exact H1|]. split; [exact H2|].
  apply Hobj; [reflexivity | reflexivity | discriminate].
Defined.

(** In the entity adapter [removeMany] is [remove]: the reducers run to the
    same outcome on every state and payload. In the array adapter they are
    two reducers: on a payload that is a sequence of elements, [remove]
    compares each element with the sequence itself and drops nothing,
    [removeMany] drops the elements that are members of it. *)
Theorem removeMany_versus_remove :
  (forall fresh state payload,
     EntityAdapter.removeMany fresh state payload
     = EntityAdapter.remove fresh state payload)
  /\ (forall fresh r pr items xs,
        ids_form (VArr pr xs) = false ->
        Forall (fun x => strict_equal x (VArr pr xs) = false) items ->
        step ArrayAdapter.remove fresh (VArr r items) (VArr pr xs)
        = Ok (VArr fresh items)
        /\ step ArrayAdapter.removeMany fresh (VArr r items) (VArr pr xs)
           = Ok (VArr fresh (filter (fun item => negb (set_has xs item)) items))).
Proof.
  split; [reflexivity|].
  intros fresh r pr items xs Hform Hitems. split.
  - unfold step. rewrite remove_filter by discriminate.
    cbn [bind]. unfold next_state, replaced; cbn [returned strict_equal].
    do 2 f_equal. change (id_bearing (VArr pr xs)) with false. cbn iota.
    induction items as [|x rest IH]; [reflexivity|].
    inversion Hitems as [|? ? Hx Hrest]; subst. cbn [filter].
    rewrite Hx. cbn [negb]. f_equal. now apply IH.
  - unfold step. rewrite removeMany_values by exact Hform. reflexivity.
Qed.

Lemma removeMany_versus_remove_witness :
  step ArrayAdapter.remove 9%nat (VArr 0%nat [VNum 1; VNum 2; VNum 3])
    (VArr 5%nat [VNum 1; VNum 3])
  = Ok (VArr 9%nat [VNum 1; VNum 2; VNum 3])
  /\ step ArrayAdapter.removeMany 9%nat (VArr 0%nat [VNum 1; VNum 2; VNum 3])
       (VArr 5%nat [VNum 1; VNum 3])
     = Ok (VArr 9%nat [VNum 2]).
Proof.
  destruct removeMany_versus_remove as [_ H].
  apply (H 9%nat 0%nat 5%nat [VNum 1; VNum 2; VNum 3] [VNum 1; VNum 3]).
  - reflexivity.
  - repeat constructor.
Defined.

(** [add] of a sequence is [add] of its members one after the other, and
    so are [upsert] and [addMany] of the sequence: a run of dispatches of
    [add], one entity each, ends as the one dispatch of the sequence of
    the entities does, in outcome and in state. *)
Theorem entity_add_sequence_is_repeated_add (fresh pr : ref)
  (calls : list (ref * value)) (state : value) :
  Forall (fun call => isArray (snd call) = false) calls ->
  let entities := VArr pr (map snd calls) in
  steps EntityAdapter.add calls state = step EntityAdapter.add fresh state entities
  /\ steps EntityAdapter.add calls state = step EntityAdapter.upsert fresh state entities
  /\ steps EntityAdapter.add calls state = step EntityAdapter.addMany fresh state entities.
Proof.
  intros Hsingle entities.
  assert (Hmany : forall st, step EntityAdapter.add fresh st entities
                             = for_of (map snd calls) upsert_turn st).
  { intros st. unfold step, EntityAdapter.add. cbn [one_or_many entities].
    change (bind (bind (for_of (map snd calls) upsert_turn st)
                    (fun st' => Ok (mutated st')))
              (fun red => Ok (next_state red))
            = for_of (map snd calls) upsert_turn st).
    destruct (for_of (map snd calls) upsert_turn st); reflexivity. }
  assert (Hone : forall f st x, isArray x = false ->
                                step EntityAdapter.add f st x = upsert_turn st x).
  { intros f st x Hx. unfold step, EntityAdapter.add.
    assert (Hsingle1 : one_or_many x = [x])
      by (destruct x; try reflexivity; discriminate).
    rewrite Hsingle1.
    change (bind (bind (for_of [x] upsert_turn st) (fun st' => Ok (mutated st')))
              (fun red => Ok (next_state red))
            = upsert_turn st x).
    cbn [for_of]. destruct (upsert_turn st x); reflexivity. }
  assert (Hrun : steps EntityAdapter.add calls state
                 = step EntityAdapter.add fresh state entities).
  { rewrite Hmany. clear Hmany entities. revert state.
    induction calls as [|[f x] rest IH]; intros state; [reflexivity|].
    inversion Hsingle as [|? ? Hx Hrest]; subst. cbn [snd] in Hx.
    cbn [steps map snd for_of]. rewrite Hone by exact Hx.
    destruct (upsert_turn state x); cbn [bind]; try reflexivity. now apply IH. }
  split; [exact Hrun|]. split; [exact Hrun|]. rewrite Hrun. reflexivity.
Qed.

Lemma entity_add_sequence_is_repeated_add_witness :
  let a := VObj 5%nat [("id", VNum 1)] in
  let b := VObj 6%nat [("id", VNum 2)] in
  steps EntityAdapter.add [(7%nat, a); (8%nat, b)] (getEmptyEntityState 0%nat)
  = step EntityAdapter.addMany 9%nat (getEmptyEntityState 0%nat) (VArr 4%nat [a; b]).
Proof.
  intros a b.
  apply (entity_add_sequence_is_repeated_add 9%nat 4%nat [(7%nat, a); (8%nat, b)]
           (getEmptyEntityState 0%nat)).
  repeat constructor.
Defined.

(** ** What the entity reducers leave alone *)

Ltac bind_step H :=
  match type of H with
  | bind ?m _ = Ok _ =>
      let E := fresh "E" in
      destruct m eqn:E; cbn [bind] in H; [|discriminate H|discriminate H]
  end.

Ltac bind_name H x E :=
  match type of H with
  | bind ?m _ = Ok _ =>
      destruct m as [x| |] eqn:E; cbn [bind] in H; [|discriminate H|discriminate H]
  end.

Section Frames.

Variable owned : list string.

Lemma keeps_others_refl r ps : keeps_others owned (VObj r ps) (VObj r ps).
Proof. exists r, ps, ps. auto. Qed.

Lemma keeps_others_trans a b c :
  keeps_others owned a b -> keeps_others owned b c -> keeps_others owned a c.
Proof.
  intros (r & ps & ps1 & -> & -> & H1) (r' & ps1' & ps2 & [= <- <-] & -> & H2).
  exists r, ps, ps2. repeat split. intros k Hk. now rewrite H2, H1.
Qed.

Lemma set_prop_keeps r ps key v st' :
  In key owned -> set_prop (VObj r ps) key v = Ok st' ->
  keeps_others owned (VObj r ps) st'.
Proof.
  intros Hin [= <-]. exists r, ps, (assign key v ps). repeat split.
  intros k Hk. apply lookup_assign_other. congruence.
Qed.

Lemma modify_prop_keeps r ps key f st' :
  In key owned -> modify_prop (VObj r ps) key f = Ok st' ->
  keeps_others owned (VObj r ps) st'.
Proof.
  intros Hin H. unfold modify_prop in H. rewrite get_prop_obj in H. cbn [bind] in H.
  bind_step H. now apply set_prop_keeps in H.
Qed.

Lemma for_of_keeps {A} (body : value -> A -> outcome value) items :
  (forall r ps x st', body (VObj r ps) x = Ok st' -> keeps_others owned (VObj r ps) st') ->
  forall r ps st', for_of items body (VObj r ps) = Ok st' ->
                   keeps_others owned (VObj r ps) st'.
Proof.
  intros Hbody. induction items as [|x rest IH]; intros r ps st' H; cbn [for_of] in H.
  - inversion H. apply keeps_others_refl.
  - bind_step H. pose proof (Hbody _ _ _ _ E) as Hk.
    destruct Hk as (r0 & ps0 & ps1 & [= <- <-] & -> & Hk).
    eapply keeps_others_trans; [|apply IH; exact H].
    exists r, ps, ps1. auto.
Qed.

End Frames.

Lemma upsert_turn_frame r ps entity st' :
  upsert_turn (VObj r ps) entity = Ok st' ->
  keeps_others ["entities"; "ids"] (VObj r ps) st'.
Proof.
  intros H. unfold upsert_turn in H. do 2 bind_step H. bind_name H st1 Est.
  apply (modify_prop_keeps ["entities"; "ids"]) in Est; [|simpl; tauto].
  destruct Est as (r0 & ps0 & ps1 & [= <- <-] & -> & Hk).
  bind_step H. bind_name H known Eknown.
  assert (H1 : keeps_others ["entities"; "ids"] (VObj r ps) (VObj r ps1))
    by (exists r, ps, ps1; auto).
  destruct known.
  - inversion H; subst. exact H1.
  - eapply keeps_others_trans; [exact H1|].
    apply (modify_prop_keeps ["entities"; "ids"]) in H; [exact H|simpl; tauto].
Qed.

Lemma upsert_loop_frame items r ps st' :
  for_of items upsert_turn (VObj r ps) = Ok st' ->
  keeps_others ["entities"; "ids"] (VObj r ps) st'.
Proof.
  intros H. eapply for_of_keeps; [|exact H].
  intros r0 ps0 x st0 Hx. exact (upsert_turn_frame _ _ _ _ Hx).
Qed.

Lemma remove_frame fresh r ps payload red :
  EntityAdapter.remove fresh (VObj r ps) payload = Ok red ->
  keeps_others ["entities"; "ids"] (VObj r ps) (next_state red).
Proof.
  intros H. unfold EntityAdapter.remove in H. cbv zeta in H. bind_name H st1 E.
  apply (for_of_keeps ["entities"; "ids"]) in E.
  2:{ intros r0 ps0 x st' Hx.
      apply (modify_prop_keeps ["entities"; "ids"]) in Hx; [exact Hx|simpl; tauto]. }
  pose proof E as (r0 & ps0 & ps1 & [= <- <-] & -> & Hk).
  do 2 bind_step H. bind_name H st2 Eset. inversion H; subst.
  rewrite next_state_mutated.
  eapply keeps_others_trans; [exact E|].
  apply (set_prop_keeps ["entities"; "ids"]) in Eset; [exact Eset|simpl; tauto].
Qed.

Lemma patch_frame r ps (f : value -> outcome value) red :
  (st <- modify_prop (VObj r ps) "entities" f ;; Ok (mutated st)) = Ok red ->
  keeps_others ["entities"] (VObj r ps) (next_state red).
Proof.
  intros H. bind_step H. inversion H; subst. rewrite next_state_mutated.
  apply (modify_prop_keeps ["entities"]) in E; [exact E|simpl; tauto].
Qed.

Lemma update_frame fresh r ps payload red :
  EntityAdapter.update fresh (VObj r ps) payload = Ok red ->
  keeps_others ["entities"] (VObj r ps) (next_state red).
Proof.
  intros H. unfold EntityAdapter.update in H. do 4 bind_step H.
  bind_name H found Efound. cbv zeta in H.
  assert (Hsame : Ok (mutated (VObj r ps)) = Ok red ->
                  keeps_others ["entities"] (VObj r ps) (next_state red))
    by (intros [= <-]; rewrite next_state_mutated; apply keeps_others_refl).
  destruct found as [e| |]; [destruct (truthy e)| |]; auto;
    now apply patch_frame in H.
Qed.

Lemma increment_frame fresh r ps payload red :
  EntityAdapter.increment fresh (VObj r ps) payload = Ok red ->
  keeps_others ["entities"] (VObj r ps) (next_state red).
Proof.
  intros H. unfold EntityAdapter.increment in H. cbv zeta in H. do 4 bind_step H.
  bind_name H found Efound.
  assert (Hsame : Ok (mutated (VObj r ps)) = Ok red ->
                  keeps_others ["entities"] (VObj r ps) (next_state red))
    by (intros [= <-]; rewrite next_state_mutated; apply keeps_others_refl).
  destruct found as [existing| |]; [| |auto].
  2:{ destruct (String.eqb _ "length"); discriminate H. }
  destruct (truthy _); [|auto]. bind_name H has_field Ein. destruct has_field; [|auto].
  bind_name H current Ecur. destruct current; auto.
  do 2 bind_step H. now apply patch_frame in H.
Qed.

Lemma toggle_frame fresh r ps payload red :
  EntityAdapter.toggle fresh (VObj r ps) payload = Ok red ->
  keeps_others ["entities"] (VObj r ps) (next_state red).
Proof.
  intros H. unfold EntityAdapter.toggle in H. cbv zeta in H. do 3 bind_step H.
  bind_name H found Efound.
  assert (Hsame : Ok (mutated (VObj r ps)) = Ok red ->
                  keeps_others ["entities"] (VObj r ps) (next_state red))
    by (intros [= <-]; rewrite next_state_mutated; apply keeps_others_refl).
  destruct found as [existing| |]; [|discriminate H|auto].
  destruct (truthy _); [|auto]. bind_name H has_field Ein. destruct has_field; [|auto].
  bind_name H current Ecur. destruct current; auto.
  bind_step H. now apply patch_frame in H.
Qed.

Lemma keeps_others_more owned owned' st st' :
  incl owned owned' -> keeps_others owned st st' -> keeps_others owned' st st'.
Proof.
  intros Hincl (r & ps & ps' & -> & -> & H). exists r, ps, ps'. repeat split.
  intros k Hk. apply H. intros Hin. apply Hk. now apply Hincl.
Qed.

(** On a state object, every entity reducer other than [clear] and [set]
    that completes gives the same object with, at most, [entities] and
    [ids] written to: any other property of the state, such as the
    lifecycle fields of an async slice, is as it was. [update],
    [increment] and [toggle] do not write to [ids] either. [clear] gives a
    state that has [entities] and [ids] and no other property of its
    own. *)
Theorem entity_reducers_keep_other_fields (fresh r : ref) (ps : props)
  (payload : value) (reducerName : string) (op : reducer) (red : reduction) :
  entity_case reducerName = Some op ->
  op fresh (VObj r ps) payload = Ok red ->
  (reducerName <> "clear" -> reducerName <> "set" ->
   keeps_others ["entities"; "ids"] (VObj r ps) (next_state red))
  /\ (In reducerName ["update"; "increment"; "toggle"] ->
      keeps_others ["entities"] (VObj r ps) (next_state red))
  /\ (reducerName = "clear" ->
      forall key, key <> "entities" -> key <> "ids" -> ~ In key inherited_names ->
                  read (next_state red) key = VUndefined).
Proof.
  intros Hcase Hrun.
  assert (Hloop : forall items,
            (st <- for_of items upsert_turn (VObj r ps) ;; Ok (mutated st)) = Ok red ->
            keeps_others ["entities"; "ids"] (VObj r ps) (next_state red)).
  { intros items H. bind_step H. inversion H; subst. rewrite next_state_mutated.
    now apply upsert_loop_frame in E. }
  assert (Hmore : keeps_others ["entities"] (VObj r ps) (next_state red) ->
                  keeps_others ["entities"; "ids"] (VObj r ps) (next_state red)).
  { apply keeps_others_more. intros k [<-|[]]. now left. }
  apply entity_case_cases in Hcase.
  repeat (destruct Hcase as [[-> ->]|Hcase]); [..|destruct Hcase as [-> ->]].
  all: (split; [intros Hc Hs|split; [intros Hin|intros Hc]]); try congruence.
  all: try (simpl in Hin; repeat (destruct Hin as [Hin|Hin]; try discriminate Hin);
            try contradiction).
  all: try (now apply remove_frame in Hrun).
  all: try (now apply (Hloop (one_or_many payload))).
  all: try (unfold EntityAdapter.addMany in Hrun; bind_name Hrun items Eit;
            now apply (Hloop items)).
  all: try (apply Hmore).
  all: try (now apply update_frame in Hrun).
  all: try (now apply increment_frame in Hrun).
  all: try (now apply toggle_frame in Hrun).
  inversion Hrun; subst. intros key H1 H2 _.
  unfold next_state, replaced; cbn [returned strict_equal].
  rewrite read_obj. cbn [lookup].
  destruct (String.eqb_spec key "entities"); [contradiction|].
  destruct (String.eqb_spec key "ids"); [contradiction|]. reflexivity.
Qed.

Lemma entity_reducers_keep_other_fields_witness :
  keeps_others ["entities"; "ids"]
    (VObj 0%nat [("entities", VObj 1%nat []); ("ids", VArr 2%nat []);
                 ("loading", VBool true)])
    (VObj 0%nat [("entities", VObj 1%nat [("7", VObj 5%nat [("id", VNum 7)])]);
                 ("ids", VArr 2%nat [VStr "7"]); ("loading", VBool true)]).
Proof.
  destruct (entity_reducers_keep_other_fields 9%nat 0%nat
              [("entities", VObj 1%nat []); ("ids", VArr 2%nat []);
               ("loading", VBool true)]
              (VObj 5%nat [("id", VNum 7)]) "add" EntityAdapter.add
              (mutated (VObj 0%nat
                 [("entities", VObj 1%nat [("7", VObj 5%nat [("id", VNum 7)])]);
                  ("ids", VArr 2%nat [VStr "7"]); ("loading", VBool true)])))
    as (Hkeeps & _ & _).
  - reflexivity.
  - reflexivity.
  - apply Hkeeps; discriminate.
Defined.

Section Selectors.

Variables (fresh r re ri : ref) (ps ents : props).
Hypothesis entities_here : lookup "entities" ps = Some (VObj re ents).

Lemma selectAll_reads keys :
  (forall k, In k keys -> ~ In k inherited_names) ->
  map_items (fun id =>
               es <- get_prop (VObj r ps) "entities" ;;
               key <- computed_key (to_string id) ;;
               select_member es key) (map VStr keys)
  = Ok (map (fun k => match lookup k ents with Some v => v | None => VUndefined end) keys).
Proof.
  intros Hown.
  rewrite (map_items_pure _
             (fun id => match lookup (to_string id) ents with
                        | Some v => v
                        | None => VUndefined
                        end)).
  - now rewrite map_map.
  - intros x Hx. apply in_map_iff in Hx. destruct Hx as (k & <- & Hk).
    rewrite get_prop_obj, entities_here. cbn [bind].
    change (to_string (VStr k)) with k.
    rewrite computed_key_plain
      by (intros ->; apply (Hown _ Hk); cbv [inherited_names In]; tauto).
    cbn [bind]. unfold select_member.
    destruct (lookup k ents) as [v|] eqn:Hv.
    + now rewrite (get_member_own _ _ _ _ Hv).
    + now rewrite (get_member_absent _ _ _ Hv (Hown _ Hk)).
Qed.

End Selectors.

(** [selectAll] lists, in the order of [ids], the entities that stand
    under the identifiers, leaving out an identifier with no entity (or a
    falsy one); [selectTotal] counts the identifiers, so it equals the
    length of [selectAll] when every identifier has an entity that is an
    object. The identifiers are strings that name no inherited member. *)
Theorem entity_selectAll_in_ids_order (fresh r re ri : ref) (ps ents : props)
  (keys : list string) :
  lookup "entities" ps = Some (VObj re ents) ->
  lookup "ids" ps = Some (VArr ri (map VStr keys)) ->
  (forall k, In k keys -> ~ In k inherited_names) ->
  let found := map (fun k => match lookup k ents with
                             | Some v => v
                             | None => VUndefined
                             end) keys in
  entity_selectAll fresh (VObj r ps) VUndefined = Ok (VArr fresh (filter truthy found))
  /\ entity_selectTotal (VObj r ps) VUndefined = Ok (VNum (Z.of_nat (List.length keys)))
  /\ ((forall k, In k keys -> exists er eps, lookup k ents = Some (VObj er eps)) ->
      filter truthy found = found /\ List.length found = List.length keys).
Proof.
  intros Hents Hids Hown found.
  split; [|split].
  - unfold entity_selectAll. rewrite get_prop_obj, Hids. cbn [bind].
    now rewrite (selectAll_reads r re ps ents Hents keys Hown).
  - unfold entity_selectTotal. rewrite get_prop_obj, Hids. cbn [bind].
    rewrite get_prop_length. now rewrite length_map.
  - intros Hall. split; [|apply length_map]. subst found. clear Hids Hown.
    induction keys as [|k rest IH]; [reflexivity|]. cbn [map filter].
    destruct (Hall k (or_introl eq_refl)) as (er & eps & ->). cbn [truthy].
    f_equal. apply IH. intros k' Hk'. apply Hall. now right.
Qed.

Lemma entity_selectAll_in_ids_order_witness :
  let a := VObj 5%nat [("id", VStr "a")] in
  let b := VObj 6%nat [("id", VStr "b")] in
  entity_selectAll 9%nat
    (VObj 0%nat [("entities", VObj 1%nat [("a", a); ("b", b)]);
                 ("ids", VArr 2%nat [VStr "b"; VStr "gone"; VStr "a"])]) VUndefined
  = Ok (VArr 9%nat [b; a])
  /\ entity_selectTotal
       (VObj 0%nat [("entities", VObj 1%nat [("a", a); ("b", b)]);
                    ("ids", VArr 2%nat [VStr "b"; VStr "gone"; VStr "a"])]) VUndefined
     = Ok (VNum 3).
Proof.
  intros a b.
  destruct (entity_selectAll_in_ids_order 9%nat 0%nat 1%nat 2%nat
              [("entities", VObj 1%nat [("a", a); ("b", b)]);
               ("ids", VArr 2%nat [VStr "b"; VStr "gone"; VStr "a"])]
              [("a", a); ("b", b)] ["b"; "gone"; "a"]) as (Hall & Htotal & _).
  - reflexivity.
  - reflexivity.
  - intros k Hk. simpl in Hk. destruct Hk as [<-|[<-|[<-|[]]]];
      simpl; intuition discriminate.
  - split; [exact Hall | exact Htotal].
Defined.

(** ** What the factory builds *)

Section Built.

Lemma NoDup_keys_put k r m : NoDup (keys m) -> NoDup (keys (put k r m)).
Proof.
  unfold keys. induction m as [|[k' r'] rest IH]; simpl; intros Hnd.
  - constructor; [tauto | constructor].
  - inversion Hnd as [|? ? Hnotin Hrest]; subst.
    destruct (String.eqb_spec k k') as [->|Hne]; simpl.
    + now constructor.
    + constructor; [|now apply IH].
      intros Hin. apply (keys_put k' k r rest) in Hin.
      destruct Hin as [Heq|Hin]; [congruence | exact (Hnotin Hin)].
Qed.

Lemma recognised_case kind x :
  recognised kind x = true -> exists op, case_of_kind kind x = Some op.
Proof.
  intros H. pose proof (recognised_vocabulary kind x H) as Hin.
  unfold recognised, isArrayReducer, isEntityReducer in H.
  destruct kind as [[]|]; simpl in Hin;
    repeat (destruct Hin as [<-|Hin]; [first [discriminate H | (eexists; reflexivity)]|]);
    contradiction.
Qed.

Variables (kind : option adapter_kind) (name : string)
  (actionNaming : option ActionNaming).

Let turn (reducersMap : reducer_map) (reducerName : string) : reducer_map :=
  if negb (recognised kind reducerName) then reducersMap
  else match case_of_kind kind reducerName with
       | Some r => put (actionKey name reducerName actionNaming) r reducersMap
       | None => reducersMap
       end.

Lemma vocabulary_map_turns requested :
  vocabulary_map kind requested name actionNaming = fold_left turn requested [].
Proof.
  unfold vocabulary_map, createEntityReducers, createArrayReducers, turn, case_of_kind,
    recognised.
  destruct kind as [[]|]; reflexivity.
Qed.

Lemma turns_built requested :
  NoDup (keys (fold_left turn requested []))
  /\ forall x, In x requested -> recognised kind x = true ->
               get (actionKey name x actionNaming) (fold_left turn requested [])
               = case_of_kind kind x.
Proof.
  induction requested as [|y pre [IHnd IHget]] using rev_ind.
  - split; [constructor | intros x []].
  - rewrite fold_left_app. cbn [fold_left]. unfold turn at 1 3.
    destruct (recognised kind y) eqn:Hy; cbn [negb].
    + destruct (recognised_case kind y Hy) as [ry Hry]. rewrite Hry.
      split; [now apply NoDup_keys_put|].
      intros x Hin Hx. rewrite get_put.
      destruct (String.eqb_spec (actionKey name x actionNaming)
                  (actionKey name y actionNaming)) as [Heq|Hne].
      * apply same_action_key in Heq;
          [|now apply (recognised_vocabulary kind)..].
        now subst y.
      * apply in_app_or in Hin. destruct Hin as [Hin|[->|[]]]; [auto|congruence].
    + split; [exact IHnd|]. intros x Hin Hx.
      apply in_app_or in Hin. destruct Hin as [Hin|[->|[]]]; [auto|congruence].
Qed.

End Built.

Lemma caseReducers_merged fresh cfg :
  caseReducers (createAutoSlice fresh cfg)
  = let merged := with_custom cfg (vocabulary_map (adapter cfg) (reducers cfg) (name cfg)
                                     (actionNaming cfg)) in
    match adapter cfg with
    | Some entity_adapter => merged
    | _ => if hasAsync cfg then wrappedReducers merged else merged
    end.
Proof.
  unfold createAutoSlice, vocabulary_map.
  destruct (adapter cfg) as [[]|]; destruct (hasAsync cfg); reflexivity.
Qed.

Lemma merge_custom_get name naming custom : forall built key,
  get key (merge_custom name naming custom built)
  = match find (fun e => String.eqb key (actionKey name (fst e) naming)) (rev custom) with
    | Some e => Some (snd e)
    | None => get key built
    end.
Proof.
  unfold merge_custom.
  induction custom as [|e pre IH] using rev_ind; intros built key; [reflexivity|].
  rewrite fold_left_app, rev_app_distr. cbn [fold_left rev app find].
  rewrite get_put.
  destruct (String.eqb key (actionKey name (fst e) naming)); [reflexivity|]. apply IH.
Qed.

(** Every requested name of the vocabulary gets its case of the switch,
    under its action key, whatever else is requested, repeated or unknown,
    and in every naming mode; and no key is built twice. *)
Theorem requested_names_are_built (kind : option adapter_kind) (requested : list string)
  (name : string) (naming : option ActionNaming) (x : string) :
  In x requested ->
  recognised kind x = true ->
  let built := vocabulary_map kind requested name naming in
  (exists op, case_of_kind kind x = Some op
              /\ get (actionKey name x naming) built = Some op)
  /\ NoDup (keys built).
Proof.
  intros Hin Hx built. subst built. rewrite vocabulary_map_turns.
  destruct (turns_built kind name naming requested) as [Hnd Hget].
  split; [|exact Hnd].
  destruct (recognised_case kind x Hx) as [op Hop]. exists op.
  split; [exact Hop|]. rewrite Hget by assumption. exact Hop.
Qed.

Lemma requested_names_are_built_witness :
  get "todosToggle"
    (vocabulary_map (Some entity_adapter) ["bogus"; "toggle"; "add"; "toggle"] "todos"
       (Some prefixed))
  = Some EntityAdapter.toggle.
Proof.
  destruct (requested_names_are_built (Some entity_adapter)
              ["bogus"; "toggle"; "add"; "toggle"] "todos" (Some prefixed) "toggle")
    as [(op & Hop & Hget) _].
  - right. left. reflexivity.
  - reflexivity.
  - cbn in Hop. inversion Hop; subst op. exact Hget.
Defined.

(** A custom reducer stands under the action key of its name in the slice
    that [createAutoSlice] returns, in place of a generated reducer of the
    same key; where several custom names share a key the last one stands;
    in an async array slice it is wrapped like the generated ones, so it
    gets [state.data]. A key of no custom reducer has what was generated. *)
Theorem custom_reducers_override (fresh : ref) (cfg : config)
  (pre post : reducer_map) (customName : string) (fn : reducer) :
  customReducers cfg = Some (pre ++ (customName, fn) :: post) ->
  let key_of n := actionKey (name cfg) n (actionNaming cfg) in
  (forall e, In e post -> key_of (fst e) <> key_of customName) ->
  let s := createAutoSlice fresh cfg in
  let generated :=
    vocabulary_map (adapter cfg) (reducers cfg) (name cfg) (actionNaming cfg) in
  let in_slice (op : reducer) :=
    match adapter cfg with
    | Some entity_adapter => op
    | _ => if hasAsync cfg then wrap op else op
    end in
  get (key_of customName) (caseReducers s) = Some (in_slice fn)
  /\ forall key,
       (forall e, In e (pre ++ (customName, fn) :: post) -> key_of (fst e) <> key) ->
       get key (caseReducers s) = option_map in_slice (get key generated).
Proof.
  intros Hcustom key_of Hlast s generated in_slice.
  assert (Hmerged : forall key,
            get key (with_custom cfg generated)
            = match find (fun e => String.eqb key (key_of (fst e)))
                      (rev (pre ++ (customName, fn) :: post)) with
              | Some e => Some (snd e)
              | None => get key generated
              end).
  { intros key. unfold with_custom. rewrite Hcustom. apply merge_custom_get. }
  assert (Hslice : forall key,
            get key (caseReducers s)
            = option_map in_slice (get key (with_custom cfg generated))).
  { intros key. subst s. rewrite caseReducers_merged. cbv zeta. fold generated.
    unfold in_slice.
    destruct (adapter cfg) as [[]|]; try destruct (hasAsync cfg);
      rewrite ?get_wrapped; destruct (get key (with_custom cfg generated)); reflexivity. }
  split.
  - rewrite Hslice, Hmerged. rewrite rev_app_distr. cbn [rev].
    rewrite <- app_assoc. cbn [app].
    assert (Hskip : forall l : reducer_map,
              (forall e, In e l -> key_of (fst e) <> key_of customName) ->
              forall tail,
                find (fun e => String.eqb (key_of customName) (key_of (fst e))) (l ++ tail)
                = find (fun e => String.eqb (key_of customName) (key_of (fst e))) tail).
    { induction l as [|e l IH]; intros Hl tail; [reflexivity|]. cbn [app find].
      destruct (String.eqb_spec (key_of customName) (key_of (fst e))) as [Heq|Hne].
      - exfalso. apply (Hl e); [now left | congruence].
      - apply IH. intros e' He'. apply Hl. now right. }
    rewrite Hskip by (intros e He; apply Hlast; now apply in_rev).
    cbn [find fst]. now rewrite String.eqb_refl.
  - intros key Hfree. rewrite Hslice, Hmerged.
    destruct (find _ _) as [e|] eqn:Hfind; [|reflexivity].
    apply find_some in Hfind. destruct Hfind as [Hin Heq].
    apply String.eqb_eq in Heq. apply in_rev in Hin.
    exfalso. apply (Hfree e Hin). congruence.
Qed.

Lemma custom_reducers_override_witness :
  let cfg := {| name := "items"; adapter := None; initialState := VArr 0%nat [];
                reducers := ["add"; "clear"];
                customReducers := Some [("add", ArrayAdapter.upsert)];
                actionNaming := None;
                asyncThunks := Some [("fetchItems", "items/fetch")] |} in
  get "add" (caseReducers (createAutoSlice 1%nat cfg)) = Some (wrap ArrayAdapter.upsert)
  /\ get "clear" (caseReducers (createAutoSlice 1%nat cfg)) = Some (wrap ArrayAdapter.clear).
Proof.
  intros cfg.
  destruct (custom_reducers_override 1%nat cfg [] [] "add" ArrayAdapter.upsert)
    as [Hadd Hother].
  - reflexivity.
  - intros e [].
  - split; [exact Hadd|]. rewrite Hother; [reflexivity|].
    intros e [<-|[]]. discriminate.
Defined.

(** In an async entity slice the generated [clear] gives a state without
    the lifecycle fields: after it, [loading], [error] and [status] are
    [undefined], and so are [selectLoading], [selectError] and
    [selectStatus]. *)
Theorem async_entity_clear_drops_lifecycle (fresh f : ref) (cfg : config)
  (state payload : value) :
  adapter cfg = Some entity_adapter ->
  hasAsync cfg = true ->
  customReducers cfg = None ->
  In "clear" (reducers cfg) ->
  let s := createAutoSlice fresh cfg in
  exists st',
    dispatch s f (actionKey (name cfg) "clear" (actionNaming cfg)) state payload = Ok st'
    /\ lifecycle_of st' = (VUndefined, VUndefined, VUndefined)
    /\ forall key sel,
         In key ["selectLoading"; "selectError"; "selectStatus"] ->
         selector_named key (selectors s) = Some sel ->
         sel st' VUndefined = Ok VUndefined.
Proof.
  intros Hkind Hasync Hcustom Hin s.
  assert (Hget : get (actionKey (name cfg) "clear" (actionNaming cfg)) (caseReducers s)
                 = Some EntityAdapter.clear).
  { subst s. rewrite caseReducers_merged. cbv zeta. rewrite Hkind.
    unfold with_custom. rewrite Hcustom. rewrite vocabulary_map_turns.
    destruct (turns_built (Some entity_adapter) (name cfg) (actionNaming cfg)
                (reducers cfg)) as [_ H].
    now rewrite H. }
  unfold dispatch. rewrite Hget. cbn [EntityAdapter.clear bind].
  eexists. split; [reflexivity|]. split; [reflexivity|].
  intros key sel Hkey. subst s. unfold createAutoSlice. rewrite Hkind, Hasync.
  cbn [selectors]. simpl in Hkey.
  destruct Hkey as [<-|[<-|[<-|[]]]]; cbn; intros [= <-]; reflexivity.
Qed.

Lemma async_entity_clear_drops_lifecycle_witness :
  let cfg := {| name := "users"; adapter := Some entity_adapter;
                initialState := getEmptyEntityState 0%nat;
                reducers := ["add"; "clear"]; customReducers := None;
                actionNaming := Some prefixed;
                asyncThunks := Some [("fetchUsers", "users/fetch")] |} in
  let s := createAutoSlice 5%nat cfg in
  lifecycle_of (initial s) = (VBool false, VNull, VStr "idle")
  /\ exists st',
       dispatch s 9%nat "usersClear" (initial s) VUndefined = Ok st'
       /\ lifecycle_of st' = (VUndefined, VUndefined, VUndefined).
Proof.
  intros cfg s. split; [reflexivity|].
  destruct (async_entity_clear_drops_lifecycle 5%nat 9%nat cfg (initial s) VUndefined)
    as (st' & Hrun & Hfields & _).
  - reflexivity.
  - reflexivity.
  - reflexivity.
  - right. left. reflexivity.
  - exists st'. split; [exact Hrun | exact Hfields].
Defined.

(** An empty [asyncThunks] object is no [asyncThunks]: the factory returns
    the plain slice, with the initial state as given, no lifecycle case and
    no lifecycle selector. *)
Theorem empty_asyncThunks_is_none (fresh : ref) (cfg : config) :
  let s := createAutoSlice fresh (with_async cfg (Some [])) in
  s = createAutoSlice fresh (with_async cfg None)
  /\ initial s = initialState cfg
  /\ extraReducers s = []
  /\ selector_named "selectLoading" (selectors s) = None
  /\ selector_named "selectError" (selectors s) = None
  /\ selector_named "selectStatus" (selectors s) = None.
Proof.
  unfold createAutoSlice, with_async, hasAsync, thunks_of, with_custom.
  cbn [adapter asyncThunks customReducers Factory.name Factory.actionNaming reducers
       initialState].
  destruct (adapter cfg) as [[]|]; repeat split.
Qed.

(** A lifecycle case run again on its own result, with the same action,
    changes nothing more: every case that [addAsyncExtraReducers]
    registers is idempotent on a state object. *)
Theorem lifecycle_case_idempotent (ts : list thunk) (c : action_creator)
  (run : case_reducer) (r : ref) (ps : props) (ra : ref) (aps : props) :
  In (c, run) (addAsyncExtraReducers ts) ->
  exists st1,
    run (VObj r ps) (VObj ra aps) = Ok st1
    /\ run st1 (VObj ra aps) = Ok st1.
Proof.
  intros Hin. unfold addAsyncExtraReducers in Hin. apply in_flat_map in Hin.
  destruct Hin as (t & _ & Hcase).
  assert (Hagain : forall l e s,
            assign "status" s (assign "error" e (assign "loading" l
              (assign "status" s (assign "error" e (assign "loading" l ps)))))
            = assign "status" s (assign "error" e (assign "loading" l ps))).
  { intros l e s.
    set (ps1 := assign "status" s (assign "error" e (assign "loading" l ps))).
    assert (H1 : assign "loading" l ps1 = ps1).
    { apply assign_lookup_same. unfold ps1.
      rewrite !lookup_assign_other by discriminate. apply lookup_assign_same. }
    assert (H2 : assign "error" e ps1 = ps1).
    { apply assign_lookup_same. unfold ps1.
      rewrite lookup_assign_other by discriminate. apply lookup_assign_same. }
    assert (H3 : assign "status" s ps1 = ps1).
    { apply assign_lookup_same. apply lookup_assign_same. }
    now rewrite H1, H2, H3. }
  destruct Hcase as [H|[H|[H|[]]]]; inversion H; subst c run.
  1,2: cbn [pending_case fulfilled_case set_prop bind];
       eexists; split; [reflexivity|];
       cbn [pending_case fulfilled_case set_prop bind]; now rewrite Hagain.
  cbn [rejected_case set_prop bind]. rewrite failure_reason_object. cbn [bind set_prop].
  eexists; split; [reflexivity|]. cbn [rejected_case set_prop bind].
  rewrite failure_reason_object. cbn [bind set_prop]. now rewrite Hagain.
Qed.

Lemma lifecycle_case_idempotent_witness :
  exists st1,
    rejected_case (VObj 0%nat [("data", VArr 1%nat []); ("loading", VBool true)])
      (VObj 7%nat [("payload", VStr "denied")]) = Ok st1
    /\ rejected_case st1 (VObj 7%nat [("payload", VStr "denied")]) = Ok st1.
Proof.
  apply (lifecycle_case_idempotent ["items/fetch"] ("items/fetch", rejected) rejected_case).
  right. right. left. reflexivity.
Defined.

(** * Identifiers in the array adapter *)

Section IdentifierFacts.

Lemma identified_defined v : identified v -> defined v.
Proof. intros (r & ps & id & -> & _). reflexivity. Qed.

Lemma identified_id v : identified v -> identifier (read v "id").
Proof. intros (r & ps & id & -> & Hid & Hident). now rewrite read_obj, Hid. Qed.

Lemma identifier_typeof id :
  identifier id -> typeof id = "string" \/ typeof id = "number".
Proof. destruct id; simpl; try contradiction; auto. Qed.

Lemma identified_ids_form pr first rest :
  identified first -> ids_form (VArr pr (first :: rest)) = true.
Proof.
  intros (r & ps & id & -> & Hid & Hident). unfold ids_form. cbn [one_or_many].
  rewrite Hid. destruct id; simpl in Hident; try contradiction; reflexivity.
Qed.

Lemma existsb_map_string (f : value -> string) k xs :
  existsb (String.eqb k) (map f xs) = existsb (fun x => String.eqb k (f x)) xs.
Proof. induction xs as [|x rest IH]; simpl; congruence. Qed.

End IdentifierFacts.

(** Claim C9. In the collection kind [remove], [update] and [upsert] match
    identifiers with [===], without normalization, and [removeMany] with
    id-bearing objects matches their string-normalized forms (a string as
    it is, a number in decimal). On a state of one element whose [id] is
    [a], for a payload identifier [b]: [remove] drops the element, [update]
    patches it and [upsert] replaces it exactly when [a === b] (else
    [remove] keeps it, [update] changes nothing and [upsert] appends). On
    any state of elements that bear identifiers, [removeMany] with a
    sequence of such objects drops exactly the elements whose identifier
    has the string form of the identifier of one of them. Numeric [1] and
    string ["1"], either way round, are therefore not matched by the first
    three and matched by [removeMany], which still tells [1] from [2]. *)
Theorem array_id_comparison (fresh r er pr pr' : ref) (eps : props) (a b c : value)
  (items wanted : list value) :
  lookup "id" eps = Some a ->
  identifier b ->
  Forall identified items ->
  Forall identified wanted ->
  wanted <> [] ->
  let e := VObj er eps in
  let p := VObj pr [("id", b)] in
  let state := VArr r [e] in
  let same := strict_equal a b in
  let wanted_form := fun item =>
    existsb (fun w => String.eqb (string_form (read item "id"))
                        (string_form (read w "id"))) wanted in
  ArrayAdapter.remove fresh state p
    = Ok (replaced state (VArr fresh (if same then [] else [e])))
  /\ ArrayAdapter.update fresh state (VObj pr [("id", b); ("changes", c)])
    = Ok (mutated (VArr r [if same
                           then VObj fresh (spread (spread [] eps) (own_props c))
                           else e]))
  /\ ArrayAdapter.upsert fresh state p
    = Ok (mutated (VArr r (if same then [p] else [e; p])))
  /\ ArrayAdapter.removeMany fresh (VArr r items) (VArr pr' wanted)
    = Ok (replaced (VArr r items)
            (VArr fresh (filter (fun item => negb (wanted_form item)) items)))
  /\ strict_equal (VNum 1) (VStr "1") = false
  /\ strict_equal (VStr "1") (VNum 1) = false
  /\ string_form (VNum 1) = string_form (VStr "1")
  /\ string_form (VNum 1) <> string_form (VNum 2).
Proof.
  intros Ha Hb Hitems Hwanted Hsome e p state same wanted_form.
  assert (Hread : read e "id" = a) by (unfold e; now rewrite read_obj, Ha).
  assert (He : defined e) by reflexivity.
  split; [|split; [|split; [|split]]].
  - unfold state, p. rewrite remove_filter by (intros _; repeat constructor).
    cbn [id_bearing has_key lookup]. change (String.eqb "id" "id") with true.
    cbn [filter]. rewrite Hread, read_obj. cbn [lookup].
    change (String.eqb "id" "id") with true. cbn iota. fold same.
    now destruct same.
  - unfold state. destruct same eqn:Hsame.
    + rewrite (update_id_form_match fresh r pr [e] [("id", b); ("changes", c)]
                 ltac:(intros i; cbn; discriminate) eq_refl eq_refl [] e []);
        try reflexivity.
      * repeat constructor.
      * intros x [].
      * rewrite Hread, read_obj. exact Hsame.
    + apply update_id_form_no_match; try reflexivity.
      * intros i. cbn. discriminate.
      * repeat constructor.
      * intros x [<-|[]]. rewrite Hread, read_obj. exact Hsame.
  - unfold ArrayAdapter.upsert, state, p.
    cbn [one_or_many for_of array_findIndex find_index_from].
    rewrite (get_prop_defined e) by auto. rewrite Hread. cbn [bind get_prop_opt nullish].
    rewrite get_prop_obj. cbn [lookup]. change (String.eqb "id" "id") with true.
    cbn iota. cbn [bind]. fold same. destruct same; reflexivity.
  - destruct wanted as [|first rest]; [congruence|].
    rewrite removeMany_ids.
    + cbn [one_or_many]. do 3 f_equal. apply filter_ext_in. intros item Hin.
      rewrite Forall_forall in Hitems, Hwanted.
      rewrite existsb_map_string. unfold wanted_form. f_equal.
      rewrite (toId_string_form _ (identified_id _ (Hitems _ Hin))).
      clear - Hwanted. induction (first :: rest) as [|w ws IH]; [reflexivity|].
      cbn [existsb].
      rewrite (toId_string_form _ (identified_id _ (Hwanted _ (or_introl eq_refl)))).
      f_equal. apply IH. intros x Hx. apply Hwanted. now right.
    + inversion Hwanted; subst. now apply identified_ids_form.
    + cbn [one_or_many]. eapply Forall_impl; [|exact Hwanted].
      intros x. apply identified_defined.
    + eapply Forall_impl; [|exact Hitems]. intros x. apply identified_defined.
  - repeat split; try reflexivity. discriminate.
Qed.

Lemma array_id_comparison_witness :
  let one := VObj 1%nat [("id", VNum 1); ("name", VStr "one")] in
  let two := VObj 4%nat [("id", VNum 2); ("name", VStr "two")] in
  let p := VObj 2%nat [("id", VStr "1")] in
  ArrayAdapter.remove 9%nat (VArr 0%nat [one]) p
    = Ok (replaced (VArr 0%nat [one]) (VArr 9%nat [one]))
  /\ ArrayAdapter.upsert 9%nat (VArr 0%nat [one]) p
    = Ok (mutated (VArr 0%nat [one; p]))
  /\ ArrayAdapter.removeMany 9%nat (VArr 0%nat [one; two]) (VArr 3%nat [p])
    = Ok (replaced (VArr 0%nat [one; two]) (VArr 9%nat [two])).
Proof.
  intros one two p.
  assert (Hone : identified one).
  { exists 1%nat, [("id", VNum 1); ("name", VStr "one")], (VNum 1).
    split; [reflexivity|]. split; [reflexivity|]. apply Z.leb_le. reflexivity. }
  assert (Htwo : identified two).
  { exists 4%nat, [("id", VNum 2); ("name", VStr "two")], (VNum 2).
    split; [reflexivity|]. split; [reflexivity|]. apply Z.leb_le. reflexivity. }
  assert (Hp : identified p).
  { exists 2%nat, [("id", VStr "1")], (VStr "1"). repeat split. }
  destruct (array_id_comparison 9%nat 0%nat 1%nat 2%nat 3%nat
              [("id", VNum 1); ("name", VStr "one")] (VNum 1) (VStr "1") VNull
              [one; two] [p])
    as (Hremove & _ & Hupsert & HremoveMany & _).
  - reflexivity.
  - exact I.
  - repeat constructor; assumption.
  - repeat constructor; assumption.
  - discriminate.
  - repeat split; assumption.
Defined.

(** * The invariant of the entity adapter, and totality *)

Lemma entity_runs fresh state payload reducerName op :
  invariant state ->
  entity_case reducerName = Some op ->
  runs reducerName state payload ->
  exists red, op fresh state payload = Ok red.
Proof.
  intros Hinv Hcase Hruns.
  apply invariant_shape in Hinv. destruct Hinv as (ents & ids & Hs & _).
  destruct (entity_remove_runs fresh state ents ids payload Hs) as [Hremove HremoveMany].
  unfold runs in Hruns.
  destruct (entity_case_cases _ _ Hcase)
    as [[-> ->]|[[-> ->]|[[-> ->]|[[-> ->]|[[-> ->]|[[-> ->]|[[-> ->]|[[-> ->]|[[-> ->]|[-> ->]]]]]]]]]];
    cbn in Hruns; auto.
  - now apply (entity_add_runs fresh state ents ids payload).
  - now apply (entity_update_runs fresh state ents ids payload).
  - eexists; reflexivity.
  - eexists; reflexivity.
  - now apply (entity_addMany_runs fresh state ents ids payload).
  - now apply (entity_add_runs fresh state ents ids payload).
  - destruct Hruns as ((r & ps & re & ents' & ri & ids' & -> & Hents & _ & Hobj) & Hown & Hsum).
    apply (entity_increment_toggle_runs fresh r ps re ents' payload Hents Hobj Hown).
    intros er eps n He Hf. apply (Hsum er eps n); [|exact Hf].
    now rewrite (entity_at_shape r ps re ents' _ Hents).
  - destruct Hruns as ((r & ps & re & ents' & ri & ids' & -> & Hents & _ & Hobj) & Hown).
    now apply (entity_increment_toggle_runs fresh r ps re ents' payload Hents Hobj Hown).
Qed.

(** Claim C2, as amended. From a state that satisfies the predicate ([ids]
    without duplicates, its members exactly the keys of [entities]), the
    state that a vocabulary transition of the entity adapter results in
    satisfies it again: for every payload when the transition is add,
    remove, clear, addMany, removeMany, upsert, increment or toggle; for
    [update] when the payload's id names no member that an object
    inherits; and for [set] when the payload is [null] or [undefined] or
    itself satisfies the predicate. The transition does result in a state
    under the conditions of [runs]. *)
Theorem invariant_preserved (fresh : ref) (state payload : value)
  (reducerName : string) (op : reducer) :
  invariant state ->
  entity_case reducerName = Some op ->
  (reducerName = "set" -> nullish payload = true \/ invariant payload) ->
  (reducerName = "update" -> names_own payload) ->
  (forall red, op fresh state payload = Ok red -> invariant (next_state red))
  /\ (runs reducerName state payload -> exists red, op fresh state payload = Ok red).
Proof.
  intros Hinv Hcase Hset Hupdate. split; [|now apply entity_runs].
  intros red Hrun.
  destruct (entity_case_cases _ _ Hcase)
    as [[-> ->]|[[-> ->]|[[-> ->]|[[-> ->]|[[-> ->]|[[-> ->]|[[-> ->]|[[-> ->]|[[-> ->]|[-> ->]]]]]]]]]].
  - now apply (add_invariant fresh state payload).
  - now apply (remove_invariant fresh state payload).
  - apply (update_invariant fresh state payload); auto. now apply Hupdate.
  - now apply (clear_invariant fresh state payload).
  - apply (set_invariant fresh state payload); auto.
  - now apply (addMany_invariant fresh state payload).
  - now apply (removeMany_invariant fresh state payload).
  - now apply (upsert_invariant fresh state payload).
  - now apply (increment_invariant fresh state payload).
  - now apply (toggle_invariant fresh state payload).
Qed.

Lemma invariant_preserved_witness :
  let state := VObj 0%nat [("entities", VObj 1%nat []); ("ids", VArr 2%nat [])] in
  let entity := VObj 5%nat [("id", VNum 7); ("name", VStr "g")] in
  invariant (VObj 0%nat [("entities", VObj 1%nat [("7", entity)]);
                         ("ids", VArr 2%nat [VStr "7"])]).
Proof.
  intros state entity.
  destruct (invariant_preserved 9%nat state entity "add" EntityAdapter.add) as [Hkeep _].
  - exists 0%nat, [("entities", VObj 1%nat []); ("ids", VArr 2%nat [])],
      1%nat, [], 2%nat, [].
    repeat split; try constructor.
    + intros [].
    + intros (k & _ & Hk). discriminate Hk.
  - reflexivity.
  - discriminate.
  - discriminate.
  - apply (Hkeep (mutated (VObj 0%nat [("entities", VObj 1%nat [("7", entity)]);
                                       ("ids", VArr 2%nat [VStr "7"])]))).
    reflexivity.
Defined.

(** [set] makes the payload the state as it is, here with an identifier
    that names no entity. *)
Lemma set_breaks_invariant :
  let state := VObj 0%nat [("entities", VObj 1%nat []); ("ids", VArr 2%nat [])] in
  let payload := VObj 3%nat [("entities", VObj 4%nat []); ("ids", VArr 5%nat [VStr "ghost"])] in
  invariant state
  /\ exists red, EntityAdapter.set 9%nat state payload = Ok red
                 /\ ~ invariant (next_state red).
Proof.
  intros state payload. split; [apply empty_invariant|].
  eexists. split; [reflexivity|].
  intros (r & ps & re & ents & ri & ids & Heq & Hents & Hids & _ & Hmem).
  cbn in Heq. inversion Heq; subst r ps. cbn in Hents, Hids.
  inversion Hents; subst re ents. inversion Hids; subst ri ids.
  destruct (proj1 (Hmem (VStr "ghost")) (or_introl eq_refl)) as (k & _ & Hk).
  discriminate Hk.
Qed.

(** Claim C2 as stated fails for [set], which makes the payload the state
    as it is, and for [update] at an id that names an inherited member:
    [update] finds the method there and stores an entity under the id,
    which [ids] does not list. *)
Lemma invariant_not_preserved :
  let state := VObj 0%nat [("entities", VObj 1%nat []); ("ids", VArr 2%nat [])] in
  let installed :=
    VObj 3%nat [("entities", VObj 4%nat []); ("ids", VArr 5%nat [VStr "ghost"])] in
  let patch :=
    VObj 6%nat [("id", VStr "constructor"); ("changes", VObj 7%nat [("x", VNum 1)])] in
  invariant state
  /\ (exists red, EntityAdapter.set 9%nat state installed = Ok red
                  /\ ~ invariant (next_state red))
  /\ (exists red, EntityAdapter.update 9%nat state patch = Ok red
                  /\ next_state red
                     = VObj 0%nat [("entities",
                                    VObj 1%nat [("constructor", VObj 9%nat [("x", VNum 1)])]);
                                   ("ids", VArr 2%nat [])]
                  /\ ~ invariant (next_state red)).
Proof.
  intros state installed patch.
  split; [apply empty_invariant|]. split; [apply set_breaks_invariant|].
  eexists. split; [reflexivity|]. split; [reflexivity|].
  intros (r & ps & re & ents & ri & ids & Heq & Hents & Hids & _ & Hmem).
  cbn in Heq. inversion Heq; subst r ps. cbn in Hents, Hids.
  inversion Hents; subst re ents. inversion Hids; subst ri ids.
  apply (proj2 (Hmem (VStr "constructor"))). exists "constructor". split; reflexivity.
Qed.



